(** * zylos-feishu: message ingestion, policy, context and dispatch pipeline

    A shallow embedding of [src/lib/config.js] (configuration persistence)
    and [src/index.js] (the bot service) together with the properties of the
    pipeline that are checked against them.

    Conventions of the embedding.
    - A JavaScript identifier that may be [undefined]/[null] and whose
      absence the code distinguishes from the empty string is an
      [option string]; identifiers the code only tests for truthiness are
      plain strings, the empty string standing for an absent value.
    - [Map] and plain-object dictionaries are [gmap]s, [Set]s are [gset]s.
    - Module-level mutable state is gathered in the record [World];
      functions that read or write it are state transformers in the monad
      [M], whose second outcome [Thrown] is a JavaScript exception leaving
      the function.
    - Calls that leave the process (file system, chat platform, the agent
      bridge) are answered by an environment [Env]; every answer may depend
      on the number of external calls made so far, and each call is
      appended to [trace].
    - Continuations of asynchronous calls run in program order. *)

From Stdlib Require Import Ascii.
From stdpp Require Import gmap strings list pretty sorting.

Local Open Scope Z_scope.

(* ================================================================== *)
(** * Part I: definitions                                              *)
(* ================================================================== *)

(** ** JavaScript idioms *)

(** Truthiness of a string: only the empty string is falsy. *)
Definition truthy (s : string) : bool := bool_decide (s ≠ EmptyString).

(** Truthiness of a possibly absent string. *)
Definition truthyO (o : option string) : bool :=
  match o with Some s => truthy s | None => false end.

(** [a || b] on strings. *)
Definition orS (a b : string) : string := if truthy a then a else b.

(** [a || b] where [a] may be undefined. *)
Definition orO (a : option string) (b : string) : string :=
  match a with Some s => orS s b | None => b end.

(** [a || b] on numbers: zero is falsy. *)
Definition orZ (a b : Z) : Z := if bool_decide (a = 0) then b else a.

(** What a function without a useful result may hand back. *)
Inductive JsValue :=
  | JsUndefined
  | JsBool (b : bool).

Definition truthyV (v : JsValue) : bool :=
  match v with
  | JsUndefined => false
  | JsBool b => b
  end.

(** [String(x)] for a value known to be a string or absent. *)
Definition String_ (o : option string) : string :=
  match o with Some s => s | None => "undefined"%string end.

(** [arr.slice(start)]: a negative [start] counts from the end. *)
Definition slice {A} (start : Z) (l : list A) : list A :=
  let len := Z.of_nat (List.length l) in
  let k := if bool_decide (start < 0) then Z.max (len + start) 0 else Z.min start len in
  drop (Z.to_nat k) l.

(** [arr.findIndex(p)]; [None] is the JavaScript result [-1]. *)
Fixpoint findIndex {A} (p : A → bool) (l : list A) : option nat :=
  match l with
  | [] => None
  | x :: l' => if p x then Some 0%nat else S <$> findIndex p l'
  end.

(** ** Configuration ([DEFAULT_CONFIG] and the fields read by the service) *)

Record Owner := mkOwner {
  bound : bool;
  user_id : option string;
  open_id : option string;
  name : string
}.

Record GroupConfig := mkGroup {
  g_name : string;
  mode : string;
  requireMention : option bool;
  allowFrom : list string;
  historyLimit : Z
}.

(** An element of the legacy arrays [allowed_groups] and [smart_groups]. *)
Record LegacyGroup := mkLegacy { lg_chat_id : string; lg_name : string }.

Record Config := mkConfig {
  owner : option Owner;
  dmPolicy : string;
  dmAllowFrom : list string;
  groupPolicy : string;
  groups : gmap string GroupConfig;
  allowed_groups : list LegacyGroup;
  smart_groups : list LegacyGroup;
  context_messages : Z;
  app_id : string;
  bot_open_id : string
}.

Definition set_owner (o : option Owner) (c : Config) : Config :=
  mkConfig o (dmPolicy c) (dmAllowFrom c) (groupPolicy c) (groups c)
           (allowed_groups c) (smart_groups c) (context_messages c)
           (app_id c) (bot_open_id c).

(** ** History entries, typing state, timers *)

Record Entry := mkEntry {
  timestamp : Z;
  message_id : string;
  e_user_id : option string;
  e_open_id : option string;
  user_name : string;
  text : string
}.

Record TypingState := mkTyping { reactionId : string; timer : nat }.

Inductive TimerAction :=
  | ExpireTyping (messageId : string)
  | DeferredRemove (messageId rid : string).

(** A pending [setTimeout]: the time it is due and what it will run. *)
Record Timer := mkTimer { due : Z; action : TimerAction }.

(** ** Answers of the outside world *)

Inductive AddReactionResult :=
  | AddResult (success : bool) (rid : string)
  | AddThrows.

Inductive RemoveReactionResult :=
  | RemoveResult (success : bool)
  | RemoveThrows.

Record RemoteMessage := mkRemote {
  r_id : string;
  r_sender : option string;
  r_createTime : Z;
  r_text : string
}.

Inductive ListMessagesResult :=
  | ListResult (success : bool) (messages : list RemoteMessage)
  | ListThrows.

(** Parsed standard output of [c4-receive]: [ok] and [error.message]. *)
Record C4Response := mkC4 { ok : option bool; error_message : string }.

Inductive ExecResult :=
  | ExecOk
  | ExecError (stdout : option C4Response).

(** ** Identity of senders *)

(** What [extractPermissionError] finds in an error: code, message and
    the grant URL, empty when there is none. *)
Record PermissionError := mkPermissionError {
  pe_code : Z;
  pe_message : string;
  grantUrl : string
}.

Record CacheEntry := mkCacheEntry { cached_name : string; expireAt : Z }.

(** The module variables of the identity resolver. *)
Record IdentityState := mkIdentity {
  userCacheMemory : gmap string CacheEntry;
  _userCacheDirty : bool;
  lastPermissionErrorNotified : Z
}.

(** The answer of [getUserInfo(userId)]: a result with [success],
    [user.name], [code] and [message], or an exception together with what
    [extractPermissionError] makes of it. *)
Inductive UserInfoResult :=
  | UserInfo (success : bool) (userName : string) (code : Z) (message : string)
  | UserInfoThrows (permErr : option PermissionError).

(** A member of a chat as [listChatMembers] reports it. *)
Record Member := mkMember { memberId : string; member_name : string }.

Inductive ListMembersResult :=
  | MembersResult (success : bool) (members : list Member)
  | MembersThrows.

(** ** Observable effects *)

Inductive Effect :=
  | EWriteConfig (success : bool)
  | EGetUserInfo (userId : string) (r : UserInfoResult)
  | EAppendLog (logId : string) (threadId : string) (e : Entry)
  | EAddReaction (messageId : string) (r : AddReactionResult)
  | ERemoveReaction (messageId rid : string) (r : RemoveReactionResult)
  | EListMessages (containerId : string) (limit : Z) (containerType : string)
      (r : ListMessagesResult)
  | EListChatMembers (chatId : string)
  | EExecFile (channel endpoint content : string) (r : ExecResult)
  | ESleep (ms : Z)
  | ESendMessage (chatId text : string)
  | EReplyToMessage (messageId text : string) (success : bool)
  | EGetMessage (messageId : string)
  | EDownloadImage (messageId imageKey : string) (success : bool)
  | EDownloadFile (messageId fileKey : string) (success : bool)
  | ESaveCursors.

(** The answers of the outside world.  The first argument of an answer
    that may change from call to call is the number of external calls made
    before it.
    - [writeFileSync_ok]: whether [fs.writeFileSync(CONFIG_PATH, ...)]
      succeeds.
    - [getUserInfo]: the answer of the contact lookup for a user id.
    - [addReaction], [removeReaction], [listMessages], [listChatMembers]:
      the results of the platform calls of [lib/message.js], or an
      exception.
    - [execFile]: the outcome of one run of [c4-receive].
    - [replyToMessage_ok], [downloadImage_ok], [downloadFile_ok]: success
      of a reply and of a download.
    - [getMessage]: the sender id and the text of a quoted message, [None]
      when the call fails or finds nothing.
    - [engineOrder]: the order in which the JavaScript engine leaves an
      array that is sorted with a comparator that is not an ordering of
      it: given the creation times, the place of each position. *)
Record Env := mkEnv {
  writeFileSync_ok : nat → bool;
  getUserInfo : nat → string → UserInfoResult;
  addReaction : nat → string → AddReactionResult;
  removeReaction : nat → string → string → RemoveReactionResult;
  listMessages : nat → string → Z → string → ListMessagesResult;
  listChatMembers : nat → string → ListMembersResult;
  execFile : nat → string → string → ExecResult;
  replyToMessage_ok : nat → string → bool;
  getMessage : nat → string → option (option string * string);
  downloadImage_ok : nat → string → string → bool;
  downloadFile_ok : nat → string → string → bool;
  engineOrder : list Z → list Z
}.

(** ** Process state *)

Record World := mkWorld {
  config : Config;
  disk : option Config;
  clock : Z;
  botOpenId : string;
  botAppId : string;
  botAppName : string;
  processedMessages : gmap string Z;
  activeTypingIndicators : gmap string TypingState;
  timers : gmap nat Timer;
  next_timer : nat;
  chatHistories : gmap string (list Entry);
  lazyLoadedContainers : gset string;
  preloadedGroups : gset string;
  groupCursors : gmap string string;
  identity : IdentityState;
  trace : list Effect
}.

Definition set_config (f : Config → Config) (w : World) : World :=
  mkWorld (f (config w)) (disk w) (clock w) (botOpenId w) (botAppId w) (botAppName w)
    (processedMessages w) (activeTypingIndicators w) (timers w) (next_timer w)
    (chatHistories w) (lazyLoadedContainers w) (preloadedGroups w) (groupCursors w)
    (identity w) (trace w).

Definition set_disk (x : option Config) (w : World) : World :=
  mkWorld (config w) x (clock w) (botOpenId w) (botAppId w) (botAppName w)
    (processedMessages w) (activeTypingIndicators w) (timers w) (next_timer w)
    (chatHistories w) (lazyLoadedContainers w) (preloadedGroups w) (groupCursors w)
    (identity w) (trace w).

Definition set_clock (x : Z) (w : World) : World :=
  mkWorld (config w) (disk w) x (botOpenId w) (botAppId w) (botAppName w)
    (processedMessages w) (activeTypingIndicators w) (timers w) (next_timer w)
    (chatHistories w) (lazyLoadedContainers w) (preloadedGroups w) (groupCursors w)
    (identity w) (trace w).

Definition set_processedMessages (f : gmap string Z → gmap string Z) (w : World) : World :=
  mkWorld (config w) (disk w) (clock w) (botOpenId w) (botAppId w) (botAppName w)
    (f (processedMessages w)) (activeTypingIndicators w) (timers w) (next_timer w)
    (chatHistories w) (lazyLoadedContainers w) (preloadedGroups w) (groupCursors w)
    (identity w) (trace w).

Definition set_activeTypingIndicators (f : gmap string TypingState → gmap string TypingState) (w : World) : World :=
  mkWorld (config w) (disk w) (clock w) (botOpenId w) (botAppId w) (botAppName w)
    (processedMessages w) (f (activeTypingIndicators w)) (timers w) (next_timer w)
    (chatHistories w) (lazyLoadedContainers w) (preloadedGroups w) (groupCursors w)
    (identity w) (trace w).

Definition set_timers (f : gmap nat Timer → gmap nat Timer) (w : World) : World :=
  mkWorld (config w) (disk w) (clock w) (botOpenId w) (botAppId w) (botAppName w)
    (processedMessages w) (activeTypingIndicators w) (f (timers w)) (next_timer w)
    (chatHistories w) (lazyLoadedContainers w) (preloadedGroups w) (groupCursors w)
    (identity w) (trace w).

Definition set_next_timer (x : nat) (w : World) : World :=
  mkWorld (config w) (disk w) (clock w) (botOpenId w) (botAppId w) (botAppName w)
    (processedMessages w) (activeTypingIndicators w) (timers w) x (chatHistories w)
    (lazyLoadedContainers w) (preloadedGroups w) (groupCursors w) (identity w) (trace w).

Definition set_chatHistories (f : gmap string (list Entry) → gmap string (list Entry)) (w : World) : World :=
  mkWorld (config w) (disk w) (clock w) (botOpenId w) (botAppId w) (botAppName w)
    (processedMessages w) (activeTypingIndicators w) (timers w) (next_timer w)
    (f (chatHistories w)) (lazyLoadedContainers w) (preloadedGroups w) (groupCursors w)
    (identity w) (trace w).

Definition set_lazyLoadedContainers (f : gset string → gset string) (w : World) : World :=
  mkWorld (config w) (disk w) (clock w) (botOpenId w) (botAppId w) (botAppName w)
    (processedMessages w) (activeTypingIndicators w) (timers w) (next_timer w)
    (chatHistories w) (f (lazyLoadedContainers w)) (preloadedGroups w) (groupCursors w)
    (identity w) (trace w).

Definition set_preloadedGroups (f : gset string → gset string) (w : World) : World :=
  mkWorld (config w) (disk w) (clock w) (botOpenId w) (botAppId w) (botAppName w)
    (processedMessages w) (activeTypingIndicators w) (timers w) (next_timer w)
    (chatHistories w) (lazyLoadedContainers w) (f (preloadedGroups w)) (groupCursors w)
    (identity w) (trace w).

Definition set_groupCursors (f : gmap string string → gmap string string) (w : World) : World :=
  mkWorld (config w) (disk w) (clock w) (botOpenId w) (botAppId w) (botAppName w)
    (processedMessages w) (activeTypingIndicators w) (timers w) (next_timer w)
    (chatHistories w) (lazyLoadedContainers w) (preloadedGroups w) (f (groupCursors w))
    (identity w) (trace w).

Definition set_identity (f : IdentityState → IdentityState) (w : World) : World :=
  mkWorld (config w) (disk w) (clock w) (botOpenId w) (botAppId w) (botAppName w)
    (processedMessages w) (activeTypingIndicators w) (timers w) (next_timer w)
    (chatHistories w) (lazyLoadedContainers w) (preloadedGroups w) (groupCursors w)
    (f (identity w)) (trace w).

(** Record an external call. *)
Definition emit (e : Effect) (w : World) : World :=
  mkWorld (config w) (disk w) (clock w) (botOpenId w) (botAppId w) (botAppName w)
    (processedMessages w) (activeTypingIndicators w) (timers w) (next_timer w)
    (chatHistories w) (lazyLoadedContainers w) (preloadedGroups w) (groupCursors w)
    (identity w) (trace w ++ [e]).

(** Number of external calls made so far: the index the environment
    answers the next call at. *)
Definition tick (w : World) : nat := List.length (trace w).

(** ** The monad of the service *)

Inductive Result (A : Type) :=
  | Ret (a : A) (w : World)
  | Thrown (w : World).
Arguments Ret {A} a w.
Arguments Thrown {A} w.

Definition M (A : Type) : Type := World → Result A.

Definition ret {A} (a : A) : M A := λ w, Ret a w.

Definition bind {A B} (m : M A) (k : A → M B) : M B :=
  λ w, match m w with
       | Ret a w' => k a w'
       | Thrown w' => Thrown w'
       end.

#[export] Instance M_ret : MRet M := @ret.
#[export] Instance M_bind : MBind M := λ A B k m, bind m k.

Definition get : M World := λ w, Ret w w.
Definition modify (f : World → World) : M unit := λ w, Ret tt (f w).
Definition throw {A} : M A := λ w, Thrown w.

(** [try { m } catch { h }] *)
Definition try_catch {A} (m : M A) (h : M A) : M A :=
  λ w, match m w with
       | Ret a w' => Ret a w'
       | Thrown w' => h w'
       end.

(** The final state of a run, whichever way it ended. *)
Definition final {A} (r : Result A) : World :=
  match r with Ret _ w => w | Thrown w => w end.

(** ** Message deduplication *)

Definition DEDUP_TTL : Z := 5 * 60 * 1000.

(** The loop [for (const [id, ts] of processedMessages)
    if (now - ts > DEDUP_TTL) processedMessages.delete(id)]. *)
Definition deleteExpired (now : Z) (pm : gmap string Z) : gmap string Z :=
  filter (λ kv, ¬ (now - kv.2 > DEDUP_TTL)) pm.

Definition isDuplicate (messageId : string) : M bool :=
  if negb (truthy messageId) then ret false
  else
    w ← get;
    if bool_decide (is_Some (processedMessages w !! messageId)) then ret true
    else
      modify (set_processedMessages (<[messageId := clock w]>));;
      w1 ← get;
      (if bool_decide (200 < size (processedMessages w1))%nat
       then modify (set_processedMessages (deleteExpired (clock w1)))
       else ret tt);;
      ret false.

(** The body of the interval callback [dedupCleanupInterval]. *)
Definition dedupCleanup : M unit :=
  w ← get;
  modify (set_processedMessages (deleteExpired (clock w))).

(** What may happen to the ledger between two checks of the event [e]:
    time passes, other events are checked, the periodic sweep runs. *)
Inductive dedup_step (e : string) : World → World → Prop :=
  | dedup_time w t :
      clock w ≤ t → dedup_step e w (set_clock t w)
  | dedup_check w id :
      id ≠ e → dedup_step e w (final (isDuplicate id w))
  | dedup_sweep w :
      dedup_step e w (final (dedupCleanup w)).

(** ** Group configuration lookups used by the history cache *)

Definition DEFAULT_HISTORY_LIMIT : Z := 5.

Definition resolveGroupConfig (cfg : Config) (chatId : string) : option GroupConfig :=
  groups cfg !! chatId.

(** [groupConfig?.historyLimit || config.message?.context_messages
    || DEFAULT_HISTORY_LIMIT] *)
Definition getGroupHistoryLimit (cfg : Config) (chatId : string) : Z :=
  orZ (from_option historyLimit 0 (resolveGroupConfig cfg chatId))
      (orZ (context_messages cfg) DEFAULT_HISTORY_LIMIT).

(** ** In-memory chat history *)

Definition getHistoryKey (chatId threadId : string) : string :=
  if truthy threadId then chatId +:+ ":" +:+ threadId else chatId.

(** [historyKey.includes(':') ? historyKey.split(':')[0] : historyKey]:
    the part before the first colon, the whole key when it has none. *)
Fixpoint baseChatId (historyKey : string) : string :=
  match historyKey with
  | EmptyString => EmptyString
  | String c rest =>
      if Ascii.eqb c ":"%char then EmptyString else String c (baseChatId rest)
  end.

Definition has_message_id (id : string) (m : Entry) : bool :=
  bool_decide (message_id m = id).

Definition recordHistoryEntry (cfg : Config) (historyKey : string) (entry : Entry)
    (histories : gmap string (list Entry)) : gmap string (list Entry) :=
  let histories1 :=
    match histories !! historyKey with
    | Some _ => histories
    | None => <[historyKey := []]> histories
    end in
  let history := default [] (histories1 !! historyKey) in
  if truthy (message_id entry) && existsb (has_message_id (message_id entry)) history
  then histories1
  else
    let pushed := history ++ [entry] in
    let limit := getGroupHistoryLimit cfg (baseChatId historyKey) in
    if bool_decide (limit * 2 < Z.of_nat (List.length pushed))
    then <[historyKey := slice (- limit) pushed]> histories1
    else <[historyKey := pushed]> histories1.

Definition getInMemoryContext (cfg : Config) (histories : gmap string (list Entry))
    (historyKey currentMessageId : string) : list Entry :=
  match histories !! historyKey with
  | None => []
  | Some [] => []
  | Some history =>
      let limit := getGroupHistoryLimit cfg (baseChatId historyKey) in
      let filtered :=
        List.filter (λ m, negb (has_message_id currentMessageId m)) history in
      let count := Z.min limit (Z.of_nat (List.length filtered)) in
      slice (- count) filtered
  end.

(** [result.splice(i, 1)] followed by [result.unshift(root)]. *)
Definition moveToFront {A} (i : nat) (l : list A) : list A :=
  match l !! i with
  | Some root => root :: delete i l
  | None => l
  end.

(** The context is an array at both call sites, so the [!context] half of
    the guard never fires and is not modelled. *)
Definition pinRootMessage (histories : gmap string (list Entry))
    (context : list Entry) (rootId historyKey : string) : list Entry :=
  if negb (truthy rootId) then context
  else
    match findIndex (has_message_id rootId) context with
    | Some 0%nat => context
    | Some (S i) => moveToFront (S i) context
    | None =>
        match histories !! historyKey with
        | Some fullHistory =>
            match List.find (has_message_id rootId) fullHistory with
            | Some rootEntry => rootEntry :: context
            | None => context
            end
        | None => context
        end
    end.

(** ** Mentions *)

Record Mention := mkMention {
  key : string;
  m_name : string;
  m_open_id : option string;
  m_user_id : option string;
  m_app_id : option string
}.

(** [s.replace(pat, rep)] with a string pattern: the first occurrence. *)
Fixpoint replaceFirst (pat rep s : string) : string :=
  if String.prefix pat s
  then rep +:+ String.substring (String.length pat)
                 (String.length s - String.length pat)%nat s
  else match s with
       | EmptyString => EmptyString
       | String c s' => String c (replaceFirst pat rep s')
       end.

Definition is_space (c : ascii) : bool :=
  Ascii.eqb c " "%char || Ascii.eqb c "009"%char
  || Ascii.eqb c "010"%char || Ascii.eqb c "013"%char.

Fixpoint trimStart (s : string) : string :=
  match s with
  | String c s' => if is_space c then trimStart s' else s
  | EmptyString => EmptyString
  end.

Definition trim (s : string) : string :=
  String.rev (trimStart (String.rev (trimStart s))).

(** [resolveMentions(text, mentions)] as every caller invokes it, that
    is without [stripBot]. *)
Definition resolveMentions (txt : string) (mentions : list Mention) : string :=
  if negb (truthy txt) then txt
  else match mentions with
       | [] => txt
       | _ =>
           trim (foldl (λ resolved m,
                         if negb (truthy (key m)) then resolved
                         else if truthy (m_name m)
                              then replaceFirst (key m) ("@" +:+ m_name m) resolved
                              else resolved)
                       txt mentions)
       end.

(** ** Lazy backfill of a history buffer *)

(** [new Date(t)] for a number of milliseconds [t] is a date only inside
    the range of ±8.64e15 ms; outside, its numeric value is [NaN]. *)
Definition MAX_DATE : Z := 8640000000000000.

Definition isDate (t : Z) : bool := bool_decide (- MAX_DATE ≤ t ≤ MAX_DATE).

Definition dateValue (t : Z) : option Z := if isDate t then Some t else None.

(** The comparator [(a, b) => new Date(a.createTime) - new Date(b.createTime)]
    as [Array.prototype.sort] reads it: a result that is [NaN] counts
    as [0]. *)
Definition compareCreateTime (a b : RemoteMessage) : Z :=
  match dateValue (r_createTime a), dateValue (r_createTime b) with
  | Some x, Some y => x - y
  | _, _ => 0
  end.

(** [arr.sort(compare)] for a comparator that is a consistent ordering of
    the elements: the stable sort, which the language fixes. *)
Fixpoint insertSorted {A} (compare : A → A → Z) (x : A) (l : list A) : list A :=
  match l with
  | [] => [x]
  | y :: l' =>
      if bool_decide (compare x y ≤ 0) then x :: y :: l'
      else y :: insertSorted compare x l'
  end.

Definition stableSort {A} (compare : A → A → Z) (l : list A) : list A :=
  foldr (insertSorted compare) [] l.

(** The comparator is a consistent ordering of the messages when every
    creation time is a date, and otherwise only when it says [0] for
    every pair (a time that is no date compares as equal to every
    other). *)
Definition consistentTimes (l : list RemoteMessage) : bool :=
  forallb (λ m, isDate (r_createTime m)) l
  || forallb (λ a, forallb (λ b, bool_decide (compareCreateTime a b = 0)) l) l.

(** [arr.sort(compare)] for a comparator that is not an ordering of the
    elements: the language leaves the order to the engine.  [places] is
    the place the engine gives to each position of the array; whatever it
    says, the result holds the elements of the array. *)
Definition engineSort {A} (places : list Z) (l : list A) : list A :=
  snd <$> stableSort (λ a b, a.1 - b.1) (imap (λ i x, (default 0 (places !! i), x)) l).

(** [messages.sort((a, b) => new Date(a.createTime) - new Date(b.createTime))];
    [engine] is the order of the JavaScript engine ([engineOrder] of the
    environment), consulted when dates and non-dates are mixed. *)
Definition sortByCreateTime (engine : list Z → list Z) (l : list RemoteMessage)
    : list RemoteMessage :=
  if consistentTimes l then stableSort compareCreateTime l
  else engineSort (engine (r_createTime <$> l)) l.

Definition is_fetch (e : Effect) : bool :=
  match e with EListMessages _ _ _ _ => true | _ => false end.

Definition is_attempt (e : Effect) : bool :=
  match e with EExecFile _ _ _ _ => true | _ => false end.

Definition is_delivery (e : Effect) : bool :=
  match e with EExecFile _ _ _ ExecOk => true | _ => false end.

(** Delivery attempts and successful deliveries among the calls of a trace. *)
Definition attempts (tr : list Effect) : nat := List.length (List.filter is_attempt tr).
Definition deliveries (tr : list Effect) : nat := List.length (List.filter is_delivery tr).

(** Remote history fetches among the calls of a trace. *)
Definition fetches (tr : list Effect) : nat := List.length (List.filter is_fetch tr).

(** [historyLimit || (containerType === 'thread'
      ? (config.message?.context_messages || DEFAULT_HISTORY_LIMIT)
      : getGroupHistoryLimit(containerId))] *)
Definition fallbackLimit (cfg : Config) (containerId containerType : string)
    (historyLimit : Z) : Z :=
  orZ historyLimit
      (if bool_decide (containerType = "thread")
       then orZ (context_messages cfg) DEFAULT_HISTORY_LIMIT
       else getGroupHistoryLimit cfg containerId).

(** ** Access policy *)

(** Both identifiers present and [String(a) === String(b)]. *)
Definition sameId (a b : option string) : bool :=
  match a, b with
  | Some x, Some y => bool_decide (x = y)
  | _, _ => false
  end.

Definition isOwner (cfg : Config) (userId openId : option string) : bool :=
  match owner cfg with
  | None => false
  | Some o =>
      if negb (bound o) then false
      else sameId (user_id o) userId || sameId (open_id o) openId
  end.

(** [arr.includes(x)] on strings. *)
Definition includes (x : string) (l : list string) : bool := bool_decide (x ∈ l).

(** [legacy.some(g => String(g.chat_id) === chatId)] *)
Definition inLegacy (chatId : string) (legacy : list LegacyGroup) : bool :=
  existsb (λ g, bool_decide (lg_chat_id g = chatId)) legacy.

(** [legacy.find(g => String(g.chat_id) === String(chatId))?.name] *)
Definition legacyName (chatId : string) (legacy : list LegacyGroup) : string :=
  match List.find (λ g, bool_decide (lg_chat_id g = chatId)) legacy with
  | Some g => lg_name g
  | None => ""
  end.

Definition isDmAllowed (cfg : Config) (userId openId : option string) : bool :=
  if isOwner cfg userId openId then true
  else
    let policy := orS (dmPolicy cfg) "owner" in
    if bool_decide (policy = "open") then true
    else if bool_decide (policy = "owner") then false
    else
      let allowFrom := dmAllowFrom cfg in
      let normalizedUserId := default "" userId in
      let normalizedOpenId := default "" openId in
      (truthy normalizedUserId && includes normalizedUserId allowFrom)
      || (truthy normalizedOpenId && includes normalizedOpenId allowFrom).

Definition isGroupAllowed (cfg : Config) (chatId : string) : bool :=
  let groupPolicy := orS (groupPolicy cfg) "allowlist" in
  if bool_decide (groupPolicy = "disabled") then false
  else if bool_decide (groupPolicy = "open") then true
  else
    match resolveGroupConfig cfg chatId with
    | Some _ => true
    | None =>
        let legacyAllowed := inLegacy chatId (allowed_groups cfg) in
        let legacySmart := inLegacy chatId (smart_groups cfg) in
        legacyAllowed || legacySmart
    end.

Definition isSmartGroup (cfg : Config) (chatId : string) : bool :=
  if bool_decide (orS (groupPolicy cfg) "allowlist" = "disabled") then false
  else
    match resolveGroupConfig cfg chatId with
    | Some groupConfig =>
        bool_decide (mode groupConfig = "smart")
        || bool_decide (requireMention groupConfig = Some false)
    | None => inLegacy chatId (smart_groups cfg)
    end.

(** [toLowerCase] on the ASCII letters. *)
Definition lowerAscii (c : ascii) : ascii :=
  let n := nat_of_ascii c in
  if bool_decide (65 ≤ n ≤ 90)%nat then ascii_of_nat (n + 32) else c.

Fixpoint toLowerCase (s : string) : string :=
  match s with
  | EmptyString => EmptyString
  | String c s' => String (lowerAscii c) (toLowerCase s')
  end.

Definition isSenderAllowedInGroup (cfg : Config) (chatId : string)
    (senderUserId senderOpenId : option string) : bool :=
  match resolveGroupConfig cfg chatId with
  | None => true
  | Some groupConfig =>
      match allowFrom groupConfig with
      | [] => true
      | _ =>
          let allowed := toLowerCase <$> allowFrom groupConfig in
          let normalizedSenderUserId := toLowerCase (default "" senderUserId) in
          let normalizedSenderOpenId := toLowerCase (default "" senderOpenId) in
          if includes "*" allowed then true
          else if truthy normalizedSenderUserId && includes normalizedSenderUserId allowed
               then true
          else if truthy normalizedSenderOpenId && includes normalizedSenderOpenId allowed
               then true
          else false
      end
  end.

Definition getGroupName (cfg : Config) (chatId : string) : string :=
  let configured := from_option g_name "" (resolveGroupConfig cfg chatId) in
  if truthy configured then configured
  else if truthy (legacyName chatId (allowed_groups cfg))
       then legacyName chatId (allowed_groups cfg)
  else if truthy (legacyName chatId (smart_groups cfg))
       then legacyName chatId (smart_groups cfg)
  else orS chatId "unknown".

Definition isBotMentioned (mentions : list Mention) (botId : string) : bool :=
  existsb (λ m,
             let mentionId := orO (m_open_id m) (orO (m_user_id m) (orO (m_app_id m) "")) in
             (truthy botId && bool_decide (mentionId = botId))
             || bool_decide (key m = "@_all"))
          mentions.

(** The decision taken by the group branch of [handleMessage] before
    anything is logged or forwarded. *)
Inductive GroupGate :=
  | GateDisabled
  | GateGroupDenied
  | GateSenderDenied
  | GateLogOnly
  | GateForward.

Definition groupGate (cfg : Config) (botId chatId : string)
    (senderUserId senderOpenId : option string) (mentions : list Mention) : GroupGate :=
  let mentioned := isBotMentioned mentions botId in
  let senderIsOwner := isOwner cfg senderUserId senderOpenId in
  if bool_decide (orS (groupPolicy cfg) "allowlist" = "disabled") then GateDisabled
  else
    let allowedGroup := isGroupAllowed cfg chatId in
    let smart := isSmartGroup cfg chatId in
    if negb allowedGroup && negb (senderIsOwner && mentioned) then GateGroupDenied
    else if negb (isSenderAllowedInGroup cfg chatId senderUserId senderOpenId)
            && negb senderIsOwner
         then GateSenderDenied
    else if negb smart && negb mentioned then GateLogOnly
    else GateForward.

(** An event is denied when the gate stops it with a refusal. *)
Definition denied (g : GroupGate) : bool :=
  match g with
  | GateDisabled | GateGroupDenied | GateSenderDenied => true
  | GateLogOnly | GateForward => false
  end.

(** ** Inbound events *)

(** An element of a rich-text paragraph, after JSON parsing; a missing
    field is the empty string. *)
Record PostElement := mkElement {
  tag : string;
  el_text : string;
  el_user_name : string;
  el_user_id : string;
  href : string;
  image_key : string;
  file_key : string;
  emoji_type : string
}.

(** [JSON.parse(message.content || '{}')]; [c_content] is [content.content]. *)
Record Content := mkContent {
  c_text : string;
  c_title : string;
  c_content : option (list (list PostElement));
  c_image_key : string;
  c_file_key : string;
  c_file_name : string
}.

Record Message := mkMessage {
  msg_mentions : list Mention;
  msg_chat_id : string;
  msg_message_id : string;
  msg_chat_type : string;
  msg_root_id : string;
  msg_parent_id : string;
  msg_thread_id : string;
  msg_message_type : string;
  msg_content : Content
}.

(** [sender.sender_id] *)
Record Sender := mkSender {
  s_open_id : option string;
  s_app_id : option string;
  s_user_id : option string
}.

Record Data := mkData {
  message : Message;
  sender : Sender;
  _timestamp : Z
}.

Definition nl : string := String "010"%char EmptyString.

(** The text contributed by one element and the image key it carries. *)
Definition renderElement (messageId : string) (el : PostElement) : string * list string :=
  if bool_decide (tag el = "text") then (el_text el, [])
  else if bool_decide (tag el = "at")
       then ("@" +:+ orS (el_user_name el) (orS (el_user_id el) "unknown"), [])
  else if bool_decide (tag el = "a")
       then (if truthy (href el) then el_text el +:+ "(" +:+ href el +:+ ")" else el_text el, [])
  else if bool_decide (tag el = "img")
       then (if truthy (image_key el)
             then ("[image, image_key: " +:+ image_key el +:+ ", msg_id: " +:+ messageId +:+ "]",
                   [image_key el])
             else ("", []))
  else if bool_decide (tag el = "media")
       then ("[media, file_key: " +:+ orS (file_key el) "unknown" +:+ ", msg_id: "
             +:+ messageId +:+ "]", [])
  else if bool_decide (tag el = "emotion")
       then (if truthy (emoji_type el) then "[" +:+ emoji_type el +:+ "]" else "", [])
  else (el_text el, []).

Definition extractPostText (paragraphs : list (list PostElement)) (messageId : string)
    : string * list string :=
  let rendered := (λ paragraph, renderElement messageId <$> paragraph) <$> paragraphs in
  (String.concat nl ((λ parts, String.concat "" (fst <$> parts)) <$> rendered),
   mjoin ((λ parts, mjoin (snd <$> parts)) <$> rendered)).

(** The result [{ text, imageKeys, fileKey, fileName }]. *)
Record Extracted := mkExtracted {
  x_text : string;
  imageKeys : list string;
  fileKey : string;
  fileName : string
}.

Definition extractMessageContent (message : Message) : Extracted :=
  let msgType := msg_message_type message in
  let content := msg_content message in
  if bool_decide (msgType = "text") then mkExtracted (c_text content) [] "" ""
  else if bool_decide (msgType = "post") then
    match c_content content with
    | Some paragraphs =>
        let '(txt, keys) := extractPostText paragraphs (msg_message_id message) in
        let fullText :=
          if truthy (c_title content) then "[" +:+ c_title content +:+ "] " +:+ txt else txt in
        mkExtracted fullText keys "" ""
    | None => mkExtracted "" [] "" ""
    end
  else if bool_decide (msgType = "image")
       then mkExtracted "" (if truthy (c_image_key content) then [c_image_key content] else [])
                        "" ""
  else if bool_decide (msgType = "file")
       then mkExtracted "" [] (c_file_key content) (orS (c_file_name content) "unknown")
  else mkExtracted ("[" +:+ msgType +:+ " message]") [] "" "".

(** The log text: the text followed by one line per image and file. *)
Definition buildLogText (x : Extracted) (messageId : string) : string :=
  let withImages :=
    foldl (λ logText imgKey,
             let imageInfo :=
               "[image, image_key: " +:+ imgKey +:+ ", msg_id: " +:+ messageId +:+ "]" in
             if truthy logText then logText +:+ nl +:+ imageInfo else imageInfo)
          (x_text x) (imageKeys x) in
  if truthy (fileKey x)
  then let fileInfo :=
         "[file: " +:+ fileName x +:+ ", file_key: " +:+ fileKey x +:+ ", msg_id: "
         +:+ messageId +:+ "]" in
       if truthy withImages then withImages +:+ nl +:+ fileInfo else fileInfo
  else withImages.

Definition buildEndpoint (chatId chatType rootId parentId messageId threadId : string)
    : string :=
  chatId
  +:+ (if truthy chatType then "|type:" +:+ chatType else "")
  +:+ (if truthy rootId then "|root:" +:+ rootId else "")
  +:+ (if truthy parentId then "|parent:" +:+ parentId else "")
  +:+ (if truthy messageId then "|msg:" +:+ messageId else "")
  +:+ (if truthy threadId then "|thread:" +:+ threadId else "").

(** ** Formatting for the agent *)

Definition escapeChar (c : ascii) : string :=
  if Ascii.eqb c "&"%char then "&amp;"
  else if Ascii.eqb c "<"%char then "&lt;"
  else if Ascii.eqb c ">"%char then "&gt;"
  else if Ascii.eqb c "'"%char then "&apos;"
  else if Ascii.eqb c "034"%char then "&quot;"
  else String c EmptyString.

Fixpoint escapeXml (value : string) : string :=
  match value with
  | EmptyString => EmptyString
  | String c rest => escapeChar c +:+ escapeXml rest
  end.

Record FormatOptions := mkOptions {
  quotedContent : option (string * string);
  threadContext : option (list Entry);
  threadRootId : string;
  groupName : string;
  smartHint : bool
}.

Definition contextLine (m : Entry) : string :=
  "[" +:+ escapeXml (orS (user_name m) (default "" (e_user_id m))) +:+ "]: "
  +:+ escapeXml (text m).

Definition SMART_HINT : string :=
  "<smart-mode>" +:+ nl
  +:+ "Decide whether to respond. Do NOT reply if: the message is unrelated to you," +:+ nl
  +:+ "just casual chat, or doesn't need your input. Only reply when:" +:+ nl
  +:+ "1) someone asks a question you can help with," +:+ nl
  +:+ "2) discussing technical topics you know well," +:+ nl
  +:+ "3) someone clearly needs assistance." +:+ nl
  +:+ "When uncertain, prefer NOT to reply. Reply with exactly [SKIP] to stay silent." +:+ nl
  +:+ "</smart-mode>" +:+ nl +:+ nl.

Definition formatMessage (chatType userName txt : string) (contextMessages : list Entry)
    (mediaPath : string) (opts : FormatOptions) : string :=
  let prefix :=
    if bool_decide (chatType = "p2p") then "[Feishu DM]"
    else "[Feishu GROUP:" +:+ escapeXml (orS (groupName opts) "unknown") +:+ "]" in
  let head := prefix +:+ " " +:+ escapeXml userName +:+ " said: " in
  let context :=
    match threadContext opts with
    | Some (m :: rest) =>
        let lines :=
          (λ m, if truthy (threadRootId opts)
                     && bool_decide (message_id m = threadRootId opts)
                then "<thread-root>" +:+ nl +:+ contextLine m +:+ nl +:+ "</thread-root>"
                else contextLine m) <$> (m :: rest) in
        "<thread-context>" +:+ nl +:+ String.concat nl lines +:+ nl
        +:+ "</thread-context>" +:+ nl +:+ nl
    | _ =>
        match contextMessages with
        | [] => ""
        | _ => "<group-context>" +:+ nl
               +:+ String.concat nl (contextLine <$> contextMessages) +:+ nl
               +:+ "</group-context>" +:+ nl +:+ nl
        end
    end in
  let replying :=
    match quotedContent opts, threadContext opts with
    | Some (quotedSender, quotedText), None =>
        "<replying-to>" +:+ nl +:+ "[" +:+ escapeXml (orS quotedSender "unknown") +:+ "]: "
        +:+ escapeXml quotedText +:+ nl +:+ "</replying-to>" +:+ nl +:+ nl
    | _, _ => ""
    end in
  let hint := if smartHint opts then SMART_HINT else "" in
  let current :=
    "<current-message>" +:+ nl +:+ escapeXml txt +:+ nl +:+ "</current-message>" in
  let message := head +:+ context +:+ replying +:+ hint +:+ current in
  if truthy mediaPath then message +:+ " ---- file: " +:+ escapeXml mediaPath else message.

(** Where a downloaded image or file is stored; the time stamp in the
    name and the sanitising of the key are left out. *)
Definition imagePath (group : bool) (imgKey : string) : string :=
  "media/feishu-" +:+ (if group then "group-" else "") +:+ imgKey +:+ ".png".

Definition filePath (group : bool) (name : string) : string :=
  "media/feishu-" +:+ (if group then "group-" else "") +:+ name.

(** How the handling of one event ended: which [return] was taken. *)
Inductive Outcome :=
  | SelfMessage
  | Duplicate
  | OwnerBindingFailed
  | DmRejected
  | GroupDisabled
  | GroupNotAllowed
  | SenderNotAllowed
  | LoggedOnly
  | MediaFailed
  | Forwarded
  | Ignored.

(** ** Permission errors (cooldown to avoid spam) *)

Definition PERMISSION_ERROR_COOLDOWN : Z := 5 * 60 * 1000.

(** [handlePermissionError(permErr)] as a transformer of
    [lastPermissionErrorNotified] at the time [now]; the second result is
    the alert sent to the owner, recipient and text, if one is sent. *)
Definition handlePermissionError (cfg : Config) (now : Z) (permErr : PermissionError)
    (lastPermissionErrorNotified : Z) : Z * option (string * string) :=
  if bool_decide (now - lastPermissionErrorNotified < PERMISSION_ERROR_COOLDOWN)
  then (lastPermissionErrorNotified, None)
  else
    (now,
     match owner cfg with
     | Some o =>
         if bound o && truthyO (open_id o)
         then Some (default "" (open_id o),
                    "[Feishu SYSTEM] Permission error detected: " +:+ pe_message permErr
                    +:+ (if truthy (grantUrl permErr)
                         then nl +:+ "Admin grant URL: " +:+ grantUrl permErr
                         else ""))
         else None
     | None => None
     end).

(** The times at which the owner is alerted when the permission errors
    [errors], each with the time it is detected at, are handled in turn. *)
Fixpoint alertTimes (cfg : Config) (errors : list (Z * PermissionError)) (last : Z)
    : list Z :=
  match errors with
  | [] => []
  | (now, permErr) :: rest =>
      let '(last', sent) := handlePermissionError cfg now permErr last in
      match sent with
      | Some _ => [now] ++ alertTimes cfg rest last'
      | None => alertTimes cfg rest last'
      end
  end.

(** ** User name cache with TTL *)

Definition SENDER_NAME_TTL : Z := 10 * 60 * 1000.

(** A resolution: the name, the state left behind, whether the contact
    API was called, and the alert sent to the owner, if any. *)
Record Resolved := mkResolved {
  resolved_name : string;
  resolved_state : IdentityState;
  looked_up : bool;
  alert : option (string * string)
}.

Module Identity.

(** [resolveUserName(userId)] with its cache; [answer] is what
    [getUserInfo] returns if it is called. *)
Definition resolveUserName (cfg : Config) (botOpenId botAppId botAppName : string)
    (now : Z) (answer : UserInfoResult) (userId : option string) (st : IdentityState)
    : Resolved :=
  if negb (truthyO userId) then mkResolved "unknown" st false None
  else
    let uid := default "" userId in
    if truthy botOpenId && bool_decide (uid = botOpenId)
    then mkResolved (orS botAppName "bot") st false None
    else if truthy botAppId && bool_decide (uid = botAppId)
    then mkResolved (orS botAppName "bot") st false None
    else
      let cached := userCacheMemory st !! uid in
      let lookup :=
        match answer with
        | UserInfo success userName code message =>
            if success && truthy userName
            then mkResolved userName
                   (mkIdentity
                      (<[uid := mkCacheEntry userName (now + SENDER_NAME_TTL)]>
                         (userCacheMemory st))
                      true (lastPermissionErrorNotified st))
                   true None
            else if negb success && bool_decide (code = 99991672)
            then let '(last, sent) :=
                   handlePermissionError cfg now (mkPermissionError code message "")
                     (lastPermissionErrorNotified st) in
                 mkResolved uid
                   (mkIdentity (userCacheMemory st) (_userCacheDirty st) last) true sent
            else mkResolved uid st true None
        | UserInfoThrows permErr =>
            let '(last, sent) :=
              match permErr with
              | Some e => handlePermissionError cfg now e (lastPermissionErrorNotified st)
              | None => (lastPermissionErrorNotified st, None)
              end in
            mkResolved (from_option cached_name uid cached)
              (mkIdentity (userCacheMemory st) (_userCacheDirty st) last) true sent
        end in
      match cached with
      | Some entry =>
          if bool_decide (now < expireAt entry)
          then mkResolved (cached_name entry) st false None
          else lookup
      | None => lookup
      end.

End Identity.

(** The body of the loop of [preloadGroupMembers] over the members of a
    chat: a member with an id and a name that the cache does not hold is
    added with a fresh TTL. *)
Definition cacheMember (now : Z) (st : IdentityState) (member : Member) : IdentityState :=
  if truthy (memberId member) && truthy (member_name member)
     && negb (bool_decide (is_Some (userCacheMemory st !! memberId member)))
  then mkIdentity
         (<[memberId member := mkCacheEntry (member_name member) (now + SENDER_NAME_TTL)]>
            (userCacheMemory st))
         true (lastPermissionErrorNotified st)
  else st.

(** [loadUserCacheFromFile()]: [file] is the parsed snapshot, [None] when
    the file is missing or unreadable; every name gets a fresh TTL. *)
Definition loadUserCacheFromFile (now : Z) (file : option (gmap string string))
    (cache : gmap string CacheEntry) : gmap string CacheEntry :=
  match file with
  | Some data => ((λ n, mkCacheEntry n (now + SENDER_NAME_TTL)) <$> data) ∪ cache
  | None => cache
  end.

(** [persistUserCache()]: [written] tells whether writing the snapshot
    succeeds. *)
Definition persistUserCache (written : bool) (st : IdentityState)
    (file : option (gmap string string))
    : IdentityState * option (gmap string string) :=
  if negb (_userCacheDirty st) then (st, file)
  else if written
       then (mkIdentity (userCacheMemory st) false (lastPermissionErrorNotified st),
             Some (cached_name <$> userCacheMemory st))
       else (mkIdentity (userCacheMemory st) true (lastPermissionErrorNotified st), file).

(** ** Timers *)

(** [setTimeout(action, ms)]: the handle is a fresh number. *)
Definition setTimeout (a : TimerAction) (ms : Z) : M nat :=
  w ← get;
  let id := next_timer w in
  modify (λ w, set_next_timer (S id)
                 (set_timers (<[id := mkTimer (clock w + ms) a]>) w));;
  ret id.

Definition clearTimeout (id : nat) : M unit := modify (set_timers (delete id)).

Section Service.

Variable env : Env.

(** ** Sender names *)

(** [sendMessage(chatId, text)]; its result is never inspected. *)
Definition sendMessage (chatId txt : string) : M unit :=
  modify (emit (ESendMessage chatId txt)).

(** [resolveUserName(userId)]: the resolver of [Identity] run on the
    state of the process.  The contact lookup, when it is made, is an
    external call; the alert of [handlePermissionError], when there is
    one, is sent to the owner with [sendMessage]. *)
Definition resolveUserName (userId : option string) : M string :=
  w ← get;
  let uid := default "" userId in
  let answer := getUserInfo env (tick w) uid in
  let r := Identity.resolveUserName (config w) (botOpenId w) (botAppId w) (botAppName w)
             (clock w) answer userId (identity w) in
  (if looked_up r then modify (emit (EGetUserInfo uid answer)) else ret tt);;
  modify (set_identity (λ _, resolved_state r));;
  (match alert r with
   | Some (recipient, txt) => sendMessage recipient txt
   | None => ret tt
   end);;
  ret (resolved_name r).

(** ** Typing indicator (emoji reaction on the message being processed) *)

Definition TYPING_TIMEOUT : Z := 120 * 1000.

(** [await addReaction(messageId, TYPING_EMOJI)], recorded in the trace. *)
Definition callAddReaction (messageId : string) : M AddReactionResult :=
  w ← get;
  let r := addReaction env (tick w) messageId in
  modify (emit (EAddReaction messageId r));;
  ret r.

(** [await removeReaction(messageId, reactionId)], recorded in the trace. *)
Definition callRemoveReaction (messageId rid : string) : M RemoveReactionResult :=
  w ← get;
  let r := removeReaction env (tick w) messageId rid in
  modify (emit (ERemoveReaction messageId rid r));;
  ret r.

Definition addTypingIndicator (messageId : string) : M bool :=
  r ← callAddReaction messageId;
  match r with
  | AddResult true rid =>
      if truthy rid then
        t ← setTimeout (ExpireTyping messageId) TYPING_TIMEOUT;
        modify (set_activeTypingIndicators (<[messageId := mkTyping rid t]>));;
        ret true
      else ret false
  | AddResult false _ => ret false
  | AddThrows => ret false
  end.

Definition removeTypingIndicator (messageId : string) : M unit :=
  w ← get;
  match activeTypingIndicators w !! messageId with
  | None => ret tt
  | Some state =>
      clearTimeout (timer state);;
      r ← callRemoveReaction messageId (reactionId state);
      removed ← match r with
                | RemoveResult true => ret true
                | RemoveResult false =>
                    modify (emit (ESleep 1000));;
                    retry ← callRemoveReaction messageId (reactionId state);
                    ret (match retry with
                         | RemoveResult b => b
                         | RemoveThrows => false
                         end)
                | RemoveThrows => ret false
                end;
      if removed : bool then
        modify (set_activeTypingIndicators (delete messageId))
      else
        t ← setTimeout (DeferredRemove messageId (reactionId state)) 10000;
        modify (set_activeTypingIndicators
                  (alter (λ st, mkTyping (reactionId st) t) messageId))
  end.

(** A pending timer fires: the typing expiry calls
    [removeTypingIndicator]; the deferred retry calls [removeReaction]
    once more and forgets the indicator whatever the answer. *)
Definition fireTimer (id : nat) : M unit :=
  w ← get;
  match timers w !! id with
  | None => ret tt
  | Some t =>
      clearTimeout id;;
      match action t with
      | ExpireTyping m => removeTypingIndicator m
      | DeferredRemove m rid =>
          callRemoveReaction m rid;;
          modify (set_activeTypingIndicators (delete m))
      end
  end.

(** The body of the loop of [checkTypingDoneMarkers] for one marker file
    [<messageId>.done]; the marker files themselves are not modelled. *)
Definition checkTypingDoneMarker (messageId : string) : M unit :=
  w ← get;
  if bool_decide (is_Some (activeTypingIndicators w !! messageId))
  then removeTypingIndicator messageId
  else ret tt.

(** ** Context with lazy backfill *)

(** [await listMessages(containerId, limit, 'desc', null, null, containerType)] *)
Definition callListMessages (containerId : string) (limit : Z) (containerType : string)
    : M ListMessagesResult :=
  w ← get;
  let r := listMessages env (tick w) containerId limit containerType in
  modify (emit (EListMessages containerId limit containerType r));;
  ret r.

(** The entry recorded for a remote message; [r_text] is its content
    after post flattening and mention resolution. *)
Definition remoteEntry (userName : string) (msg : RemoteMessage) : Entry :=
  mkEntry (r_createTime msg) (r_id msg) (r_sender msg) None userName (r_text msg).

(** The loop [for (const msg of msgs)]: the sender is resolved, then the
    entry is recorded. *)
Fixpoint recordAll (historyKey : string) (msgs : list RemoteMessage) : M unit :=
  match msgs with
  | [] => ret tt
  | msg :: rest =>
      userName ← resolveUserName (r_sender msg);
      modify (λ w, set_chatHistories
                     (recordHistoryEntry (config w) historyKey (remoteEntry userName msg))
                     w);;
      recordAll historyKey rest
  end.

Definition readInMemory (historyKey currentMessageId : string) : M (list Entry) :=
  w ← get;
  ret (getInMemoryContext (config w) (chatHistories w) historyKey currentMessageId).

Definition getContextWithFallback (containerId currentMessageId containerType
    historyKey : string) (historyLimit : Z) : M (list Entry) :=
  w ← get;
  if bool_decide (historyKey ∈ lazyLoadedContainers w)
  then readInMemory historyKey currentMessageId
  else
    let limit := fallbackLimit (config w) containerId containerType historyLimit in
    r ← callListMessages containerId limit containerType;
    match r with
    | ListResult true msgs =>
        modify (set_lazyLoadedContainers (union {[historyKey]}));;
        recordAll historyKey (sortByCreateTime (engineOrder env) msgs);;
        readInMemory historyKey currentMessageId
    | ListResult false _ => readInMemory historyKey currentMessageId
    | ListThrows => readInMemory historyKey currentMessageId
    end.

(** [getGroupContext(chatId, currentMessageId)]: the defaults
    [historyKey = containerId] and [historyLimit = null]. *)
Definition getGroupContext (chatId currentMessageId : string) : M (list Entry) :=
  getContextWithFallback chatId currentMessageId "chat" chatId 0.

(** ** Audit log and live history *)

Definition logMessage (chatType chatId : string) (userId openId : option string)
    (txt messageId : string) (ts : Z) (mentions : list Mention) (threadId : string)
    : M unit :=
  userName ← resolveUserName userId;
  w ← get;
  let logEntry :=
    mkEntry (orZ ts (clock w)) messageId userId openId
            userName (resolveMentions txt mentions) in
  let logId := if bool_decide (chatType = "p2p") then String_ userId else chatId in
  modify (emit (EAppendLog logId threadId logEntry));;
  if truthy threadId
  then modify (λ w, set_chatHistories
                      (recordHistoryEntry (config w) (getHistoryKey chatId threadId) logEntry) w)
  else if bool_decide (chatType = "group")
       then modify (λ w, set_chatHistories
                           (recordHistoryEntry (config w) chatId logEntry) w)
       else ret tt.

(** Two consecutive context reads for one key. *)
Definition readTwice (containerId cur1 cur2 containerType historyKey : string)
    (historyLimit : Z) : M (list Entry) :=
  getContextWithFallback containerId cur1 containerType historyKey historyLimit
  ≫= λ _, getContextWithFallback containerId cur2 containerType historyKey historyLimit.

(** ** Dispatch to the agent bridge *)

(** [response && response.ok === false && response.error?.message]: the
    reason of a structured rejection, if the output is one. *)
Definition rejection (out : option C4Response) : option string :=
  match out with
  | Some response =>
      if bool_decide (ok response = Some false) && truthy (error_message response)
      then Some (error_message response)
      else None
  | None => None
  end.

(** [execFile('node', args, ..., callback)]: one delivery attempt. *)
Definition callExecFile (source endpoint content : string) : M ExecResult :=
  w ← get;
  let r := execFile env (tick w) endpoint content in
  modify (emit (EExecFile source endpoint content r));;
  ret r.

(** [if (onReject) onReject(message)] *)
Definition invoke (onReject : option (string → M unit)) (message : string) : M unit :=
  match onReject with
  | Some callback => callback message
  | None => ret tt
  end.

Definition sendToC4 (source endpoint content : string)
    (onReject : option (string → M unit)) : M unit :=
  if negb (truthy content) then ret tt
  else
    r ← callExecFile source endpoint content;
    match r with
    | ExecOk => ret tt
    | ExecError out =>
        match rejection out with
        | Some message => invoke onReject message
        | None =>
            modify (emit (ESleep 2000));;
            retry ← callExecFile source endpoint content;
            match retry with
            | ExecOk => ret tt
            | ExecError retryOut =>
                match rejection retryOut with
                | Some message => invoke onReject message
                | None => ret tt
                end
            end
        end
    end.

(** ** Configuration persistence and owner binding *)

(** [fs.writeFileSync(CONFIG_PATH, JSON.stringify(newConfig, null, 2))] *)
Definition writeConfigFile (newConfig : Config) : M unit :=
  w ← get;
  let written := writeFileSync_ok env (tick w) in
  modify (emit (EWriteConfig written));;
  if written then modify (set_disk (Some newConfig)) else throw.

(** [saveConfig(newConfig)] of [lib/config.js]: it writes the file and
    replaces the module's configuration; when the write fails the error is
    logged and thrown again.  The function has no [return] statement, so a
    call that comes back yields [undefined]. *)
Definition saveConfig (newConfig : Config) : M JsValue :=
  try_catch
    (writeConfigFile newConfig;;
     modify (set_config (λ _, newConfig)))
    throw;;
  ret JsUndefined.

(** [bindOwner(userId, openId)]: the result is the owner's name, or
    [None] for [null]. *)
Definition bindOwner (userId openId : option string) : M (option string) :=
  userName ← resolveUserName userId;
  w ← get;
  let previousOwner := owner (config w) in
  modify (set_config (set_owner (Some (mkOwner true userId openId userName))));;
  w1 ← get;
  saved ← saveConfig (config w1);
  if negb (truthyV saved)
  then modify (set_config (set_owner previousOwner));;
       ret None
  else ret (Some userName).

(** ** Replies, quoted messages, downloads, group bookkeeping *)

(** [replyToMessage(messageId, text)]; a rejected promise counts as a
    reply that did not succeed. *)
Definition replyToMessage (messageId txt : string) : M bool :=
  w ← get;
  let success := replyToMessage_ok env (tick w) messageId in
  modify (emit (EReplyToMessage messageId txt success));;
  ret success.

Definition sendThreadAwareMessage (chatId txt threadId rootId parentId messageId : string)
    : M unit :=
  let replyTarget := orS parentId (orS rootId messageId) in
  replied ← (if (truthy threadId || truthy rootId) && truthy replyTarget
             then replyToMessage replyTarget txt
             else ret false);
  if replied : bool then ret tt else sendMessage chatId txt.

(** [fetchQuotedMessage(messageId)]: the name of the sender and the
    text, or [None] for [null]. *)
Definition fetchQuotedMessage (messageId : string) : M (option (string * string)) :=
  w ← get;
  let r := getMessage env (tick w) messageId in
  modify (emit (EGetMessage messageId));;
  match r with
  | Some (senderId, txt) =>
      senderName ← resolveUserName senderId;
      ret (Some (senderName, txt))
  | None => ret None
  end.

(** [preloadGroupMembers(chatId)]: the chat is marked, then its members
    are listed and their names cached. *)
Definition preloadGroupMembers (chatId : string) : M unit :=
  w ← get;
  if bool_decide (chatId ∈ preloadedGroups w) then ret tt
  else modify (set_preloadedGroups (union {[chatId]}));;
       w1 ← get;
       let r := listChatMembers env (tick w1) chatId in
       modify (emit (EListChatMembers chatId));;
       match r with
       | MembersResult true members =>
           modify (λ w, set_identity (λ st, foldl (cacheMember (clock w)) st members) w)
       | MembersResult false _ => ret tt
       | MembersThrows => ret tt
       end.

Definition updateCursor (chatId messageId : string) : M unit :=
  modify (set_groupCursors (<[chatId := messageId]>));;
  modify (emit ESaveCursors).

Definition callDownloadImage (messageId imgKey : string) : M bool :=
  w ← get;
  let success := downloadImage_ok env (tick w) messageId imgKey in
  modify (emit (EDownloadImage messageId imgKey success));;
  ret success.

Definition callDownloadFile (messageId key : string) : M bool :=
  w ← get;
  let success := downloadFile_ok env (tick w) messageId key in
  modify (emit (EDownloadFile messageId key success));;
  ret success.

(** The loop over [imageKeys] collecting [mediaPaths]. *)
Fixpoint downloadImages (group : bool) (messageId : string) (keys : list string)
    : M (list string) :=
  match keys with
  | [] => ret []
  | imgKey :: rest =>
      success ← callDownloadImage messageId imgKey;
      paths ← downloadImages group messageId rest;
      ret (if success : bool then imagePath group imgKey :: paths else paths)
  end.

(** ** The event handler *)

(** [senderId && (String(senderId) === String(botAppId || '') || ...)] *)
Definition isSelf (w : World) (senderId : string) : bool :=
  truthy senderId
  && (bool_decide (senderId = botAppId w)
      || bool_decide (senderId = botOpenId w)
      || bool_decide (senderId = app_id (config w))
      || bool_decide (senderId = bot_open_id (config w))).

Definition senderIdOf (s : Sender) : string :=
  orO (s_open_id s) (orO (s_app_id s) (orO (s_user_id s) "")).

(** Thread context for topic messages, quoted content for replies. *)
Definition fetchContext (chatId messageId threadId rootId parentId : string)
    (threadHistoryLimit : Z) : M (option (list Entry) * option (string * string)) :=
  if truthy threadId then
    let threadHistoryKey := getHistoryKey chatId threadId in
    context ← getContextWithFallback threadId messageId "thread" threadHistoryKey
                threadHistoryLimit;
    w ← get;
    ret (Some (if truthy rootId
               then pinRootMessage (chatHistories w) context rootId threadHistoryKey
               else context), None)
  else if truthy parentId then
    quoted ← fetchQuotedMessage parentId;
    ret (None, quoted)
  else ret (None, None).

(** The callbacks [rejectReply] and [groupRejectReply]. *)
Definition rejectReply (chatId messageId threadId rootId parentId errMsg : string)
    : M unit :=
  removeTypingIndicator messageId;;
  sendThreadAwareMessage chatId errMsg threadId rootId parentId messageId.

Definition mediaLabel (mediaPaths : list string) : string :=
  if bool_decide (List.length mediaPaths = 1%nat) then "[image]"
  else "[" +:+ pretty (List.length mediaPaths) +:+ " images]".

Definition withText (label cleanText : string) : string :=
  label +:+ (if truthy cleanText then " " +:+ cleanText else "").

(** The private-chat branch from [logMessage] on. *)
Definition forwardDirect (data : Data) (x : Extracted) (logText endpoint : string)
    : M Outcome :=
  let m := message data in
  let chatId := msg_chat_id m in
  let messageId := msg_message_id m in
  let rootId := msg_root_id m in
  let parentId := msg_parent_id m in
  let threadId := msg_thread_id m in
  let senderUserId := s_user_id (sender data) in
  logMessage (msg_chat_type m) chatId senderUserId (s_open_id (sender data)) logText
    messageId (_timestamp data) (msg_mentions m) threadId;;
  addTypingIndicator messageId;;
  w ← get;
  '(threadContext, quotedContent) ←
    fetchContext chatId messageId threadId rootId parentId
      (orZ (context_messages (config w)) DEFAULT_HISTORY_LIMIT);
  senderName ← resolveUserName senderUserId;
  let cleanText := resolveMentions (x_text x) (msg_mentions m) in
  let opts :=
    mkOptions quotedContent threadContext (if truthy threadId then rootId else "") "" false in
  let onReject := Some (rejectReply chatId messageId threadId rootId parentId) in
  match imageKeys x with
  | _ :: _ =>
      mediaPaths ← downloadImages false messageId (imageKeys x);
      match mediaPaths with
      | first :: _ =>
          sendToC4 "feishu" endpoint
            (formatMessage "p2p" senderName (withText (mediaLabel mediaPaths) cleanText)
               [] first opts) onReject
      | [] =>
          sendToC4 "feishu" endpoint
            (formatMessage "p2p" senderName "[image download failed]" [] "" opts) onReject
      end;;
      ret Forwarded
  | [] =>
      if truthy (fileKey x) then
        success ← callDownloadFile messageId (fileKey x);
        (if success : bool
         then sendToC4 "feishu" endpoint
                (formatMessage "p2p" senderName ("[file: " +:+ fileName x +:+ "]") []
                   (filePath false (fileName x)) opts) onReject
         else sendToC4 "feishu" endpoint
                (formatMessage "p2p" senderName
                   ("[file download failed: " +:+ fileName x +:+ "]") [] "" opts) onReject);;
        ret Forwarded
      else
        sendToC4 "feishu" endpoint
          (formatMessage "p2p" senderName cleanText [] "" opts) onReject;;
        ret Forwarded
  end.

(** The private-chat branch. *)
Definition handleDirect (data : Data) (x : Extracted) (logText endpoint : string)
    : M Outcome :=
  let senderUserId := s_user_id (sender data) in
  let senderOpenId := s_open_id (sender data) in
  w ← get;
  bindingOk ←
    (if negb (from_option bound false (owner (config w)))
     then boundOwner ← bindOwner senderUserId senderOpenId;
          ret (truthyO boundOwner)
     else ret true);
  if negb bindingOk then ret OwnerBindingFailed
  else
    w1 ← get;
    if negb (isDmAllowed (config w1) senderUserId senderOpenId)
    then sendMessage (msg_chat_id (message data))
           "Sorry, I'm not available for private messages. Please ask my owner to grant you access.";;
         ret DmRejected
    else forwardDirect data x logText endpoint.

(** The group branch from the second [logMessage] on. *)
Definition forwardGroup (data : Data) (x : Extracted) (logText endpoint : string)
    (smart mentioned : bool) : M Outcome :=
  let m := message data in
  let chatId := msg_chat_id m in
  let messageId := msg_message_id m in
  let rootId := msg_root_id m in
  let parentId := msg_parent_id m in
  let threadId := msg_thread_id m in
  let senderUserId := s_user_id (sender data) in
  let smartNoMention := smart && negb mentioned in
  logMessage (msg_chat_type m) chatId senderUserId (s_open_id (sender data)) logText
    messageId (_timestamp data) (msg_mentions m) threadId;;
  preloadGroupMembers chatId;;
  contextMessages ← getGroupContext chatId messageId;
  updateCursor chatId messageId;;
  (if negb smartNoMention then addTypingIndicator messageId;; ret tt else ret tt);;
  w ← get;
  '(threadContext, quotedContent) ←
    fetchContext chatId messageId threadId rootId parentId
      (getGroupHistoryLimit (config w) chatId);
  senderName ← resolveUserName senderUserId;
  let cleanText := resolveMentions (x_text x) (msg_mentions m) in
  let cleanLogText := resolveMentions logText (msg_mentions m) in
  let opts hint :=
    mkOptions quotedContent threadContext (if truthy threadId then rootId else "")
              (getGroupName (config w) chatId) hint in
  let onReject := Some (rejectReply chatId messageId threadId rootId parentId) in
  match imageKeys x with
  | _ :: _ =>
      if smartNoMention then
        sendToC4 "feishu" endpoint
          (formatMessage "group" senderName (orS cleanLogText "[image]") contextMessages ""
             (opts true)) onReject;;
        ret Forwarded
      else
        mediaPaths ← downloadImages true messageId (imageKeys x);
        match mediaPaths with
        | first :: _ =>
            sendToC4 "feishu" endpoint
              (formatMessage "group" senderName (withText (mediaLabel mediaPaths) cleanText)
                 contextMessages first (opts false)) onReject;;
            ret Forwarded
        | [] =>
            removeTypingIndicator messageId;;
            sendThreadAwareMessage chatId "Image download failed. Please resend the image."
              threadId rootId parentId messageId;;
            ret MediaFailed
        end
  | [] =>
      if truthy (fileKey x) then
        if smartNoMention then
          sendToC4 "feishu" endpoint
            (formatMessage "group" senderName
               (orS cleanLogText ("[file: " +:+ fileName x +:+ "]")) contextMessages ""
               (opts true)) onReject;;
          ret Forwarded
        else
          success ← callDownloadFile messageId (fileKey x);
          if success : bool then
            sendToC4 "feishu" endpoint
              (formatMessage "group" senderName
                 (withText ("[file: " +:+ fileName x +:+ "]") cleanText) contextMessages
                 (filePath true (fileName x)) (opts false)) onReject;;
            ret Forwarded
          else
            removeTypingIndicator messageId;;
            sendThreadAwareMessage chatId "File download failed. Please resend the file."
              threadId rootId parentId messageId;;
            ret MediaFailed
      else
        sendToC4 "feishu" endpoint
          (formatMessage "group" senderName (orS cleanText (x_text x)) contextMessages ""
             (opts smartNoMention)) onReject;;
        ret Forwarded
  end.

(** The group branch. *)
Definition handleGroup (data : Data) (x : Extracted) (logText endpoint : string)
    : M Outcome :=
  let m := message data in
  let chatId := msg_chat_id m in
  let messageId := msg_message_id m in
  let senderUserId := s_user_id (sender data) in
  let senderOpenId := s_open_id (sender data) in
  w ← get;
  let mentioned := isBotMentioned (msg_mentions m) (botOpenId w) in
  match groupGate (config w) (botOpenId w) chatId senderUserId senderOpenId
          (msg_mentions m) with
  | GateDisabled =>
      (if mentioned
       then replyToMessage messageId "Sorry, group chat is currently disabled.";; ret tt
       else ret tt);;
      ret GroupDisabled
  | GateGroupDenied =>
      (if mentioned
       then replyToMessage messageId "Sorry, I'm not available in this group.";; ret tt
       else ret tt);;
      ret GroupNotAllowed
  | GateSenderDenied =>
      (if mentioned
       then replyToMessage messageId
              "Sorry, you don't have permission to interact with me in this group.";;
            ret tt
       else ret tt);;
      ret SenderNotAllowed
  | GateLogOnly =>
      (if isGroupAllowed (config w) chatId
       then logMessage (msg_chat_type m) chatId senderUserId senderOpenId logText messageId
              (_timestamp data) (msg_mentions m) (msg_thread_id m)
       else ret tt);;
      ret LoggedOnly
  | GateForward =>
      forwardGroup data x logText endpoint (isSmartGroup (config w) chatId) mentioned
  end.

Definition handleMessage (data : Data) : M Outcome :=
  let m := message data in
  w ← get;
  if isSelf w (senderIdOf (sender data)) then ret SelfMessage
  else
    duplicate ← isDuplicate (msg_message_id m);
    if duplicate : bool then ret Duplicate
    else
      let x := extractMessageContent m in
      let logText := buildLogText x (msg_message_id m) in
      let endpoint :=
        buildEndpoint (msg_chat_id m) (msg_chat_type m) (msg_root_id m) (msg_parent_id m)
          (msg_message_id m) (msg_thread_id m) in
      if bool_decide (msg_chat_type m = "p2p") then handleDirect data x logText endpoint
      else if bool_decide (msg_chat_type m = "group")
           then handleGroup data x logText endpoint
      else ret Ignored.

End Service.

(** What one call of [resolveUserName] in the state [w] finds, and the
    external calls it makes: the contact lookup and the alert to the
    owner, each if it happens. *)
Definition resolution (env : Env) (w : World) (userId : option string) : Resolved :=
  Identity.resolveUserName (config w) (botOpenId w) (botAppId w) (botAppName w) (clock w)
    (getUserInfo env (tick w) (default "" userId)) userId (identity w).

Definition resolutionCalls (env : Env) (w : World) (userId : option string) : list Effect :=
  (if looked_up (resolution env w userId)
   then [EGetUserInfo (default "" userId) (getUserInfo env (tick w) (default "" userId))]
   else [])
  ++ match alert (resolution env w userId) with
     | Some (recipient, txt) => [ESendMessage recipient txt]
     | None => []
     end.

(** The state of the process after that call: the identity state is the
    one the resolution leaves, the calls are appended to the trace. *)
Definition resolved (env : Env) (userId : option string) (w : World) : World :=
  mkWorld (config w) (disk w) (clock w) (botOpenId w) (botAppId w) (botAppName w)
    (processedMessages w) (activeTypingIndicators w) (timers w) (next_timer w)
    (chatHistories w) (lazyLoadedContainers w) (preloadedGroups w) (groupCursors w)
    (resolved_state (resolution env w userId))
    (trace w ++ resolutionCalls env w userId).

(** The calls of the identity resolver: contact lookups and messages
    sent. *)
Definition is_identity_call (e : Effect) : bool :=
  match e with
  | EGetUserInfo _ _ | ESendMessage _ _ => true
  | _ => false
  end.

(** Successful removals of the indicator of [messageId] among the calls
    of a trace. *)
Definition is_removal (messageId : string) (e : Effect) : bool :=
  match e with
  | ERemoveReaction m _ (RemoveResult true) => bool_decide (m = messageId)
  | _ => false
  end.

Definition removals (messageId : string) (tr : list Effect) : nat :=
  List.length (List.filter (is_removal messageId) tr).

(** The remote removal succeeds, at the first attempt or at the retry
    one second later (the retry is the third external call from [w]:
    attempt, pause, retry). *)
Definition removal_succeeds (env : Env) (w : World) (messageId rid : string) : Prop :=
  removeReaction env (tick w) messageId rid = RemoveResult true
  ∨ (removeReaction env (tick w) messageId rid = RemoveResult false
     ∧ removeReaction env (tick w + 2)%nat messageId rid = RemoveResult true).

(** ** The webhook endpoint *)

(** The body of a webhook request after JSON parsing; a missing field is
    the empty string, [wh_message] and [wh_sender] are [event.event.message]
    and [event.event.sender]. *)
Record WebhookEvent := mkWebhookEvent {
  wh_encrypt : string;
  wh_token : string;
  wh_header_token : string;
  wh_type : string;
  wh_challenge : string;
  wh_event_type : string;
  wh_message : option Message;
  wh_sender : option Sender;
  wh_create_time : Z
}.

(** What the handler of [POST /webhook] answers, and the event it hands
    to [handleMessage], if any. *)
Inductive WebhookResponse :=
  | Status400
  | Status500
  | Status403
  | ChallengeReply (challenge : string)
  | Acknowledged (handled : option Data).

(** The handler of [POST /webhook]; [decrypt key ciphertext] is the
    decrypted event, [None] when decryption throws. *)
Definition webhookRequest (encrypt_key verification_token : string)
    (decrypt : string → string → option WebhookEvent) (body : WebhookEvent)
    : WebhookResponse :=
  let decrypted :=
    if truthy (wh_encrypt body) && truthy encrypt_key
    then decrypt encrypt_key (wh_encrypt body)
    else Some body in
  match decrypted with
  | None => Status400
  | Some event =>
      if negb (truthy verification_token) then Status500
      else if negb (bool_decide (orS (wh_token event) (wh_header_token event)
                                 = verification_token))
      then Status403
      else if bool_decide (wh_type event = "url_verification")
      then ChallengeReply (wh_challenge event)
      else
        Acknowledged
          (if bool_decide (wh_event_type event = "im.message.receive_v1")
           then match wh_message event, wh_sender event with
                | Some m, Some s => Some (mkData m s (wh_create_time event))
                | _, _ => None
                end
           else None)
  end.

(** [preloadGroupMembers] twice in a row for one chat. *)
Definition preloadTwice (env : Env) (chatId : string) : M unit :=
  preloadGroupMembers env chatId ≫= λ _, preloadGroupMembers env chatId.

Definition is_member_list (chatId : string) (e : Effect) : bool :=
  match e with
  | EListChatMembers c => bool_decide (c = chatId)
  | _ => false
  end.

(** Member-list calls for [chatId] among the calls of a trace. *)
Definition memberLists (chatId : string) (tr : list Effect) : nat :=
  List.length (List.filter (is_member_list chatId) tr).

(** ** Sample data *)

(** [DEFAULT_CONFIG]: no owner bound, groups by allowlist, no group
    configured, ten context messages. *)
Definition DEFAULT_CONFIG : Config :=
  mkConfig (Some (mkOwner false (Some "") (Some "") "")) "" [] "allowlist" ∅ [] [] 10 "" "".

Definition config0 : Config := DEFAULT_CONFIG.

(** No name cached, no permission alert sent yet. *)
Definition identity0 : IdentityState := mkIdentity ∅ false 0.

(** A fresh process without a configuration file: nothing seen, nothing
    cached, the bot identity fetched. *)
Definition world0 : World :=
  mkWorld config0 None 0 "ou_bot" "cli_bot" "bot" ∅ ∅ ∅ 0%nat ∅ ∅ ∅ ∅ identity0 [].

(** An outside world in which every call succeeds; the contact directory
    knows every user by their id. *)
Definition env_up : Env :=
  mkEnv (λ _, true) (λ _ u, UserInfo true u 0 "")
        (λ _ _, AddResult true "r1") (λ _ _ _, RemoveResult true)
        (λ _ _ _ _, ListResult true []) (λ _ _, MembersResult true []) (λ _ _ _, ExecOk)
        (λ _ _, true) (λ _ _, None) (λ _ _ _, true) (λ _ _ _, true)
        (λ _, []).

(** The same, with a history API that reports failure. *)
Definition env_no_history : Env :=
  mkEnv (λ _, true) (λ _ u, UserInfo true u 0 "")
        (λ _ _, AddResult true "r1") (λ _ _ _, RemoveResult true)
        (λ _ _ _ _, ListResult false []) (λ _ _, MembersResult true []) (λ _ _ _, ExecOk)
        (λ _ _, true) (λ _ _, None) (λ _ _ _, true) (λ _ _ _, true)
        (λ _, []).

(** A full disk: every write of the configuration file fails. *)
Definition env_disk_full : Env :=
  mkEnv (λ _, false) (λ _ u, UserInfo true u 0 "")
        (λ _ _, AddResult true "r1") (λ _ _ _, RemoveResult true)
        (λ _ _ _ _, ListResult true []) (λ _ _, MembersResult true []) (λ _ _ _, ExecOk)
        (λ _ _, true) (λ _ _, None) (λ _ _ _, true) (λ _ _ _, true)
        (λ _, []).

Definition text_content (txt : string) : Content := mkContent txt "" None "" "" "".

(** The first direct message a deployment ever receives. *)
Definition first_dm : Data :=
  mkData (mkMessage [] "oc_dm" "om_1" "p2p" "" "" "" "text" (text_content "hello"))
         (mkSender (Some "ou_alice") None (Some "alice"))
         0.

(** A deployment whose owner is bound and whose group policy is
    [disabled]; the group [oc_team] is configured. *)
Definition alice : Owner := mkOwner true (Some "alice") (Some "ou_alice") "Alice".

Definition config_disabled : Config :=
  mkConfig (Some alice) "owner" [] "disabled"
           {[ "oc_team" := mkGroup "Team" "mention" None [] 0 ]} [] [] 0 "" "".

Definition world_disabled : World :=
  mkWorld config_disabled (Some config_disabled) 0 "ou_bot" "cli_bot" "bot"
          ∅ ∅ ∅ 0%nat ∅ ∅ ∅ ∅ identity0 [].

Definition mention_bot : Mention := mkMention "@_user_1" "bot" (Some "ou_bot") None None.

(** The owner addresses the bot in the configured group. *)
Definition owner_group_message : Data :=
  mkData (mkMessage [mention_bot] "oc_team" "om_7" "group" "" "" "" "text"
            (text_content "@_user_1 status?"))
         (mkSender (Some "ou_alice") None (Some "alice"))
         0.

(** A bridge whose first delivery attempt fails at transport level
    (no parsable output) and that works from then on. *)
Definition env_flaky : Env :=
  mkEnv (λ _, true) (λ _ u, UserInfo true u 0 "")
        (λ _ _, AddResult true "r1") (λ _ _ _, RemoveResult true)
        (λ _ _ _ _, ListResult true []) (λ _ _, MembersResult true [])
        (λ n _ _, if bool_decide (n = 0%nat) then ExecError None else ExecOk)
        (λ _ _, true) (λ _ _, None) (λ _ _ _, true) (λ _ _ _, true)
        (λ _, []).

(** An event sent by the bot itself. *)
Definition bot_echo : Data :=
  mkData (mkMessage [] "oc_team" "om_9" "group" "" "" "" "text" (text_content "done"))
         (mkSender (Some "ou_bot") None None)
         0.

Definition entry_of (id txt : string) : Entry := mkEntry 0 id (Some "alice") None "Alice" txt.

(** A process that has already seen the event [om_1]. *)
Definition world_seen : World :=
  set_processedMessages (<["om_1" := 0]>) world0.

(** A deployment owned by Alice with the default policies and one
    configured group that answers to mentions. *)
Definition config_team : Config :=
  mkConfig (Some alice) "" [] "allowlist"
           {[ "oc_team" := mkGroup "Team" "mention" None [] 0 ]} [] [] 10 "" "".

Definition world_team : World :=
  mkWorld config_team (Some config_team) 0 "ou_bot" "cli_bot" "bot"
          ∅ ∅ ∅ 0%nat ∅ ∅ ∅ ∅ identity0 [].

(** The same deployment with a smart group. *)
Definition config_smart : Config :=
  mkConfig (Some alice) "" [] "allowlist"
           {[ "oc_lab" := mkGroup "Lab" "smart" None [] 0 ]} [] [] 10 "" "".

(** Bob writes to the bot in private, and in the group without
    mentioning it. *)
Definition bob_dm : Data :=
  mkData (mkMessage [] "oc_bob" "om_3" "p2p" "" "" "" "text" (text_content "hi"))
         (mkSender (Some "ou_bob") None (Some "bob"))
         0.

Definition bob_group_message : Data :=
  mkData (mkMessage [] "oc_team" "om_4" "group" "" "" "" "text" (text_content "lunch?"))
         (mkSender (Some "ou_bob") None (Some "bob"))
         0.

(** A group whose [historyLimit] is negative: nothing checks it. *)
Definition config_negative_limit : Config :=
  mkConfig (Some alice) "" [] "allowlist"
           {[ "oc_team" := mkGroup "Team" "mention" None [] (-1) ]} [] [] 10 "" "".

(** Two messages of a remote history, the later one first, and one whose
    creation time is no date. *)
Definition remote_late : RemoteMessage := mkRemote "om_b" (Some "bob") 2000 "second".
Definition remote_early : RemoteMessage := mkRemote "om_a" (Some "alice") 1000 "first".
Definition remote_no_date : RemoteMessage :=
  mkRemote "om_c" (Some "carol") 9000000000000000 "undated".

(** A platform that refuses contact lookups for lack of permission, and
    the deployment some minutes after its start. *)
Definition env_no_contacts : Env :=
  mkEnv (λ _, true) (λ _ _, UserInfo false "" 99991672 "no access")
        (λ _ _, AddResult true "r1") (λ _ _ _, RemoveResult true)
        (λ _ _ _ _, ListResult true []) (λ _ _, MembersResult true [])
        (λ _ _ _, ExecOk)
        (λ _ _, true) (λ _ _, None) (λ _ _ _, true) (λ _ _ _, true)
        (λ _, []).

Definition world_team_later : World := set_clock 400000 world_team.

(** A platform on which reactions cannot be added or removed. *)
Definition env_no_reactions : Env :=
  mkEnv (λ _, true) (λ _ u, UserInfo true u 0 "")
        (λ _ _, AddThrows) (λ _ _ _, RemoveThrows)
        (λ _ _ _ _, ListResult true []) (λ _ _, MembersResult true []) (λ _ _ _, ExecOk)
        (λ _ _, true) (λ _ _, None) (λ _ _ _, true) (λ _ _ _, true)
        (λ _, []).

(** A bridge whose agent refuses every message, and one that fails at
    transport level first and refuses at the retry. *)
Definition agent_busy : C4Response := mkC4 (Some false) "agent busy".

Definition env_busy : Env :=
  mkEnv (λ _, true) (λ _ u, UserInfo true u 0 "")
        (λ _ _, AddResult true "r1") (λ _ _ _, RemoveResult true)
        (λ _ _ _ _, ListResult true []) (λ _ _, MembersResult true [])
        (λ _ _ _, ExecError (Some agent_busy))
        (λ _ _, true) (λ _ _, None) (λ _ _ _, true) (λ _ _ _, true)
        (λ _, []).

Definition env_busy_on_retry : Env :=
  mkEnv (λ _, true) (λ _ u, UserInfo true u 0 "")
        (λ _ _, AddResult true "r1") (λ _ _ _, RemoveResult true)
        (λ _ _ _ _, ListResult true []) (λ _ _, MembersResult true [])
        (λ n _ _, if bool_decide (n = 0%nat) then ExecError None
                  else ExecError (Some agent_busy))
        (λ _ _, true) (λ _ _, None) (λ _ _ _, true) (λ _ _ _, true)
        (λ _, []).

(** A bridge that cannot be started. *)
Definition env_bridge_down : Env :=
  mkEnv (λ _, true) (λ _ u, UserInfo true u 0 "")
        (λ _ _, AddResult true "r1") (λ _ _ _, RemoveResult true)
        (λ _ _ _ _, ListResult true []) (λ _ _, MembersResult true []) (λ _ _ _, ExecError None)
        (λ _ _, true) (λ _ _, None) (λ _ _ _, true) (λ _ _ _, true)
        (λ _, []).

(** The process while the indicator of [om_1] is shown. *)
Definition world_typing : World :=
  final (addTypingIndicator env_up "om_1" world0).

(** A cache whose only name expired at time 100 and has not been
    flushed. *)
Definition identity_stale : IdentityState :=
  mkIdentity {[ "carol" := mkCacheEntry "Carol" 100 ]} true 0.

Definition permission_denied : PermissionError :=
  mkPermissionError 99991672 "contact:user.base:readonly required" "".

(** A plain webhook delivery of Bob's private message with the token
    [secret]. *)
Definition webhook_delivery : WebhookEvent :=
  mkWebhookEvent "" "" "secret" "" "" "im.message.receive_v1"
                 (Some (message bob_dm)) (Some (sender bob_dm)) 0.

(* ================================================================== *)
(** * Part II: properties                                              *)
(* ================================================================== *)

Section Dedup.

Implicit Types (w : World) (e : string).

Lemma deleteExpired_lookup now (pm : gmap string Z) e t :
  deleteExpired now pm !! e = Some t ↔ pm !! e = Some t ∧ now - t ≤ DEDUP_TTL.
Proof.
  unfold deleteExpired. rewrite map_lookup_filter_Some. simpl.
  split; intros [? ?]; split; auto; lia.
Qed.

Lemma deleteExpired_lookup_None now (pm : gmap string Z) e :
  pm !! e = None → deleteExpired now pm !! e = None.
Proof.
  intros H. unfold deleteExpired. apply map_lookup_filter_None. left. exact H.
Qed.

Lemma isDuplicate_falsy w : isDuplicate "" w = Ret false w.
Proof. reflexivity. Qed.

Lemma isDuplicate_seen w e t :
  e ≠ "" → processedMessages w !! e = Some t → isDuplicate e w = Ret true w.
Proof.
  intros He Hl. unfold isDuplicate, truthy.
  rewrite bool_decide_true by done. simpl.
  unfold mbind, M_bind, bind, get.
  rewrite bool_decide_true by (rewrite Hl; eauto). reflexivity.
Qed.

Lemma isDuplicate_fresh w e :
  e ≠ "" → processedMessages w !! e = None →
  ∃ w1, isDuplicate e w = Ret false w1
        ∧ processedMessages w1 !! e = Some (clock w)
        ∧ clock w1 = clock w.
Proof.
  intros He Hl. unfold isDuplicate, truthy.
  rewrite bool_decide_true by done. simpl.
  unfold mbind, M_bind, bind, get.
  rewrite bool_decide_false by (rewrite Hl; intros [? ?]; done).
  unfold modify. simpl.
  case_bool_decide; simpl; eexists; (split; [reflexivity|]); simpl; split; auto.
  - apply deleteExpired_lookup. rewrite lookup_insert_eq. split; [done|].
    unfold DEDUP_TTL. lia.
  - apply lookup_insert_eq.
Qed.

(** The clock never runs backwards. *)
Lemma isDuplicate_clock id w : clock (final (isDuplicate id w)) = clock w.
Proof.
  unfold isDuplicate. destruct (truthy id); simpl; [|done].
  unfold mbind, M_bind, bind, get, modify.
  repeat (case_bool_decide; simpl); done.
Qed.

Lemma dedup_step_clock e w w' : dedup_step e w w' → clock w ≤ clock w'.
Proof.
  destruct 1; simpl; [done| |done].
  rewrite isDuplicate_clock. lia.
Qed.

Lemma dedup_steps_clock e w w' : rtc (dedup_step e) w w' → clock w ≤ clock w'.
Proof.
  induction 1 as [|x y z Hxy _ IH]; [lia|].
  apply dedup_step_clock in Hxy. lia.
Qed.

(** The ledger after checking another event. *)
Lemma isDuplicate_other_lookup id e w :
  id ≠ e →
  processedMessages (final (isDuplicate id w)) !! e = processedMessages w !! e
  ∨ (processedMessages (final (isDuplicate id w)) !! e = None
     ∧ ∃ t, processedMessages w !! e = Some t ∧ clock w - t > DEDUP_TTL).
Proof.
  intros Hne. unfold isDuplicate. destruct (truthy id); simpl; [|by left].
  unfold mbind, M_bind, bind, get, modify.
  case_bool_decide; simpl; [by left|].
  case_bool_decide; simpl.
  - destruct (processedMessages w !! e) as [t|] eqn:Hl.
    + destruct (decide (clock w - t ≤ DEDUP_TTL)) as [Hin|Hout].
      * left. apply deleteExpired_lookup. by rewrite lookup_insert_ne.
      * right. split; [|exists t; split; [done|lia]].
        apply map_lookup_filter_None. right. intros t'.
        rewrite lookup_insert_ne by done. rewrite Hl. intros [= <-]. simpl. lia.
    + left. apply deleteExpired_lookup_None. by rewrite lookup_insert_ne.
  - left. by rewrite lookup_insert_ne.
Qed.

Lemma dedupCleanup_lookup e w :
  processedMessages (final (dedupCleanup w)) !! e = processedMessages w !! e
  ∨ (processedMessages (final (dedupCleanup w)) !! e = None
     ∧ ∃ t, processedMessages w !! e = Some t ∧ clock w - t > DEDUP_TTL).
Proof.
  unfold dedupCleanup, mbind, M_bind, bind, get, modify. simpl.
  destruct (processedMessages w !! e) as [t|] eqn:Hl.
  - destruct (decide (clock w - t ≤ DEDUP_TTL)) as [Hin|Hout].
    + left. by apply deleteExpired_lookup.
    + right. split; [|exists t; split; [done|lia]].
      apply map_lookup_filter_None. right. intros t'.
      rewrite Hl. intros [= <-]. simpl. lia.
  - left. by apply deleteExpired_lookup_None.
Qed.

(** One step keeps the entry of [e], or evicts it once it has expired. *)
Lemma dedup_step_lookup e w w' :
  dedup_step e w w' →
  processedMessages w' !! e = processedMessages w !! e
  ∨ (processedMessages w' !! e = None
     ∧ ∃ t, processedMessages w !! e = Some t ∧ clock w - t > DEDUP_TTL).
Proof.
  destruct 1 as [w t Ht|w id Hne|w].
  - by left.
  - by apply isDuplicate_other_lookup.
  - apply dedupCleanup_lookup.
Qed.

(** Within the window nothing evicts the entry. *)
Lemma dedup_steps_within e t0 w w' :
  rtc (dedup_step e) w w' →
  processedMessages w !! e = Some t0 →
  clock w' - t0 ≤ DEDUP_TTL →
  processedMessages w' !! e = Some t0.
Proof.
  induction 1 as [|x y z Hxy Hyz IH]; intros Hl Hin; [done|].
  apply IH; [|done].
  destruct (dedup_step_lookup _ _ _ Hxy) as [->|[_ (t & Ht & Hout)]]; [done|].
  rewrite Hl in Ht. injection Ht as <-.
  apply dedup_step_clock in Hxy. apply dedup_steps_clock in Hyz. lia.
Qed.

(** The entry is never refreshed by other traffic. *)
Lemma dedup_steps_lookup e t0 w w' :
  rtc (dedup_step e) w w' →
  processedMessages w !! e = Some t0 ∨ processedMessages w !! e = None →
  processedMessages w' !! e = Some t0 ∨ processedMessages w' !! e = None.
Proof.
  induction 1 as [|x y z Hxy Hyz IH]; intros Hl; [done|].
  apply IH.
  destruct (dedup_step_lookup _ _ _ Hxy) as [->|[-> _]]; [done|by right].
Qed.

(** C4. A non-empty event id that is not in the ledger is reported new by
    the first check and recorded with the current time; however other
    traffic, sweeps and the clock proceed, a second check at most
    [DEDUP_TTL] (five minutes) after the first reports a duplicate and
    leaves the ledger alone; once more than [DEDUP_TTL] has passed and
    the sweep [dedupCleanup] has run, the next check reports the event
    new again. *)
Theorem dedup_false_true_then_false_after_sweep w e :
  e ≠ "" →
  processedMessages w !! e = None →
  ∃ w1,
    isDuplicate e w = Ret false w1
    ∧ processedMessages w1 !! e = Some (clock w)
    ∧ (∀ w2, rtc (dedup_step e) w1 w2 →
             clock w2 - clock w ≤ DEDUP_TTL →
             isDuplicate e w2 = Ret true w2)
    ∧ (∀ w2, rtc (dedup_step e) w1 w2 →
             clock w2 - clock w > DEDUP_TTL →
             ∃ w3, isDuplicate e (final (dedupCleanup w2)) = Ret false w3).
Proof.
  intros He Hfresh.
  destruct (isDuplicate_fresh w e He Hfresh) as (w1 & Hrun & Hrec & Hclk).
  exists w1. repeat split; [done|done| |].
  - intros w2 Hsteps Hin.
    apply (isDuplicate_seen w2 e (clock w)); [done|].
    by apply (dedup_steps_within e (clock w) w1 w2).
  - intros w2 Hsteps Hout.
    assert (processedMessages (final (dedupCleanup w2)) !! e = None) as Hgone.
    { destruct (dedup_steps_lookup e (clock w) w1 w2 Hsteps (or_introl Hrec))
        as [Hl|Hl];
      destruct (dedupCleanup_lookup e w2) as [Heq|[Hnone _]];
        try done; rewrite Heq; [|done].
      exfalso.
      unfold dedupCleanup, mbind, M_bind, bind, get, modify in Heq. simpl in Heq.
      rewrite Hl in Heq. apply deleteExpired_lookup in Heq. lia. }
    destruct (isDuplicate_fresh _ e He Hgone) as (w3 & Hrun3 & _).
    by exists w3.
Qed.

End Dedup.

(** Unfolding the monad. *)
Ltac run :=
  repeat (unfold mbind, M_bind, bind, mret, M_ret, ret, get, modify, try_catch; simpl).

Lemma tick_emit e w : tick (emit e w) = S (tick w).
Proof. unfold tick. simpl. rewrite length_app. simpl. lia. Qed.

Section Resolver.

Variable env : Env.
Implicit Types (w : World) (userId : option string).

(** One resolution never throws; it changes the identity state and the
    trace and nothing else. *)
Lemma resolveUserName_eq w userId :
  resolveUserName env userId w
  = Ret (resolved_name (resolution env w userId)) (resolved env userId w).
Proof.
  unfold resolveUserName, resolved, resolutionCalls, sendMessage.
  unfold mbind, M_bind, bind, mret, M_ret, ret, get, modify.
  fold (resolution env w userId).
  destruct (looked_up (resolution env w userId)),
    (alert (resolution env w userId)) as [[recipient txt]|];
    unfold emit, set_identity; cbn [config disk clock botOpenId botAppId botAppName
      processedMessages activeTypingIndicators timers next_timer chatHistories
      lazyLoadedContainers preloadedGroups groupCursors identity trace];
    rewrite <- ?app_assoc, ?app_nil_r; reflexivity.
Qed.

Lemma resolutionCalls_identity w userId :
  Forall (λ e, is_identity_call e = true) (resolutionCalls env w userId).
Proof.
  unfold resolutionCalls.
  destruct (looked_up _), (alert _) as [[recipient txt]|]; repeat constructor.
Qed.

End Resolver.

Section Typing.

Variable env : Env.
Implicit Types (w : World) (m rid : string).

Lemma removals_app m tr1 tr2 :
  removals m (tr1 ++ tr2) = (removals m tr1 + removals m tr2)%nat.
Proof. unfold removals. by rewrite List.filter_app, length_app. Qed.

Lemma removeTypingIndicator_inactive w m :
  activeTypingIndicators w !! m = None →
  removeTypingIndicator env m w = Ret tt w.
Proof. intros H. unfold removeTypingIndicator. run. by rewrite H. Qed.

Lemma checkTypingDoneMarker_inactive w m :
  activeTypingIndicators w !! m = None →
  checkTypingDoneMarker env m w = Ret tt w.
Proof.
  intros H. unfold checkTypingDoneMarker. run.
  rewrite bool_decide_false; [done|]. rewrite H. by intros [? ?].
Qed.

Lemma addTypingIndicator_success w m rid :
  addReaction env (tick w) m = AddResult true rid →
  rid ≠ "" →
  ∃ w1, addTypingIndicator env m w = Ret true w1
        ∧ activeTypingIndicators w1 !! m = Some (mkTyping rid (next_timer w))
        ∧ timers w1 !! next_timer w
          = Some (mkTimer (clock w + TYPING_TIMEOUT) (ExpireTyping m))
        ∧ trace w1 = trace w ++ [EAddReaction m (AddResult true rid)].
Proof.
  intros Hadd Hrid. unfold addTypingIndicator, callAddReaction, setTimeout. run.
  rewrite Hadd. unfold truthy. rewrite bool_decide_true by done. run.
  eexists. split; [reflexivity|]. simpl.
  rewrite !lookup_insert_eq. done.
Qed.

Lemma removeTypingIndicator_success w m st :
  activeTypingIndicators w !! m = Some st →
  removal_succeeds env w m (reactionId st) →
  ∃ w2, removeTypingIndicator env m w = Ret tt w2
        ∧ activeTypingIndicators w2 !! m = None
        ∧ timers w2 !! timer st = None
        ∧ removals m (trace w2) = S (removals m (trace w)).
Proof.
  intros Hact Hok. unfold removeTypingIndicator, callRemoveReaction, clearTimeout. run.
  rewrite Hact. run. unfold removal_succeeds, tick in *. simpl.
  destruct Hok as [H1|[H1 H2]].
  - rewrite H1. run. eexists. split; [reflexivity|]. simpl.
    rewrite !lookup_delete_eq. repeat split.
    rewrite removals_app. unfold removals at 2. simpl.
    rewrite bool_decide_true by done. simpl. lia.
  - rewrite H1. run. rewrite !length_app. simpl.
    replace (List.length (trace w) + 1 + 1)%nat with (List.length (trace w) + 2)%nat by lia.
    rewrite H2. run. eexists. split; [reflexivity|]. simpl.
    rewrite !lookup_delete_eq. repeat split.
    rewrite !removals_app. unfold removals at 2 3 4. simpl.
    rewrite bool_decide_true by done. simpl. lia.
Qed.

Lemma fireTimer_cancelled w id :
  timers w !! id = None → fireTimer env id w = Ret tt w.
Proof. intros H. unfold fireTimer. run. by rewrite H. Qed.

(** Whatever the platform answers, one completion makes at most one
    successful removal, and after a successful one the indicator is gone. *)
Lemma removeTypingIndicator_at_most_once w m :
  removals m (trace (final (removeTypingIndicator env m w))) = removals m (trace w)
  ∨ (removals m (trace (final (removeTypingIndicator env m w))) = S (removals m (trace w))
     ∧ activeTypingIndicators (final (removeTypingIndicator env m w)) !! m = None).
Proof.
  unfold removeTypingIndicator, callRemoveReaction, clearTimeout, setTimeout. run.
  destruct (activeTypingIndicators w !! m) as [st|] eqn:Hact; run; [|by left].
  unfold tick. simpl.
  destruct (removeReaction env (List.length (trace w)) m (reactionId st)) as [[|]|]; run.
  - right. rewrite removals_app, lookup_delete_eq. unfold removals at 2. simpl.
    rewrite bool_decide_true by done. simpl. split; [lia|done].
  - destruct (removeReaction env _ m (reactionId st)) as [[|]|]; run.
    + right. rewrite !removals_app, lookup_delete_eq. unfold removals at 2 3 4. simpl.
      rewrite bool_decide_true by done. simpl. split; [lia|done].
    + left. rewrite !removals_app. unfold removals at 2 3 4. simpl. lia.
    + left. rewrite !removals_app. unfold removals at 2 3 4. simpl. lia.
  - left. rewrite removals_app. unfold removals at 2. simpl. lia.
Qed.

(** C9. After a successful [addTypingIndicator] for [m] the indicator is
    active with its 120-second expiry pending.  If completion
    ([removeTypingIndicator]) comes at a time [t] inside that window and
    the remote removal succeeds, the indicator is removed exactly once:
    one successful removal call is made, the entry and its expiry timer
    are gone, and a second completion, the marker poll and the cancelled
    expiry all leave the state and the trace untouched.  Completing a
    message that has no active indicator changes nothing; and whatever the
    platform answers, two completions in a row never make more than one
    successful removal. *)
Theorem typing_completion_idempotent w m rid t :
  addReaction env (tick w) m = AddResult true rid →
  rid ≠ "" →
  clock w ≤ t ≤ clock w + TYPING_TIMEOUT →
  ∃ w1 st,
    addTypingIndicator env m w = Ret true w1
    ∧ activeTypingIndicators w1 !! m = Some st
    ∧ reactionId st = rid
    ∧ timers w1 !! timer st = Some (mkTimer (clock w + TYPING_TIMEOUT) (ExpireTyping m))
    ∧ (removal_succeeds env w1 m rid →
       ∃ w2, removeTypingIndicator env m (set_clock t w1) = Ret tt w2
             ∧ activeTypingIndicators w2 !! m = None
             ∧ removals m (trace w2) = S (removals m (trace w))
             ∧ removeTypingIndicator env m w2 = Ret tt w2
             ∧ checkTypingDoneMarker env m w2 = Ret tt w2
             ∧ fireTimer env (timer st) w2 = Ret tt w2)
    ∧ (∀ w' m', activeTypingIndicators w' !! m' = None →
                removeTypingIndicator env m' w' = Ret tt w'
                ∧ checkTypingDoneMarker env m' w' = Ret tt w')
    ∧ (∀ w' m',
         (removals m' (trace (final (removeTypingIndicator env m'
                                       (final (removeTypingIndicator env m' w')))))
          ≤ S (removals m' (trace w')))%nat).
Proof.
  intros Hadd Hrid Ht.
  destruct (addTypingIndicator_success w m rid Hadd Hrid) as (w1 & Hrun & Hact & Htm & Htr).
  exists w1, (mkTyping rid (next_timer w)). simpl.
  repeat split; try done.
  - intros Hok.
    destruct (removeTypingIndicator_success (set_clock t w1) m
                (mkTyping rid (next_timer w)) Hact Hok)
      as (w2 & Hrun2 & Hgone & Hcancel & Hcount).
    exists w2. simpl in *. repeat split; try done.
    + rewrite Hcount, Htr, removals_app. unfold removals at 2. simpl. lia.
    + by apply removeTypingIndicator_inactive.
    + by apply checkTypingDoneMarker_inactive.
    + by apply fireTimer_cancelled.
  - by apply removeTypingIndicator_inactive.
  - by apply checkTypingDoneMarker_inactive.
  - intros w' m'.
    destruct (removeTypingIndicator_at_most_once w' m') as [Hsame|[Hone Hgone]].
    + destruct (removeTypingIndicator_at_most_once
                  (final (removeTypingIndicator env m' w')) m') as [H2|[H2 _]]; lia.
    + rewrite (removeTypingIndicator_inactive _ _ Hgone). simpl. lia.
Qed.

End Typing.

Section History.

Variable env : Env.
Implicit Types (cfg : Config) (hs : gmap string (list Entry)).
Implicit Types (e : Entry) (k chatId threadId rootId : string).

(** *** Keys *)

Lemma string_length_append (s1 s2 : string) :
  String.length (s1 +:+ s2) = (String.length s1 + String.length s2)%nat.
Proof. induction s1 as [|c s1 IH]; simpl; [done|]. by rewrite IH. Qed.

Lemma getHistoryKey_thread_ne chatId threadId :
  threadId ≠ "" → getHistoryKey chatId threadId ≠ chatId.
Proof.
  intros Ht. unfold getHistoryKey, truthy. rewrite bool_decide_true by done.
  intros Heq. apply (f_equal String.length) in Heq.
  rewrite !string_length_append in Heq. simpl in Heq. lia.
Qed.

(** *** Recording touches one buffer *)

Lemma recordHistoryEntry_other cfg k k' e hs :
  k ≠ k' → recordHistoryEntry cfg k e hs !! k' = hs !! k'.
Proof.
  intros Hne. unfold recordHistoryEntry.
  set (hs1 := match hs !! k with Some _ => hs | None => <[k:=[]]> hs end).
  assert (hs1 !! k' = hs !! k') as H1.
  { subst hs1. destruct (hs !! k); [done|]. by rewrite lookup_insert_ne. }
  destruct (_ && _); [done|].
  case_bool_decide; by rewrite lookup_insert_ne.
Qed.

Lemma recordMany_other cfg k k' (es : list Entry) hs :
  k ≠ k' →
  foldl (λ hs e, recordHistoryEntry cfg k e hs) hs es !! k' = hs !! k'.
Proof.
  intros Hne. revert hs. induction es as [|e es IH]; intros hs; simpl; [done|].
  rewrite IH. by apply recordHistoryEntry_other.
Qed.

(** A read depends on the buffer under its own key only. *)
Lemma getInMemoryContext_ext cfg hs hs' k cur :
  hs !! k = hs' !! k →
  getInMemoryContext cfg hs k cur = getInMemoryContext cfg hs' k cur.
Proof. intros H. unfold getInMemoryContext. by rewrite H. Qed.

(** *** Thread isolation *)

Lemma logMessage_thread w chatType chatId userId openId txt messageId ts mentions threadId :
  threadId ≠ "" →
  ∃ entry w1,
    message_id entry = messageId
    ∧ config w1 = config w
    ∧ chatHistories w1 = chatHistories w
    ∧ logMessage env chatType chatId userId openId txt messageId ts mentions threadId w
      = Ret tt (set_chatHistories
                  (recordHistoryEntry (config w) (getHistoryKey chatId threadId) entry)
                  (emit (EAppendLog
                           (if bool_decide (chatType = "p2p") then String_ userId else chatId)
                           threadId entry) w1)).
Proof.
  intros Ht. unfold logMessage. run. rewrite resolveUserName_eq. run.
  unfold truthy at 1. rewrite bool_decide_true by done.
  eexists (mkEntry _ _ _ _ _ _), _. split; [|split; [|split; [|reflexivity]]]; done.
Qed.

(** C6. A thread buffer and the buffer of its parent conversation never
    leak into each other: whatever entries are recorded under the thread
    key [chatId:threadId], every read on the parent key [chatId] returns
    what it returned before, and conversely; and [logMessage] for a
    message that carries a thread id records it under the thread key and
    leaves every other buffer, the parent's included, as it was. *)
Theorem thread_context_isolation cfg hs chatId threadId (es : list Entry) cur :
  threadId ≠ "" →
  getInMemoryContext cfg
    (foldl (λ hs e, recordHistoryEntry cfg (getHistoryKey chatId threadId) e hs) hs es)
    chatId cur
  = getInMemoryContext cfg hs chatId cur
  ∧ getInMemoryContext cfg
      (foldl (λ hs e, recordHistoryEntry cfg chatId e hs) hs es)
      (getHistoryKey chatId threadId) cur
    = getInMemoryContext cfg hs (getHistoryKey chatId threadId) cur
  ∧ ∀ w chatType userId openId txt messageId ts mentions,
      ∃ w' entry,
        logMessage env chatType chatId userId openId txt messageId ts mentions threadId w
        = Ret tt w'
        ∧ message_id entry = messageId
        ∧ config w' = config w
        ∧ chatHistories w'
          = recordHistoryEntry (config w) (getHistoryKey chatId threadId) entry
              (chatHistories w)
        ∧ (∀ k, k ≠ getHistoryKey chatId threadId →
                chatHistories w' !! k = chatHistories w !! k)
        ∧ (∀ cur', getInMemoryContext (config w') (chatHistories w') chatId cur'
                   = getInMemoryContext (config w) (chatHistories w) chatId cur').
Proof.
  intros Ht. pose proof (getHistoryKey_thread_ne chatId threadId Ht) as Hne.
  split; [|split].
  - apply getInMemoryContext_ext. by apply recordMany_other.
  - apply getInMemoryContext_ext. by apply recordMany_other.
  - intros w chatType userId openId txt messageId ts mentions.
    destruct (logMessage_thread w chatType chatId userId openId txt messageId ts
                mentions threadId Ht) as (entry & w1 & Hid & Hcfg & Hhist & Hrun).
    eexists _, entry. split; [exact Hrun|]. simpl. rewrite Hcfg, Hhist.
    repeat split; try done.
    + intros k Hk. by apply recordHistoryEntry_other.
    + intros cur'. apply getInMemoryContext_ext. by apply recordHistoryEntry_other.
Qed.

(** *** Root pinning *)

Lemma findIndex_Some {A} (p : A → bool) (l : list A) i :
  findIndex p l = Some i →
  ∃ x, l !! i = Some x ∧ List.find p l = Some x.
Proof.
  revert i. induction l as [|a l IH]; intros i; simpl; [done|].
  destruct (p a) eqn:Hp.
  - intros [= <-]. by exists a.
  - destruct (findIndex p l) as [j|]; simpl; [|done].
    intros [= <-]. destruct (IH j eq_refl) as (x & Hx & Hf). by exists x.
Qed.

Lemma findIndex_None {A} (p : A → bool) (l : list A) :
  findIndex p l = None ↔ List.find p l = None.
Proof.
  induction l as [|a l IH]; simpl; [done|].
  destruct (p a); [done|].
  destruct (findIndex p l); simpl.
  - split; [done|]. intros H. apply IH in H. done.
  - split; [|done]. intros _. by apply IH.
Qed.

(** Without a root id the window is handed back as it is. *)
Lemma pinRootMessage_without_root hs (context : list Entry) k :
  pinRootMessage hs context "" k = context.
Proof. reflexivity. Qed.

(** C8. For a root id that is given (non-empty): when the window holds
    the root message, [pinRootMessage] returns the window with that
    message moved to position 0 and the other entries in their order;
    when the window lacks it and the full buffer under the key holds it,
    the root message is put in front of the unchanged window; when
    neither holds it, the window comes back as it was.  The function is
    total: it has a result for every input. *)
Theorem pinRootMessage_pins hs (context : list Entry) rootId k :
  rootId ≠ "" →
  (∀ root, List.find (has_message_id rootId) context = Some root →
     ∃ i, context !! i = Some root
          ∧ pinRootMessage hs context rootId k = root :: delete i context)
  ∧ (List.find (has_message_id rootId) context = None →
     ∀ fullHistory root,
       hs !! k = Some fullHistory →
       List.find (has_message_id rootId) fullHistory = Some root →
       pinRootMessage hs context rootId k = root :: context)
  ∧ (List.find (has_message_id rootId) context = None →
     (∀ fullHistory, hs !! k = Some fullHistory →
                     List.find (has_message_id rootId) fullHistory = None) →
     pinRootMessage hs context rootId k = context).
Proof.
  intros Hroot. unfold pinRootMessage, truthy.
  rewrite bool_decide_true by done. simpl.
  split; [|split].
  - intros root Hfind.
    destruct (findIndex (has_message_id rootId) context) as [i|] eqn:Hidx.
    + destruct (findIndex_Some _ _ _ Hidx) as (x & Hx & Hf).
      rewrite Hfind in Hf. injection Hf as <-.
      exists i. split; [done|].
      destruct i as [|i].
      * destruct context as [|a rest]; [done|]. simpl in Hx. by injection Hx as ->.
      * unfold moveToFront. by rewrite Hx.
    + apply findIndex_None in Hidx. congruence.
  - intros Hnone fullHistory root Hfull Hfind.
    apply findIndex_None in Hnone. rewrite Hnone, Hfull, Hfind. done.
  - intros Hnone Hnowhere.
    apply findIndex_None in Hnone. rewrite Hnone.
    destruct (hs !! k) as [fullHistory|] eqn:Hfull; [|done].
    by rewrite (Hnowhere fullHistory eq_refl).
Qed.

(** *** Lazy backfill *)

Lemma fetches_app tr1 tr2 : fetches (tr1 ++ tr2) = (fetches tr1 + fetches tr2)%nat.
Proof. unfold fetches. by rewrite List.filter_app, length_app. Qed.

Lemma fetches_identity_calls calls :
  Forall (λ call, is_identity_call call = true) calls → fetches calls = 0%nat.
Proof.
  induction 1 as [|call calls Hcall _ IH]; [done|].
  change (call :: calls) with ([call] ++ calls). rewrite fetches_app, IH.
  by destruct call.
Qed.

(** The backfill loop never throws; it records into the histories,
    resolves the senders, and touches neither the configuration nor the
    marks. *)
Lemma recordAll_returns w k msgs :
  ∃ w' calls,
    recordAll env k msgs w = Ret tt w'
    ∧ config w' = config w
    ∧ lazyLoadedContainers w' = lazyLoadedContainers w
    ∧ trace w' = trace w ++ calls
    ∧ Forall (λ call, is_identity_call call = true) calls.
Proof.
  revert w. induction msgs as [|msg msgs IH]; intros w.
  - exists w, []. simpl. by rewrite app_nil_r.
  - simpl. run. rewrite resolveUserName_eq.
    match goal with
    | |- context [recordAll env k msgs ?w0] =>
        destruct (IH w0) as (w' & calls & Hrun & Hcfg & Hmarks & Htr & Hcalls)
    end.
    exists w', (resolutionCalls env w (r_sender msg) ++ calls).
    split; [exact Hrun|]. simpl in *.
    split; [done|]. split; [done|]. split; [by rewrite Htr, app_assoc|].
    apply Forall_app. split; [apply resolutionCalls_identity|done].
Qed.

(** A key that is marked is served from memory, without any call. *)
Lemma getContextWithFallback_loaded w cId cur cT k lim :
  k ∈ lazyLoadedContainers w →
  getContextWithFallback env cId cur cT k lim w
  = Ret (getInMemoryContext (config w) (chatHistories w) k cur) w.
Proof.
  intros Hin. unfold getContextWithFallback. run.
  by rewrite bool_decide_true.
Qed.

(** A fetch that reports success marks the key. *)
Lemma getContextWithFallback_fetch_ok w cId cur cT k lim msgs :
  k ∉ lazyLoadedContainers w →
  listMessages env (tick w) cId (fallbackLimit (config w) cId cT lim) cT
  = ListResult true msgs →
  ∃ w1 calls,
    getContextWithFallback env cId cur cT k lim w
    = Ret (getInMemoryContext (config w1) (chatHistories w1) k cur) w1
    ∧ k ∈ lazyLoadedContainers w1
    ∧ config w1 = config w
    ∧ trace w1
      = trace w ++ [EListMessages cId (fallbackLimit (config w) cId cT lim) cT
                      (ListResult true msgs)] ++ calls
    ∧ Forall (λ call, is_identity_call call = true) calls.
Proof.
  intros Hout Hok.
  unfold getContextWithFallback, callListMessages, readInMemory.
  run. rewrite bool_decide_false by done. rewrite Hok. run.
  match goal with
  | |- context [recordAll env k ?l ?w0] =>
      destruct (recordAll_returns w0 k l) as (w1 & calls & Hrun & Hcfg & Hmarks & Htr & Hcalls)
  end.
  rewrite Hrun. exists w1, calls. simpl in *.
  split; [reflexivity|]. rewrite Htr, <- app_assoc.
  split; [rewrite Hmarks; apply elem_of_union_l, elem_of_singleton; done|done].
Qed.

(** A fetch that fails, or throws, leaves the key unmarked and the
    buffers as they were. *)
Lemma getContextWithFallback_fetch_failed w cId cur cT k lim :
  k ∉ lazyLoadedContainers w →
  (∀ msgs, listMessages env (tick w) cId (fallbackLimit (config w) cId cT lim) cT
           ≠ ListResult true msgs) →
  ∃ r, getContextWithFallback env cId cur cT k lim w
       = Ret (getInMemoryContext (config w) (chatHistories w) k cur)
             (emit (EListMessages cId (fallbackLimit (config w) cId cT lim) cT r) w).
Proof.
  intros Hout Hfail. unfold getContextWithFallback, callListMessages, readInMemory.
  run. rewrite bool_decide_false by done.
  destruct (listMessages env (tick w) cId _ cT) as [[|] msgs|] eqn:Hr;
    [by destruct (Hfail msgs)| |]; eexists; reflexivity.
Qed.

(** C5 (as the code has it). For a history key that is not yet marked
    as loaded, a context read whose remote fetch reports success makes
    exactly one fetch and marks the key; the next call for the key makes
    none, so two consecutive calls make exactly one; and whenever the key
    is marked, in whatever state the buffers are, a call answers from
    memory without changing anything. *)
Theorem lazy_backfill_once_after_successful_fetch w cId cur cT k lim msgs :
  k ∉ lazyLoadedContainers w →
  listMessages env (tick w) cId (fallbackLimit (config w) cId cT lim) cT
  = ListResult true msgs →
  ∃ ctx1 w1,
    getContextWithFallback env cId cur cT k lim w = Ret ctx1 w1
    ∧ fetches (trace w1) = S (fetches (trace w))
    ∧ k ∈ lazyLoadedContainers w1
    ∧ (∀ cur2,
         getContextWithFallback env cId cur2 cT k lim w1
         = Ret (getInMemoryContext (config w1) (chatHistories w1) k cur2) w1)
    ∧ (∀ w' cId' cur' cT' lim',
         k ∈ lazyLoadedContainers w' →
         getContextWithFallback env cId' cur' cT' k lim' w'
         = Ret (getInMemoryContext (config w') (chatHistories w') k cur') w').
Proof.
  intros Hout Hok.
  destruct (getContextWithFallback_fetch_ok w cId cur cT k lim msgs Hout Hok)
    as (w1 & calls & Hrun & Hin & _ & Htr & Hcalls).
  eexists _, w1. split; [exact Hrun|]. repeat split.
  - rewrite Htr, !fetches_app, (fetches_identity_calls calls Hcalls).
    unfold fetches at 2. simpl. lia.
  - done.
  - intros cur2. by apply getContextWithFallback_loaded.
  - intros w' cId' cur' cT' lim' Hin'. by apply getContextWithFallback_loaded.
Qed.

(** The mark is never taken back by a context read. *)
Lemma getContextWithFallback_keeps_marks w cId cur cT k lim :
  lazyLoadedContainers w
  ⊆ lazyLoadedContainers (final (getContextWithFallback env cId cur cT k lim w)).
Proof.
  unfold getContextWithFallback, callListMessages, readInMemory. run.
  case_bool_decide; simpl; [done|].
  destruct (listMessages env _ _ _ _) as [[|] msgs|]; simpl; [|set_solver..].
  match goal with
  | |- context [recordAll env k ?l ?w0] =>
      destruct (recordAll_returns w0 k l) as (w1 & calls & Hrun & _ & Hmarks & _)
  end.
  rewrite Hrun. simpl in *. rewrite Hmarks. apply union_subseteq_r.
Qed.

End History.

(** Counterexample to C5 as stated: with a history API that reports
    failure, two consecutive reads for a never-accessed key fetch twice. *)
Lemma lazy_backfill_refetches_after_failed_fetch :
  ("oc_1" ∉ lazyLoadedContainers world0)
  ∧ fetches (trace (final
      (readTwice env_no_history "oc_1" "om_1" "om_2" "chat" "oc_1" 0 world0)))
    = 2%nat.
Proof. split; [set_solver|reflexivity]. Qed.

Section Dispatch.

Variable env : Env.
Implicit Types (w : World) (onReject : option (string → M unit)).

Lemma attempts_app tr1 tr2 : attempts (tr1 ++ tr2) = (attempts tr1 + attempts tr2)%nat.
Proof. unfold attempts. by rewrite List.filter_app, length_app. Qed.

Lemma deliveries_app tr1 tr2 :
  deliveries (tr1 ++ tr2) = (deliveries tr1 + deliveries tr2)%nat.
Proof. unfold deliveries. by rewrite List.filter_app, length_app. Qed.

(** Empty content is refused before any call. *)
Lemma sendToC4_empty w source endpoint onReject :
  sendToC4 env source endpoint "" onReject w = Ret tt w.
Proof. reflexivity. Qed.

Lemma sendToC4_delivered w source endpoint content onReject :
  content ≠ "" →
  execFile env (tick w) endpoint content = ExecOk →
  sendToC4 env source endpoint content onReject w
  = Ret tt (emit (EExecFile source endpoint content ExecOk) w).
Proof.
  intros Hc H1. unfold sendToC4, callExecFile, truthy.
  rewrite bool_decide_true by done. run. by rewrite H1.
Qed.

(** A parsed response that says [ok: false] and carries a non-empty
    [error.message] is read as a rejection with that message as its
    reason. *)
Lemma rejection_structured (response : C4Response) :
  ok response = Some false →
  error_message response ≠ "" →
  rejection (Some response) = Some (error_message response).
Proof.
  intros Hok Hmsg. unfold rejection, truthy.
  by rewrite !bool_decide_true by done.
Qed.

(** Output that cannot be parsed, or a response that does not say
    [ok: false], or one without a message, is not a rejection. *)
Lemma rejection_unstructured (out : option C4Response) :
  (∀ response, out = Some response →
               ok response = Some false → error_message response = "") →
  rejection out = None.
Proof.
  intros Hnot. unfold rejection. destruct out as [response|]; [|done].
  destruct (bool_decide (ok response = Some false)) eqn:Hok; simpl; [|done].
  apply bool_decide_eq_true in Hok.
  unfold truthy. by rewrite bool_decide_false by (rewrite (Hnot response eq_refl Hok); auto).
Qed.

(** C7. For non-empty content: when the first delivery attempt fails
    without a structured rejection (no parsable output, or a response
    that is not [ok: false] with a message) and the retry succeeds,
    [sendToC4] ends after exactly two attempts separated by the
    two-second pause, one message is delivered, and the run does not
    depend on the rejection callback, which is therefore never invoked;
    when the first attempt is answered by a structured rejection (a
    response with [ok: false] and a non-empty [error.message]), the run is
    one attempt followed by exactly one invocation of the callback with
    that message, and no retry. *)
Theorem sendToC4_retry_and_rejection w source endpoint content onReject :
  content ≠ "" →
  (∀ out,
     execFile env (tick w) endpoint content = ExecError out →
     (∀ response, out = Some response →
                  ok response = Some false → error_message response = "") →
     execFile env (tick w + 2)%nat endpoint content = ExecOk →
     ∃ w',
       (∀ onReject', sendToC4 env source endpoint content onReject' w = Ret tt w')
       ∧ trace w' = trace w ++ [EExecFile source endpoint content (ExecError out);
                                ESleep 2000;
                                EExecFile source endpoint content ExecOk]
       ∧ deliveries (trace w') = S (deliveries (trace w))
       ∧ attempts (trace w') = S (S (attempts (trace w))))
  ∧ (∀ response,
       execFile env (tick w) endpoint content = ExecError (Some response) →
       ok response = Some false →
       error_message response ≠ "" →
       ∀ callback,
         sendToC4 env source endpoint content (Some callback) w
         = callback (error_message response)
             (emit (EExecFile source endpoint content (ExecError (Some response))) w)
         ∧ attempts (trace (emit (EExecFile source endpoint content
                                    (ExecError (Some response))) w))
           = S (attempts (trace w))).
Proof.
  intros Hc. split.
  - intros out H1 Hrej%rejection_unstructured H2.
    exists (emit (EExecFile source endpoint content ExecOk)
              (emit (ESleep 2000)
                 (emit (EExecFile source endpoint content (ExecError out)) w))).
    split; [|split; [|split]].
    + intros onReject'. unfold sendToC4, callExecFile, truthy.
      rewrite bool_decide_true by done. run. rewrite H1, Hrej. run.
      rewrite !tick_emit.
      replace (S (S (tick w))) with (tick w + 2)%nat by lia.
      by rewrite H2.
    + simpl. by rewrite <- !app_assoc.
    + simpl. rewrite !deliveries_app. unfold deliveries at 2 3 4. simpl. lia.
    + simpl. rewrite !attempts_app. unfold attempts at 2 3 4. simpl. lia.
  - intros response H1 Hok Hmsg callback. split.
    + unfold sendToC4, callExecFile, truthy.
      rewrite bool_decide_true by done. run.
      by rewrite H1, (rejection_structured response Hok Hmsg).
    + simpl. rewrite attempts_app. unfold attempts at 2. simpl. lia.
Qed.

End Dispatch.

Section Policy.

Implicit Types (cfg : Config) (userId openId : option string).

(** Who the owner is: the binding is in force and one of the two
    identifiers is present on both sides and equal. *)
Lemma isOwner_spec cfg userId openId :
  isOwner cfg userId openId = true
  ↔ ∃ o, owner cfg = Some o
         ∧ bound o = true
         ∧ ((∃ id, user_id o = Some id ∧ userId = Some id)
            ∨ (∃ id, open_id o = Some id ∧ openId = Some id)).
Proof.
  unfold isOwner, sameId. split.
  - destruct (owner cfg) as [o|]; [|done].
    destruct (bound o) eqn:Hbound; simpl; [|done].
    intros H. exists o. split; [done|]. split; [done|].
    apply orb_true_iff in H as [H|H]; [left|right];
      repeat case_match; try done; apply bool_decide_eq_true in H; subst; eauto.
  - intros (o & -> & -> & [(id & -> & ->)|(id & -> & ->)]); simpl;
      rewrite bool_decide_true by done; [done|by rewrite orb_true_r].
Qed.

Lemma isDmAllowed_owner cfg userId openId :
  isOwner cfg userId openId = true → isDmAllowed cfg userId openId = true.
Proof. intros H. unfold isDmAllowed. by rewrite H. Qed.

(** For the owner the gate refuses in two situations only. *)
Lemma groupGate_owner cfg botId chatId userId openId mentions :
  isOwner cfg userId openId = true →
  denied (groupGate cfg botId chatId userId openId mentions) = true
  ↔ orS (groupPolicy cfg) "allowlist" = "disabled"
    ∨ (isGroupAllowed cfg chatId = false ∧ isBotMentioned mentions botId = false).
Proof.
  intros Howner. unfold groupGate. rewrite Howner.
  case_bool_decide as Hpol; simpl.
  - split; [intros _; by left|done].
  - rewrite andb_false_r.
    destruct (isGroupAllowed cfg chatId), (isBotMentioned mentions botId),
      (isSmartGroup cfg chatId); simpl; intuition congruence.
Qed.

(** C3 (as the code has it). A sender who matches the bound owner is
    always allowed by the direct-message evaluation, whatever [dmPolicy]
    and [dmAllowFrom] say, and is never refused by the per-group sender
    allowlist.  The group evaluation refuses the owner in exactly two
    situations: when [groupPolicy] is [disabled], and when the group is
    not allowed and the owner did not mention the bot. *)
Theorem owner_bypass cfg userId openId :
  isOwner cfg userId openId = true →
  isDmAllowed cfg userId openId = true
  ∧ (∀ botId chatId mentions,
       groupGate cfg botId chatId userId openId mentions ≠ GateSenderDenied)
  ∧ (∀ botId chatId mentions,
       denied (groupGate cfg botId chatId userId openId mentions) = true
       ↔ orS (groupPolicy cfg) "allowlist" = "disabled"
         ∨ (isGroupAllowed cfg chatId = false
            ∧ isBotMentioned mentions botId = false)).
Proof.
  intros Howner. split; [by apply isDmAllowed_owner|]. split.
  - intros botId chatId mentions. unfold groupGate. rewrite Howner.
    rewrite andb_false_r.
    repeat (case_bool_decide || case_match); done.
  - intros botId chatId mentions. by apply groupGate_owner.
Qed.

End Policy.

(** Counterexample to C3 as stated: under [groupPolicy = disabled] the
    owner, addressing the bot in a configured group, is refused; the event
    is answered with the refusal and never dispatched. *)
Lemma owner_denied_when_groups_disabled :
  isOwner config_disabled (Some "alice") (Some "ou_alice") = true
  ∧ groupGate config_disabled "ou_bot" "oc_team" (Some "alice") (Some "ou_alice")
      [mention_bot] = GateDisabled
  ∧ ∃ w', handleMessage env_up owner_group_message world_disabled = Ret GroupDisabled w'
          ∧ trace w' = [EReplyToMessage "om_7" "Sorry, group chat is currently disabled." true]
          ∧ attempts (trace w') = 0%nat.
Proof.
  split; [reflexivity|]. split; [reflexivity|].
  eexists. split; [vm_compute; reflexivity|]. split; reflexivity.
Qed.

Section OwnerBinding.

Variable env : Env.
Implicit Types (w : World) (userId openId : option string).

Lemma saveConfig_returns_undefined w c :
  writeFileSync_ok env (tick w) = true →
  saveConfig env c w
  = Ret JsUndefined (set_config (λ _, c) (set_disk (Some c) (emit (EWriteConfig true) w))).
Proof. intros H. unfold saveConfig, writeConfigFile. run. rewrite H. reflexivity. Qed.

Lemma saveConfig_throws w c :
  writeFileSync_ok env (tick w) = false →
  saveConfig env c w = Thrown (emit (EWriteConfig false) w).
Proof. intros H. unfold saveConfig, writeConfigFile. run. rewrite H. reflexivity. Qed.

(** The value [saveConfig] hands back is never truthy. *)
Lemma saveConfig_never_truthy w c v w' :
  saveConfig env c w = Ret v w' → truthyV v = false.
Proof.
  unfold saveConfig, writeConfigFile. run. destruct (writeFileSync_ok env (tick w)); run; [|done].
  by intros [= <- _].
Qed.

(** When the write fails the exception leaves [bindOwner] before the
    roll-back: the new owner stays in memory, the file is untouched. *)
Lemma bindOwner_when_save_throws w userId openId :
  writeFileSync_ok env (tick (resolved env userId w)) = false →
  bindOwner env userId openId w
  = Thrown (emit (EWriteConfig false)
              (set_config
                 (set_owner (Some (mkOwner true userId openId
                                     (resolved_name (resolution env w userId)))))
                 (resolved env userId w))).
Proof.
  intros H. unfold bindOwner, saveConfig, writeConfigFile. run.
  rewrite resolveUserName_eq. run. unfold tick in *. simpl in *. by rewrite H.
Qed.

(** When the write succeeds the roll-back runs: the file names the new
    owner, the memory the previous one, and the result is [null]. *)
Lemma bindOwner_when_save_returns w userId openId :
  writeFileSync_ok env (tick (resolved env userId w)) = true →
  ∃ w', bindOwner env userId openId w = Ret None w'
        ∧ owner (config w') = owner (config w)
        ∧ (owner <$> disk w')
          = Some (Some (mkOwner true userId openId
                          (resolved_name (resolution env w userId))))
        ∧ trace w' = trace w ++ resolutionCalls env w userId ++ [EWriteConfig true].
Proof.
  intros H. unfold bindOwner, saveConfig, writeConfigFile. run.
  rewrite resolveUserName_eq. run. unfold tick in *. simpl in *. rewrite H. run.
  eexists. split; [reflexivity|]. simpl. by rewrite <- app_assoc.
Qed.

(** [bindOwner] never reports success. *)
Lemma bindOwner_never_binds w userId openId n w' :
  bindOwner env userId openId w ≠ Ret (Some n) w'.
Proof.
  unfold bindOwner, saveConfig, writeConfigFile. run.
  rewrite resolveUserName_eq. run.
  destruct (writeFileSync_ok env _); run; done.
Qed.

(** The first direct message of an unbound deployment, with a working
    file system: the handler stops at [if (!boundOwner) return]. *)
Lemma handleMessage_first_direct_message w data :
  isSelf w (senderIdOf (sender data)) = false →
  processedMessages w !! msg_message_id (message data) = None →
  msg_chat_type (message data) = "p2p" →
  from_option bound false (owner (config w)) = false →
  (∀ n, writeFileSync_ok env n = true) →
  ∃ w' calls,
    handleMessage env data w = Ret OwnerBindingFailed w'
    ∧ owner (config w') = owner (config w)
    ∧ trace w' = trace w ++ calls ++ [EWriteConfig true]
    ∧ Forall (λ call, is_identity_call call = true) calls
    ∧ chatHistories w' = chatHistories w.
Proof.
  intros Hself Hfresh Hp2p Hunbound Hwrite.
  unfold handleMessage. run. rewrite Hself.
  unfold isDuplicate. destruct (truthy (msg_message_id (message data))); run.
  - rewrite bool_decide_false by (rewrite Hfresh; intros [? ?]; done).
    case_bool_decide; run; rewrite Hp2p; simpl;
      unfold handleDirect; run; rewrite Hunbound; simpl;
      unfold bindOwner, saveConfig, writeConfigFile; run;
      rewrite resolveUserName_eq; run; rewrite Hwrite; run;
      eexists _, _; (split; [reflexivity|]); simpl; rewrite <- app_assoc;
      (split; [done|]); (split; [reflexivity|]);
      (split; [apply resolutionCalls_identity|done]).
  - rewrite Hp2p. simpl.
    unfold handleDirect. run. rewrite Hunbound. simpl.
    unfold bindOwner, saveConfig, writeConfigFile. run.
    rewrite resolveUserName_eq. run. rewrite Hwrite. run.
    eexists _, _. split; [reflexivity|]. simpl. rewrite <- app_assoc.
    split; [done|]. split; [reflexivity|].
    split; [apply resolutionCalls_identity|done].
Qed.

End OwnerBinding.

(** C1, evaluated where the code leaves the claim: the write of the
    configuration file fails during [bindOwner]; the exception of
    [saveConfig] passes through [bindOwner], whose roll-back is skipped, so
    the memory names an owner that the file does not. *)
Lemma bindOwner_not_rolled_back_when_save_fails :
  ∃ w', bindOwner env_disk_full (Some "alice") (Some "ou_alice") world0 = Thrown w'
        ∧ (bound <$> owner (config world0)) = Some false
        ∧ owner (config w') = Some (mkOwner true (Some "alice") (Some "ou_alice") "alice")
        ∧ owner (config w') ≠ owner (config world0)
        ∧ disk w' = disk world0.
Proof. eexists. split; [vm_compute; reflexivity|]. done. Qed.

(** The same defect on the successful path: the file is written with the
    new owner and the memory is rolled back. *)
Lemma bindOwner_rolled_back_when_save_succeeds :
  ∃ w', bindOwner env_up (Some "alice") (Some "ou_alice") world0 = Ret None w'
        ∧ owner (config w') = owner (config world0)
        ∧ (owner <$> disk w')
          = Some (Some (mkOwner true (Some "alice") (Some "ou_alice") "alice")).
Proof. eexists. split; [vm_compute; reflexivity|]. done. Qed.

(** The same event when the write fails: the exception leaves the
    handler, with the sender bound in memory only. *)
Lemma first_direct_message_throws_when_save_fails :
  ∃ w', handleMessage env_disk_full first_dm world0 = Thrown w'
        ∧ (bound <$> owner (config w')) = Some true
        ∧ disk w' = None
        ∧ attempts (trace w') = 0%nat.
Proof. eexists. split; [vm_compute; reflexivity|]. done. Qed.

(** C2, evaluated where the code leaves the claim: the first direct
    message of an unbound deployment, every external call succeeding.  The
    handler returns after [bindOwner]; the owner is not bound in memory,
    nothing is logged and no delivery to the agent is attempted. *)
Lemma first_direct_message_is_not_forwarded :
  ∃ w', handleMessage env_up first_dm world0 = Ret OwnerBindingFailed w'
        ∧ (bound <$> owner (config w')) = Some false
        ∧ trace w' = [EGetUserInfo "alice" (UserInfo true "alice" 0 ""); EWriteConfig true]
        ∧ attempts (trace w') = 0%nat
        ∧ chatHistories w' = ∅.
Proof. eexists. split; [vm_compute; reflexivity|]. done. Qed.

Section SelfMessages.

Variable env : Env.

(** C10. An event whose sender identifier (the first present among
    [open_id], [app_id] and [user_id]) is one of the bot's own
    identifiers ends [handleMessage] at once: the state of the process,
    its trace of external calls included, is what it was, so nothing is
    logged, recorded, indicated or dispatched. *)
Theorem self_message_suppressed (data : Data) (w : World) :
  senderIdOf (sender data) ≠ "" →
  senderIdOf (sender data)
    ∈ [botAppId w; botOpenId w; app_id (config w); bot_open_id (config w)] →
  handleMessage env data w = Ret SelfMessage w.
Proof.
  intros Hid Hbot. unfold handleMessage. run.
  assert (isSelf w (senderIdOf (sender data)) = true) as ->; [|done].
  unfold isSelf, truthy. rewrite bool_decide_true by done. simpl.
  rewrite !orb_true_iff, !bool_decide_eq_true.
  rewrite !elem_of_cons, elem_of_nil in Hbot. tauto.
Qed.

End SelfMessages.

Section LedgerBounds.

Implicit Types (w : World) (id e : string).

(** After a new event has been recorded the ledger holds at most 200
    entries, or only entries that have not expired. *)
Theorem isDuplicate_soft_cap w id :
  id ≠ "" →
  processedMessages w !! id = None →
  (size (processedMessages (final (isDuplicate id w))) ≤ 200)%nat
  ∨ ∀ e t, processedMessages (final (isDuplicate id w)) !! e = Some t →
           clock w - t ≤ DEDUP_TTL.
Proof.
  intros Hid Hnew. unfold isDuplicate, truthy.
  rewrite bool_decide_true by done. run.
  rewrite bool_decide_false by (rewrite Hnew; intros [? ?]; done). run.
  case_bool_decide as Hsize; run.
  - right. intros e t Hl. by apply deleteExpired_lookup in Hl as [_ ?].
  - left. lia.
Qed.

(** Whatever event is checked, an entry that has not expired stays in
    the ledger with its time: the clean-up of a full ledger never makes
    room by forgetting a live event. *)
Theorem isDuplicate_keeps_live_entries w id e t :
  processedMessages w !! e = Some t →
  clock w - t ≤ DEDUP_TTL →
  processedMessages (final (isDuplicate id w)) !! e = Some t.
Proof.
  intros Hl Hlive. destruct (decide (id = e)) as [->|Hne].
  - destruct (decide (e = "")) as [->|He]; [done|].
    by rewrite (isDuplicate_seen w e t).
  - destruct (isDuplicate_other_lookup id e w Hne) as [->|[_ (t' & Ht' & Hout)]]; [done|].
    rewrite Hl in Ht'. injection Ht' as <-. lia.
Qed.

End LedgerBounds.

Section HistoryCache.

Variable env : Env.
Implicit Types (cfg : Config) (hs : gmap string (list Entry)).
Implicit Types (e : Entry) (k cur : string) (h : list Entry).

(** *** [slice] with a negative start *)

Lemma slice_last_n {A} (n : Z) (l : list A) :
  0 < n → slice (- n) l = drop (List.length l - Z.to_nat n) l.
Proof.
  intros Hn. unfold slice. rewrite bool_decide_true by lia. f_equal. lia.
Qed.

Lemma slice_last_n_length {A} (n : Z) (l : list A) :
  0 < n → Z.of_nat (List.length (slice (- n) l)) = Z.min n (Z.of_nat (List.length l)).
Proof. intros Hn. rewrite slice_last_n by done. rewrite length_drop. lia. Qed.

Lemma slice_last_n_snoc {A} (n : Z) (l : list A) (x : A) :
  0 < n → slice (- n) (l ++ [x]) = drop (List.length l + 1 - Z.to_nat n) l ++ [x].
Proof.
  intros Hn. rewrite slice_last_n by done. rewrite length_app. simpl.
  by rewrite drop_app_le by lia.
Qed.

(** *** The buffer under the recorded key *)

Lemma recordHistoryEntry_lookup cfg k e hs :
  recordHistoryEntry cfg k e hs !! k
  = Some (let h := default [] (hs !! k) in
          if truthy (message_id e) && existsb (has_message_id (message_id e)) h then h
          else if bool_decide (getGroupHistoryLimit cfg (baseChatId k) * 2
                               < Z.of_nat (List.length (h ++ [e])))
               then slice (- getGroupHistoryLimit cfg (baseChatId k)) (h ++ [e])
               else h ++ [e]).
Proof.
  unfold recordHistoryEntry.
  destruct (hs !! k) as [h|] eqn:Hk; simpl.
  - rewrite Hk. simpl. destruct (_ && _); [done|].
    case_bool_decide; by rewrite lookup_insert_eq.
  - rewrite lookup_insert_eq. simpl. rewrite andb_false_r.
    case_bool_decide; by rewrite lookup_insert_eq.
Qed.

Lemma existsb_has_message_id id h :
  existsb (has_message_id id) h = true ↔ id ∈ message_id <$> h.
Proof.
  rewrite existsb_exists, list_elem_of_fmap. unfold has_message_id.
  split.
  - intros (x & Hin & Hx). apply bool_decide_eq_true in Hx.
    exists x. split; [done|]. by apply list_elem_of_In.
  - intros (x & -> & Hin). exists x. split; [by apply list_elem_of_In|].
    by apply bool_decide_eq_true.
Qed.

(** Once recorded, the message id is in the buffer. *)
Lemma recordHistoryEntry_has_id cfg k e hs :
  0 < getGroupHistoryLimit cfg (baseChatId k) →
  message_id e ≠ "" →
  ∃ h, recordHistoryEntry cfg k e hs !! k = Some h
       ∧ existsb (has_message_id (message_id e)) h = true.
Proof.
  intros Hlim Hid. rewrite recordHistoryEntry_lookup. eexists. split; [reflexivity|].
  simpl. unfold truthy. rewrite bool_decide_true by done. simpl.
  destruct (existsb (has_message_id (message_id e)) (default [] (hs !! k))) eqn:Hdup;
    simpl; [done|].
  case_bool_decide.
  - rewrite slice_last_n_snoc by done. rewrite existsb_app. simpl.
    unfold has_message_id at 2. rewrite bool_decide_true by done.
    by rewrite orb_true_r.
  - rewrite existsb_app. simpl. unfold has_message_id at 2.
    rewrite bool_decide_true by done. by rewrite orb_true_r.
Qed.

(** Recording is idempotent by message id: the second recording of an
    entry (lazy backfill and live traffic overlap) changes nothing. *)
Theorem recordHistoryEntry_idempotent cfg k e hs :
  0 < getGroupHistoryLimit cfg (baseChatId k) →
  message_id e ≠ "" →
  recordHistoryEntry cfg k e (recordHistoryEntry cfg k e hs)
  = recordHistoryEntry cfg k e hs.
Proof.
  intros Hlim Hid.
  destruct (recordHistoryEntry_has_id cfg k e hs Hlim Hid) as (h & Hh & Hdup).
  unfold recordHistoryEntry at 1. rewrite Hh. simpl. rewrite Hh. simpl.
  unfold truthy. rewrite bool_decide_true by done. simpl. by rewrite Hdup.
Qed.

(** The buffer never grows beyond twice the limit. *)
Theorem recordHistoryEntry_bounded cfg k e hs :
  0 < getGroupHistoryLimit cfg (baseChatId k) →
  Z.of_nat (List.length (default [] (hs !! k)))
    ≤ 2 * getGroupHistoryLimit cfg (baseChatId k) →
  Z.of_nat (List.length (default [] (recordHistoryEntry cfg k e hs !! k)))
    ≤ 2 * getGroupHistoryLimit cfg (baseChatId k).
Proof.
  intros Hlim Hbound. rewrite recordHistoryEntry_lookup. simpl.
  destruct (_ && _); [done|].
  case_bool_decide as Hfull.
  - rewrite slice_last_n_length by done. lia.
  - lia.
Qed.

(** When the buffer overflows it is cut to the most recent [limit]
    entries, the new entry last. *)
Theorem recordHistoryEntry_compacts cfg k e hs h :
  0 < getGroupHistoryLimit cfg (baseChatId k) →
  hs !! k = Some h →
  (truthy (message_id e) && existsb (has_message_id (message_id e)) h) = false →
  Z.of_nat (List.length h) = 2 * getGroupHistoryLimit cfg (baseChatId k) →
  ∃ kept,
    recordHistoryEntry cfg k e hs !! k = Some (kept ++ [e])
    ∧ kept `suffix_of` h
    ∧ Z.of_nat (List.length (kept ++ [e])) = getGroupHistoryLimit cfg (baseChatId k).
Proof.
  intros Hlim Hk Hnew Hlen. rewrite recordHistoryEntry_lookup. rewrite Hk. simpl.
  rewrite Hnew. rewrite bool_decide_true by (rewrite length_app; simpl; lia).
  rewrite slice_last_n_snoc by done.
  eexists. split; [reflexivity|]. split; [apply suffix_drop|].
  rewrite length_app, length_drop. simpl. lia.
Qed.

(** *** Reading *)

Lemma slice_window {A} (lim : Z) (l : list A) :
  0 < lim →
  slice (- Z.min lim (Z.of_nat (List.length l))) l
  = drop (List.length l - Z.to_nat lim) l.
Proof.
  intros Hlim. destruct l as [|x l]; [unfold slice; by rewrite !drop_nil|].
  rewrite slice_last_n by (simpl; lia). f_equal. simpl. lia.
Qed.

(** A read is the last [limit] entries of the buffer without the current
    message. *)
Lemma getInMemoryContext_eq cfg hs k cur :
  0 < getGroupHistoryLimit cfg (baseChatId k) →
  getInMemoryContext cfg hs k cur
  = drop (List.length (List.filter (λ m, negb (has_message_id cur m))
                         (default [] (hs !! k)))
          - Z.to_nat (getGroupHistoryLimit cfg (baseChatId k)))
         (List.filter (λ m, negb (has_message_id cur m)) (default [] (hs !! k))).
Proof.
  intros Hlim. unfold getInMemoryContext.
  destruct (hs !! k) as [[|a h]|]; [done| |done].
  cbv beta zeta. by rewrite slice_window.
Qed.

Lemma filter_sublist {A} (p : A → bool) (l : list A) : List.filter p l `sublist_of` l.
Proof.
  induction l as [|x l IH]; simpl; [done|].
  destruct (p x); [by apply sublist_skip|by apply sublist_cons].
Qed.

Lemma getInMemoryContext_length cfg hs k cur :
  0 < getGroupHistoryLimit cfg (baseChatId k) →
  Z.of_nat (List.length (getInMemoryContext cfg hs k cur))
    ≤ getGroupHistoryLimit cfg (baseChatId k).
Proof. intros Hlim. rewrite getInMemoryContext_eq by done. rewrite length_drop. lia. Qed.

Lemma getInMemoryContext_excludes cfg hs k cur m :
  0 < getGroupHistoryLimit cfg (baseChatId k) →
  m ∈ getInMemoryContext cfg hs k cur → message_id m ≠ cur.
Proof.
  intros Hlim. rewrite getInMemoryContext_eq by done. intros Hm.
  apply (λ H, elem_of_sublist _ _ _ H (sublist_drop _ _)) in Hm.
  apply list_elem_of_In, List.filter_In in Hm as [_ Hm].
  unfold has_message_id in Hm. apply negb_true_iff, bool_decide_eq_false in Hm. done.
Qed.

(** For a positive history limit, a read returns at most [limit]
    entries, all of them from the buffer in their order, and never the
    current message.  (The limit is taken from the configuration as it is:
    for a negative one the bound fails, see
    [negative_limit_read_exceeds_limit].) *)
Theorem getInMemoryContext_window cfg hs k cur :
  0 < getGroupHistoryLimit cfg (baseChatId k) →
  Z.of_nat (List.length (getInMemoryContext cfg hs k cur))
    ≤ getGroupHistoryLimit cfg (baseChatId k)
  ∧ getInMemoryContext cfg hs k cur `sublist_of` default [] (hs !! k)
  ∧ ∀ m, m ∈ getInMemoryContext cfg hs k cur → message_id m ≠ cur.
Proof.
  intros Hlim. split; [by apply getInMemoryContext_length|]. split.
  - rewrite getInMemoryContext_eq by done.
    etrans; [apply sublist_drop|apply filter_sublist].
  - intros m. by apply getInMemoryContext_excludes.
Qed.

(** For a positive history limit, what was just recorded is read back:
    after a new entry has been recorded, a read that excludes some other
    message ends with it.  (For a negative limit the entry is cut away at
    once, see [negative_limit_loses_recorded_entry].) *)
Theorem getInMemoryContext_after_record cfg hs k e cur :
  0 < getGroupHistoryLimit cfg (baseChatId k) →
  message_id e ≠ cur →
  (truthy (message_id e)
   && existsb (has_message_id (message_id e)) (default [] (hs !! k))) = false →
  last (getInMemoryContext cfg (recordHistoryEntry cfg k e hs) k cur) = Some e.
Proof.
  intros Hlim Hne Hnew. rewrite getInMemoryContext_eq by done.
  rewrite recordHistoryEntry_lookup. simpl. rewrite Hnew.
  assert (∃ pre, (if bool_decide (getGroupHistoryLimit cfg (baseChatId k) * 2
                                  < Z.of_nat (List.length (default [] (hs !! k) ++ [e])))
                  then slice (- getGroupHistoryLimit cfg (baseChatId k))
                         (default [] (hs !! k) ++ [e])
                  else default [] (hs !! k) ++ [e]) = pre ++ [e]) as [pre ->].
  { case_bool_decide; [rewrite slice_last_n_snoc by done|]; eauto. }
  rewrite List.filter_app. simpl. unfold has_message_id at 2 4.
  rewrite bool_decide_false by done. simpl.
  rewrite length_app. simpl. rewrite drop_app_le by lia. apply last_snoc.
Qed.

(** With a negative limit a read of a buffer of three entries returns
    two of them, and an entry recorded into an empty buffer is cut away
    by the compaction before it can be read. *)
Lemma negative_limit_read_exceeds_limit :
  getGroupHistoryLimit config_negative_limit "oc_team" = -1
  ∧ List.length
      (getInMemoryContext config_negative_limit
         {[ "oc_team" := [entry_of "om_1" "a"; entry_of "om_2" "b"; entry_of "om_3" "c"] ]}
         "oc_team" "om_9") = 2%nat.
Proof. split; reflexivity. Qed.

Lemma negative_limit_loses_recorded_entry :
  last (getInMemoryContext config_negative_limit
          (recordHistoryEntry config_negative_limit "oc_team" (entry_of "om_1" "a") ∅)
          "oc_team" "om_9") = None.
Proof. reflexivity. Qed.

(** *** Message ids stay unique *)

Lemma filter_sublist_mono {A} (P : A → Prop) `{!∀ x, Decision (P x)} (l1 l2 : list A) :
  l1 `sublist_of` l2 → filter P l1 `sublist_of` filter P l2.
Proof.
  induction 1 as [|x l1 l2 _ IH|x l1 l2 _ IH]; [done| |];
    rewrite ?filter_cons; destruct (decide (P x)); auto using sublist_skip, sublist_cons.
Qed.

Lemma slice_sublist {A} (z : Z) (l : list A) : slice z l `sublist_of` l.
Proof. unfold slice. apply sublist_drop. Qed.

(** No two entries of a buffer carry the same non-empty message id, and
    recording keeps it so. *)
Theorem recordHistoryEntry_unique_ids cfg k e hs :
  NoDup (filter (λ id, id ≠ "") (message_id <$> default [] (hs !! k))) →
  NoDup (filter (λ id, id ≠ "")
           (message_id <$> default [] (recordHistoryEntry cfg k e hs !! k))).
Proof.
  intros Hnodup. rewrite recordHistoryEntry_lookup. simpl.
  destruct (truthy (message_id e)
            && existsb (has_message_id (message_id e)) (default [] (hs !! k)))
    eqn:Hdup; [done|].
  assert (NoDup (filter (λ id, id ≠ "")
                   (message_id <$> default [] (hs !! k) ++ [e]))) as Hpushed.
  { rewrite fmap_app, filter_app. simpl. rewrite filter_cons, filter_nil.
    destruct (decide (message_id e ≠ "")) as [Hid|Hid]; [|by rewrite app_nil_r].
    apply NoDup_app. split; [done|]. split; [|apply NoDup_singleton].
    intros id Hin ->%list_elem_of_singleton.
    apply list_elem_of_filter in Hin as [_ Hin].
    apply existsb_has_message_id in Hin.
    unfold truthy in Hdup. rewrite bool_decide_true in Hdup by done. simpl in Hdup.
    congruence. }
  case_bool_decide; [|done].
  eapply sublist_NoDup; [exact Hpushed|].
  apply filter_sublist_mono, fmap_sublist, slice_sublist.
Qed.

(** *** Backfill order *)

Lemma compareCreateTime_dates (a b : RemoteMessage) :
  - MAX_DATE ≤ r_createTime a ≤ MAX_DATE →
  - MAX_DATE ≤ r_createTime b ≤ MAX_DATE →
  compareCreateTime a b = r_createTime a - r_createTime b.
Proof.
  intros Ha Hb. unfold compareCreateTime, dateValue, isDate.
  by rewrite !bool_decide_true by done.
Qed.

(** A creation time that is no date compares as equal to every other. *)
Lemma compareCreateTime_no_date (a b : RemoteMessage) :
  ¬ (- MAX_DATE ≤ r_createTime a ≤ MAX_DATE) → compareCreateTime a b = 0.
Proof.
  intros Ha. unfold compareCreateTime, dateValue, isDate.
  by rewrite (bool_decide_false _ Ha).
Qed.

Lemma insertSorted_perm {A} (compare : A → A → Z) x l :
  insertSorted compare x l ≡ₚ x :: l.
Proof.
  induction l as [|y l IH]; simpl; [done|].
  case_bool_decide; [done|]. rewrite IH. apply Permutation_swap.
Qed.

Lemma stableSort_perm {A} (compare : A → A → Z) l : stableSort compare l ≡ₚ l.
Proof.
  unfold stableSort. induction l as [|x l IH]; simpl; [done|].
  rewrite insertSorted_perm. by constructor.
Qed.

(** An element that compares [≤ 0] with everything stays in front. *)
Lemma insertSorted_front {A} (compare : A → A → Z) x l :
  (∀ y, compare x y ≤ 0) → insertSorted compare x l = x :: l.
Proof. intros Hx. destruct l as [|y l]; simpl; [done|]. by rewrite bool_decide_true. Qed.

Lemma insertSorted_sorted (m : RemoteMessage) l :
  - MAX_DATE ≤ r_createTime m ≤ MAX_DATE →
  Forall (λ x, - MAX_DATE ≤ r_createTime x ≤ MAX_DATE) l →
  Sorted (λ a b, r_createTime a ≤ r_createTime b) l →
  Sorted (λ a b, r_createTime a ≤ r_createTime b) (insertSorted compareCreateTime m l).
Proof.
  intros Hm. induction l as [|x l IH]; simpl; intros Hl Hs.
  - by repeat constructor.
  - apply Forall_cons in Hl as [Hx Hl].
    rewrite (compareCreateTime_dates m x Hm Hx).
    case_bool_decide as Hle.
    + constructor; [done|]. constructor. lia.
    + apply Sorted_inv in Hs as [Hs Hhd]. constructor; [by apply IH|].
      destruct l as [|y l]; simpl.
      * constructor. lia.
      * apply Forall_cons in Hl as [Hy _].
        rewrite (compareCreateTime_dates m y Hm Hy).
        case_bool_decide; constructor; [lia|]. by apply HdRel_inv in Hhd.
Qed.

Lemma snd_imap_pair {A B} (g : nat → B) (l : list A) :
  snd <$> imap (λ i x, (g i, x)) l = l.
Proof.
  revert g. induction l as [|x l IH]; intros g; simpl; [done|].
  f_equal. apply (IH (g ∘ S)).
Qed.

(** Whatever places the engine assigns, its order loses and invents
    nothing. *)
Lemma engineSort_perm {A} (places : list Z) (l : list A) : engineSort places l ≡ₚ l.
Proof.
  unfold engineSort. rewrite stableSort_perm. by rewrite snd_imap_pair.
Qed.

Lemma consistentTimes_dates l :
  Forall (λ m, - MAX_DATE ≤ r_createTime m ≤ MAX_DATE) l → consistentTimes l = true.
Proof.
  intros Hl. unfold consistentTimes. apply orb_true_iff. left.
  apply forallb_forall. intros m Hm%list_elem_of_In.
  rewrite Forall_forall in Hl. unfold isDate. by apply bool_decide_eq_true, Hl.
Qed.

Lemma consistentTimes_no_dates l :
  Forall (λ m, ¬ (- MAX_DATE ≤ r_createTime m ≤ MAX_DATE)) l → consistentTimes l = true.
Proof.
  intros Hl. unfold consistentTimes. apply orb_true_iff. right.
  rewrite Forall_forall in Hl.
  apply forallb_forall. intros a Ha%list_elem_of_In.
  apply forallb_forall. intros b _.
  apply bool_decide_eq_true, compareCreateTime_no_date. by apply Hl.
Qed.

(** The sort of the backfill loses and invents nothing, whatever the
    engine.  When every creation time is a date, the messages come out
    oldest first.  When none is, every comparison is [NaN] and the
    messages stay in the order the platform returned them in. *)
Theorem sortByCreateTime_chronological engine l :
  sortByCreateTime engine l ≡ₚ l
  ∧ (Forall (λ m, - MAX_DATE ≤ r_createTime m ≤ MAX_DATE) l →
     Sorted (λ a b, r_createTime a ≤ r_createTime b) (sortByCreateTime engine l))
  ∧ (Forall (λ m, ¬ (- MAX_DATE ≤ r_createTime m ≤ MAX_DATE)) l →
     sortByCreateTime engine l = l).
Proof.
  split; [|split].
  - unfold sortByCreateTime.
    destruct (consistentTimes l); [apply stableSort_perm|apply engineSort_perm].
  - intros Hl. unfold sortByCreateTime. rewrite (consistentTimes_dates l Hl).
    unfold stableSort. induction l as [|m l IH]; simpl; [constructor|].
    apply Forall_cons in Hl as [Hm Hl].
    apply insertSorted_sorted; [done| |by apply IH].
    by rewrite (stableSort_perm compareCreateTime l : foldr _ [] l ≡ₚ l).
  - intros Hl. unfold sortByCreateTime. rewrite (consistentTimes_no_dates l Hl).
    unfold stableSort. induction l as [|m l IH]; simpl; [done|].
    apply Forall_cons in Hl as [Hm Hl]. rewrite (IH Hl).
    apply insertSorted_front. intros y.
    by rewrite (compareCreateTime_no_date m y Hm).
Qed.

(** *** Context reads never fail *)

(** Whatever the history API answers, success, failure or an exception,
    a context read comes back with the in-memory window of the state it
    leaves behind and does not touch the configuration. *)
Lemma getContextWithFallback_returns w cId cur cT k lim :
  ∃ w', getContextWithFallback env cId cur cT k lim w
        = Ret (getInMemoryContext (config w') (chatHistories w') k cur) w'
        ∧ config w' = config w.
Proof.
  exists (final (getContextWithFallback env cId cur cT k lim w)).
  unfold getContextWithFallback, callListMessages, readInMemory. run.
  case_bool_decide; run; [done|].
  destruct (listMessages env _ _ _ _) as [[|] msgs|]; run; [|done..].
  match goal with
  | |- context [recordAll env k ?l ?w0] =>
      destruct (recordAll_returns env w0 k l) as (w1 & calls & Hrun & Hcfg & _)
  end.
  rewrite Hrun. simpl in *. done.
Qed.

(** A context read, cold or warm, never fails, never returns more than
    the read limit, and never returns the message being handled. *)
Theorem getContextWithFallback_safe w cId cur cT k lim :
  0 < getGroupHistoryLimit (config w) (baseChatId k) →
  ∃ ctx w',
    getContextWithFallback env cId cur cT k lim w = Ret ctx w'
    ∧ Z.of_nat (List.length ctx) ≤ getGroupHistoryLimit (config w) (baseChatId k)
    ∧ ∀ m, m ∈ ctx → message_id m ≠ cur.
Proof.
  intros Hlim.
  destruct (getContextWithFallback_returns w cId cur cT k lim) as (w' & Hrun & Hcfg).
  eexists _, w'. split; [exact Hrun|]. rewrite <- Hcfg in *.
  split; [by apply getInMemoryContext_length|].
  intros m. by apply getInMemoryContext_excludes.
Qed.

(** *** The audit log and the cache *)

(** A direct message outside a thread is written, under the resolved
    name of its sender, to the audit log of that sender and never enters
    the context cache. *)
Theorem logMessage_direct_not_cached w chatId userId openId txt messageId ts mentions :
  ∃ entry,
    message_id entry = messageId
    ∧ user_name entry = resolved_name (resolution env w userId)
    ∧ logMessage env "p2p" chatId userId openId txt messageId ts mentions "" w
      = Ret tt (emit (EAppendLog (String_ userId) "" entry) (resolved env userId w))
    ∧ chatHistories (emit (EAppendLog (String_ userId) "" entry) (resolved env userId w))
      = chatHistories w.
Proof.
  exists (mkEntry (orZ ts (clock w)) messageId userId openId
            (resolved_name (resolution env w userId)) (resolveMentions txt mentions)).
  unfold logMessage. run. rewrite resolveUserName_eq. done.
Qed.

(** A group message outside a thread is logged under the chat and
    recorded in the chat's own buffer. *)
Theorem logMessage_group_cached w chatId userId openId txt messageId ts mentions :
  ∃ entry w',
    message_id entry = messageId
    ∧ logMessage env "group" chatId userId openId txt messageId ts mentions "" w
      = Ret tt w'
    ∧ trace w' = trace w ++ resolutionCalls env w userId ++ [EAppendLog chatId "" entry]
    ∧ chatHistories w' = recordHistoryEntry (config w) chatId entry (chatHistories w).
Proof.
  exists (mkEntry (orZ ts (clock w)) messageId userId openId
            (resolved_name (resolution env w userId)) (resolveMentions txt mentions)).
  exists (final (logMessage env "group" chatId userId openId txt messageId ts mentions "" w)).
  unfold logMessage. run. rewrite resolveUserName_eq. simpl.
  by rewrite <- app_assoc.
Qed.

End HistoryCache.

Section GroupPolicy.

Implicit Types (cfg : Config) (chatId : string).

(** A smart group is always an allowed group, under every policy and for
    both the groups map and the legacy arrays. *)
Theorem isSmartGroup_allowed cfg chatId :
  isSmartGroup cfg chatId = true → isGroupAllowed cfg chatId = true.
Proof.
  unfold isSmartGroup, isGroupAllowed.
  case_bool_decide; [done|]. case_bool_decide; [done|].
  destruct (resolveGroupConfig cfg chatId); [done|].
  intros ->. by rewrite orb_true_r.
Qed.

Lemma lowerAscii_idempotent c : lowerAscii (lowerAscii c) = lowerAscii c.
Proof. by destruct c as [[] [] [] [] [] [] [] []]. Qed.

Lemma toLowerCase_idempotent s : toLowerCase (toLowerCase s) = toLowerCase s.
Proof.
  induction s as [|c s IH]; simpl; [done|]. by rewrite lowerAscii_idempotent, IH.
Qed.

Lemma truthy_toLowerCase s : truthy (toLowerCase s) = truthy s.
Proof. by destruct s. Qed.

(** The per-group sender allowlist does not look at the case of the
    sender's identifiers. *)
Theorem isSenderAllowedInGroup_case_insensitive cfg chatId
    (senderUserId senderOpenId : option string) :
  isSenderAllowedInGroup cfg chatId (toLowerCase <$> senderUserId)
    (toLowerCase <$> senderOpenId)
  = isSenderAllowedInGroup cfg chatId senderUserId senderOpenId.
Proof.
  unfold isSenderAllowedInGroup.
  destruct (resolveGroupConfig cfg chatId) as [g|]; [|done].
  destruct (allowFrom g); [done|].
  assert (∀ o : option string,
            toLowerCase (default "" (toLowerCase <$> o)) = toLowerCase (default "" o))
    as Hlow.
  { intros [x|]; simpl; [apply toLowerCase_idempotent|done]. }
  by rewrite !Hlow.
Qed.

(** Nor at the case of the entries of the list: a sender whose user id
    equals an entry up to case is allowed. *)
Theorem isSenderAllowedInGroup_listed cfg chatId g (userId entry : string)
    (senderOpenId : option string) :
  resolveGroupConfig cfg chatId = Some g →
  entry ∈ allowFrom g →
  userId ≠ "" →
  toLowerCase userId = toLowerCase entry →
  isSenderAllowedInGroup cfg chatId (Some userId) senderOpenId = true.
Proof.
  intros Hg Hin Hu Heq. unfold isSenderAllowedInGroup. rewrite Hg.
  destruct (allowFrom g) as [|a l] eqn:Hl; [done|].
  case_match; [done|]. simpl.
  rewrite truthy_toLowerCase. unfold truthy at 1. rewrite bool_decide_true by done.
  unfold includes at 1. rewrite bool_decide_true; [done|].
  rewrite Heq. exact (list_elem_of_fmap_2 toLowerCase (a :: l) entry Hin).
Qed.

End GroupPolicy.

Section Handler.

Variable env : Env.
Implicit Types (w : World) (data : Data).

(** An event that is new to the ledger passes the duplicate check, which
    touches nothing but the ledger. *)
Lemma isDuplicate_new w id :
  processedMessages w !! id = None →
  ∃ pm, isDuplicate id w = Ret false (set_processedMessages (λ _, pm) w).
Proof.
  intros Hnew. unfold isDuplicate. destruct (truthy id); run.
  - rewrite bool_decide_false by (rewrite Hnew; intros [? ?]; done). run.
    case_bool_decide; run; eexists; destruct w; reflexivity.
  - exists (processedMessages w). by destruct w.
Qed.

Lemma handleMessage_new w data pm :
  isSelf w (senderIdOf (sender data)) = false →
  isDuplicate (msg_message_id (message data)) w
  = Ret false (set_processedMessages (λ _, pm) w) →
  handleMessage env data w
  = (let m := message data in
     let x := extractMessageContent m in
     let logText := buildLogText x (msg_message_id m) in
     let endpoint :=
       buildEndpoint (msg_chat_id m) (msg_chat_type m) (msg_root_id m) (msg_parent_id m)
         (msg_message_id m) (msg_thread_id m) in
     if bool_decide (msg_chat_type m = "p2p") then handleDirect env data x logText endpoint
     else if bool_decide (msg_chat_type m = "group")
          then handleGroup env data x logText endpoint
     else ret Ignored) (set_processedMessages (λ _, pm) w).
Proof.
  intros Hself Hdup. unfold handleMessage. run. rewrite Hself, Hdup. reflexivity.
Qed.

(** A second delivery of an event (by either transport) is dropped
    without any effect, as long as its id is in the ledger. *)
Theorem handleMessage_duplicate_dropped w data t :
  isSelf w (senderIdOf (sender data)) = false →
  msg_message_id (message data) ≠ "" →
  processedMessages w !! msg_message_id (message data) = Some t →
  handleMessage env data w = Ret Duplicate w.
Proof.
  intros Hself Hid Hseen. unfold handleMessage. run. rewrite Hself.
  by rewrite (isDuplicate_seen w _ t).
Qed.

(** An event of a chat that is neither private nor a group is recorded
    in the ledger and otherwise ignored. *)
Theorem handleMessage_other_chat_type w data :
  isSelf w (senderIdOf (sender data)) = false →
  processedMessages w !! msg_message_id (message data) = None →
  msg_chat_type (message data) ≠ "p2p" →
  msg_chat_type (message data) ≠ "group" →
  ∃ w', handleMessage env data w = Ret Ignored w'
        ∧ trace w' = trace w
        ∧ chatHistories w' = chatHistories w
        ∧ config w' = config w.
Proof.
  intros Hself Hnew Hp Hg. destruct (isDuplicate_new w _ Hnew) as [pm Hdup].
  rewrite (handleMessage_new w data pm Hself Hdup). simpl.
  rewrite !bool_decide_false by done. eexists. split; [reflexivity|]. done.
Qed.

(** A group event that the gate refuses is never logged, cached,
    indicated or dispatched; the sender gets one reply if they mentioned
    the bot and none otherwise. *)
Theorem handleMessage_denied_group_event w data :
  isSelf w (senderIdOf (sender data)) = false →
  processedMessages w !! msg_message_id (message data) = None →
  msg_chat_type (message data) = "group" →
  denied (groupGate (config w) (botOpenId w) (msg_chat_id (message data))
            (s_user_id (sender data)) (s_open_id (sender data))
            (msg_mentions (message data))) = true →
  ∃ out w',
    handleMessage env data w = Ret out w'
    ∧ out ∈ [GroupDisabled; GroupNotAllowed; SenderNotAllowed]
    ∧ chatHistories w' = chatHistories w
    ∧ activeTypingIndicators w' = activeTypingIndicators w
    ∧ attempts (trace w') = attempts (trace w)
    ∧ (if isBotMentioned (msg_mentions (message data)) (botOpenId w)
       then ∃ reply success,
              trace w' = trace w ++ [EReplyToMessage (msg_message_id (message data))
                                       reply success]
       else trace w' = trace w).
Proof.
  intros Hself Hnew Hgroup Hdenied. destruct (isDuplicate_new w _ Hnew) as [pm Hdup].
  rewrite (handleMessage_new w data pm Hself Hdup). simpl.
  rewrite Hgroup. simpl. unfold handleGroup, replyToMessage. run.
  destruct (groupGate _ _ _ _ _ _); try done;
    destruct (isBotMentioned _ _); run;
      eexists _, _; (split; [reflexivity|]); simpl;
        (split; [set_solver|]); repeat split; eauto;
          rewrite attempts_app; unfold attempts at 2; simpl; lia.
Qed.

(** Under [groupPolicy = disabled] no group event is ever forwarded,
    whoever sends it and whether or not the bot is mentioned. *)
Theorem handleMessage_groups_disabled w data :
  isSelf w (senderIdOf (sender data)) = false →
  processedMessages w !! msg_message_id (message data) = None →
  msg_chat_type (message data) = "group" →
  groupPolicy (config w) = "disabled" →
  ∃ w', handleMessage env data w = Ret GroupDisabled w'
        ∧ attempts (trace w') = attempts (trace w)
        ∧ chatHistories w' = chatHistories w.
Proof.
  intros Hself Hnew Hgroup Hpol. destruct (isDuplicate_new w _ Hnew) as [pm Hdup].
  rewrite (handleMessage_new w data pm Hself Hdup). simpl.
  rewrite Hgroup. simpl. unfold handleGroup, replyToMessage, groupGate. run.
  rewrite Hpol. simpl.
  destruct (isBotMentioned _ _); run; eexists; (split; [reflexivity|]); simpl;
    [|done]. split; [|done].
  rewrite attempts_app. unfold attempts at 2. simpl. lia.
Qed.

(** A direct message from a sender the policy does not allow is answered
    with the refusal and nothing else happens: no log, no indicator, no
    dispatch, no change of the configuration. *)
Theorem handleMessage_direct_rejected w data :
  isSelf w (senderIdOf (sender data)) = false →
  processedMessages w !! msg_message_id (message data) = None →
  msg_chat_type (message data) = "p2p" →
  from_option bound false (owner (config w)) = true →
  isDmAllowed (config w) (s_user_id (sender data)) (s_open_id (sender data)) = false →
  ∃ w', handleMessage env data w = Ret DmRejected w'
        ∧ trace w' = trace w ++ [ESendMessage (msg_chat_id (message data))
            "Sorry, I'm not available for private messages. Please ask my owner to grant you access."]
        ∧ config w' = config w
        ∧ disk w' = disk w
        ∧ chatHistories w' = chatHistories w
        ∧ activeTypingIndicators w' = activeTypingIndicators w.
Proof.
  intros Hself Hnew Hp2p Hbound Hdm. destruct (isDuplicate_new w _ Hnew) as [pm Hdup].
  rewrite (handleMessage_new w data pm Hself Hdup). simpl.
  rewrite Hp2p. simpl. unfold handleDirect, sendMessage. run.
  rewrite Hbound. simpl. rewrite Hdm. simpl.
  eexists. split; [reflexivity|]. done.
Qed.

(** In a group, [logMessage] appends to the log of the chat and records
    under the history key of the chat, or of the thread. *)
Lemma logMessage_group w chatId userId openId txt messageId ts mentions threadId :
  logMessage env "group" chatId userId openId txt messageId ts mentions threadId w
  = Ret tt
      (set_chatHistories
         (recordHistoryEntry (config w) (getHistoryKey chatId threadId)
            (mkEntry (orZ ts (clock w)) messageId userId openId
               (resolved_name (resolution env w userId)) (resolveMentions txt mentions)))
         (emit (EAppendLog chatId threadId
                  (mkEntry (orZ ts (clock w)) messageId userId openId
                     (resolved_name (resolution env w userId))
                     (resolveMentions txt mentions)))
            (resolved env userId w))).
Proof.
  unfold logMessage, getHistoryKey. run. rewrite resolveUserName_eq. run.
  by destruct (truthy threadId).
Qed.

(** In an allowed group that is not smart, a message that does not
    mention the bot is logged and recorded for context, under the thread
    key when it belongs to a thread, and nothing is sent anywhere. *)
Theorem handleMessage_logged_only w data :
  isSelf w (senderIdOf (sender data)) = false →
  processedMessages w !! msg_message_id (message data) = None →
  msg_chat_type (message data) = "group" →
  orS (groupPolicy (config w)) "allowlist" ≠ "disabled" →
  isGroupAllowed (config w) (msg_chat_id (message data)) = true →
  isSenderAllowedInGroup (config w) (msg_chat_id (message data))
    (s_user_id (sender data)) (s_open_id (sender data)) = true →
  isSmartGroup (config w) (msg_chat_id (message data)) = false →
  isBotMentioned (msg_mentions (message data)) (botOpenId w) = false →
  ∃ w' entry,
    handleMessage env data w = Ret LoggedOnly w'
    ∧ message_id entry = msg_message_id (message data)
    ∧ user_name entry = resolved_name (resolution env w (s_user_id (sender data)))
    ∧ trace w' = trace w ++ resolutionCalls env w (s_user_id (sender data))
                 ++ [EAppendLog (msg_chat_id (message data))
                       (msg_thread_id (message data)) entry]
    ∧ chatHistories w'
      = recordHistoryEntry (config w)
          (getHistoryKey (msg_chat_id (message data)) (msg_thread_id (message data)))
          entry (chatHistories w)
    ∧ activeTypingIndicators w' = activeTypingIndicators w
    ∧ attempts (trace w') = attempts (trace w).
Proof.
  intros Hself Hnew Hgroup Hpol Hallowed Hsender Hsmart Hmention.
  destruct (isDuplicate_new w _ Hnew) as [pm Hdup].
  rewrite (handleMessage_new w data pm Hself Hdup). simpl.
  rewrite Hgroup. simpl. unfold handleGroup, groupGate. run.
  rewrite bool_decide_false by done. rewrite Hallowed, Hsender, Hsmart, Hmention. simpl.
  rewrite Hgroup, logMessage_group.
  eexists _, (mkEntry _ _ _ _ _ _). split; [reflexivity|]. simpl.
  split; [reflexivity|]. split; [reflexivity|].
  split; [by rewrite <- app_assoc|]. split; [reflexivity|]. split; [reflexivity|].
  unfold attempts. rewrite !List.filter_app, !length_app.
  unfold resolutionCalls. simpl.
  destruct (looked_up _), (alert _) as [[recipient alertText]|]; simpl; lia.
Qed.

End Handler.

Section TypingFailures.

Variable env : Env.
Implicit Types (w : World) (m : string).

(** When the reaction cannot be attached (no success, no reaction id, or
    an exception) [addTypingIndicator] answers [false] and leaves no
    indicator and no timer behind. *)
Theorem addTypingIndicator_failure w m :
  (∀ rid, addReaction env (tick w) m = AddResult true rid → rid = "") →
  addTypingIndicator env m w
  = Ret false (emit (EAddReaction m (addReaction env (tick w) m)) w).
Proof.
  intros Hfail. unfold addTypingIndicator, callAddReaction. run.
  destruct (addReaction env (tick w) m) as [[|] rid|] eqn:Hadd; [|done|done].
  by rewrite (Hfail rid eq_refl).
Qed.

(** Without a completion signal the 120-second expiry removes the
    indicator: firing the timer set by [addTypingIndicator] makes the one
    removal and forgets the indicator. *)
Theorem typing_expiry_removes w m st t :
  activeTypingIndicators w !! m = Some st →
  timers w !! timer st = Some (mkTimer t (ExpireTyping m)) →
  removal_succeeds env w m (reactionId st) →
  ∃ w', fireTimer env (timer st) w = Ret tt w'
        ∧ activeTypingIndicators w' !! m = None
        ∧ timers w' !! timer st = None
        ∧ removals m (trace w') = S (removals m (trace w)).
Proof.
  intros Hact Htimer Hok. unfold fireTimer, clearTimeout. run. rewrite Htimer. simpl.
  destruct (removeTypingIndicator_success env (set_timers (delete (timer st)) w) m st
              Hact Hok) as (w' & Hrun & Hgone & Hcancel & Hcount).
  exists w'. by rewrite Hrun.
Qed.

(** When the removal fails at both attempts (or throws) the indicator is
    kept with a deferred retry due ten seconds later in place of its old
    timer; when that retry fires it calls the platform once more and
    forgets the indicator whatever the answer. *)
Theorem typing_deferred_retry_forgets w m st :
  activeTypingIndicators w !! m = Some st →
  ¬ removal_succeeds env w m (reactionId st) →
  ∃ w1,
    removeTypingIndicator env m w = Ret tt w1
    ∧ activeTypingIndicators w1 !! m = Some (mkTyping (reactionId st) (next_timer w))
    ∧ timers w1 !! next_timer w
      = Some (mkTimer (clock w + 10000) (DeferredRemove m (reactionId st)))
    ∧ removals m (trace w1) = removals m (trace w)
    ∧ ∃ w2,
        fireTimer env (next_timer w) w1 = Ret tt w2
        ∧ activeTypingIndicators w2 !! m = None
        ∧ timers w2 !! next_timer w = None
        ∧ trace w2 = trace w1 ++ [ERemoveReaction m (reactionId st)
                                    (removeReaction env (tick w1) m (reactionId st))].
Proof.
  intros Hact Hfail.
  exists (final (removeTypingIndicator env m w)).
  unfold removeTypingIndicator, callRemoveReaction, clearTimeout, setTimeout, fireTimer.
  run. rewrite Hact. run. unfold removal_succeeds, tick in *. simpl.
  destruct (removeReaction env (List.length (trace w)) m (reactionId st))
    as [[|]|] eqn:H1; run.
  - destruct Hfail. by left.
  - rewrite !length_app. simpl.
    replace (List.length (trace w) + 1 + 1)%nat
      with (List.length (trace w) + 2)%nat by lia.
    destruct (removeReaction env (List.length (trace w) + 2) m (reactionId st))
      as [[|]|] eqn:H2; run.
    + destruct Hfail. by right.
    + rewrite lookup_alter_eq, Hact, !lookup_insert_eq. simpl.
      repeat split; try done.
      * rewrite !removals_app. unfold removals at 2 3 4. simpl. lia.
      * eexists. split; [reflexivity|]. simpl.
        by rewrite !lookup_delete_eq.
    + rewrite lookup_alter_eq, Hact, !lookup_insert_eq. simpl.
      repeat split; try done.
      * rewrite !removals_app. unfold removals at 2 3 4. simpl. lia.
      * eexists. split; [reflexivity|]. simpl.
        by rewrite !lookup_delete_eq.
  - rewrite lookup_alter_eq, Hact, !lookup_insert_eq. simpl.
    repeat split; try done.
    + rewrite !removals_app. unfold removals at 2. simpl. lia.
    + eexists. split; [reflexivity|]. simpl.
      by rewrite !lookup_delete_eq.
Qed.

End TypingFailures.

Section DispatchBounds.

Variable env : Env.
Implicit Types (w : World) (onReject : option (string → M unit)).

(** What the second attempt decides is final: after a first failure
    that is no structured rejection, a retry that fails again without one
    ends the dispatch after exactly two attempts without any callback, and
    a retry answered by a rejection (a response with [ok: false] and a
    non-empty [error.message]) hands that message to the callback, once,
    after the second attempt. *)
Theorem sendToC4_retry_is_final w source endpoint content out retryOut :
  content ≠ "" →
  execFile env (tick w) endpoint content = ExecError out →
  (∀ response, out = Some response →
               ok response = Some false → error_message response = "") →
  execFile env (tick w + 2)%nat endpoint content = ExecError retryOut →
  ((∀ response, retryOut = Some response →
                ok response = Some false → error_message response = "") →
   ∀ onReject,
     sendToC4 env source endpoint content onReject w
     = Ret tt (emit (EExecFile source endpoint content (ExecError retryOut))
                 (emit (ESleep 2000)
                    (emit (EExecFile source endpoint content (ExecError out)) w))))
  ∧ (∀ response callback,
       retryOut = Some response →
       ok response = Some false →
       error_message response ≠ "" →
       sendToC4 env source endpoint content (Some callback) w
       = callback (error_message response)
           (emit (EExecFile source endpoint content (ExecError retryOut))
              (emit (ESleep 2000)
                 (emit (EExecFile source endpoint content (ExecError out)) w)))).
Proof.
  intros Hc H1 Hrej%rejection_unstructured H2.
  assert (∀ onReject,
            sendToC4 env source endpoint content onReject w
            = match rejection retryOut with
              | Some message => invoke onReject message
              | None => ret tt
              end (emit (EExecFile source endpoint content (ExecError retryOut))
                     (emit (ESleep 2000)
                        (emit (EExecFile source endpoint content (ExecError out)) w))))
    as Hrun.
  { intros onReject. unfold sendToC4, callExecFile, truthy.
    rewrite bool_decide_true by done. run. rewrite H1, Hrej. run.
    rewrite !tick_emit. replace (S (S (tick w))) with (tick w + 2)%nat by lia.
    by rewrite H2. }
  split.
  - intros Hnone%rejection_unstructured onReject. by rewrite Hrun, Hnone.
  - intros response callback -> Hok Hmsg.
    by rewrite Hrun, (rejection_structured response Hok Hmsg).
Qed.

(** The reason handed to the rejection callback is never empty, and it
    comes from a response that says [ok: false]. *)
Lemma rejection_reason out message :
  rejection out = Some message →
  message ≠ "" ∧ ∃ response, out = Some response ∧ ok response = Some false
                             ∧ error_message response = message.
Proof.
  unfold rejection. destruct out as [response|]; [|done].
  destruct (bool_decide (ok response = Some false)) eqn:Hok; simpl; [|done].
  destruct (truthy (error_message response)) eqn:Hmsg; [|done].
  intros [= <-]. apply bool_decide_eq_true in Hok, Hmsg. eauto.
Qed.

(** Whatever the bridge answers, one dispatch makes at most two delivery
    attempts and delivers at most once, provided the rejection callback
    itself does not dispatch. *)
Theorem sendToC4_at_most_two_attempts w source endpoint content onReject :
  (∀ callback message w0,
     onReject = Some callback →
     attempts (trace (final (callback message w0))) = attempts (trace w0)
     ∧ deliveries (trace (final (callback message w0))) = deliveries (trace w0)) →
  (attempts (trace (final (sendToC4 env source endpoint content onReject w)))
   ≤ attempts (trace w) + 2)%nat
  ∧ (deliveries (trace (final (sendToC4 env source endpoint content onReject w)))
     ≤ deliveries (trace w) + 1)%nat.
Proof.
  intros Hcb.
  assert (∀ message w0,
            attempts (trace (final (invoke onReject message w0))) = attempts (trace w0)
            ∧ deliveries (trace (final (invoke onReject message w0)))
              = deliveries (trace w0)) as Hinv.
  { intros message w0. unfold invoke. destruct onReject as [callback|]; [|done].
    by apply Hcb. }
  unfold sendToC4, callExecFile. destruct (truthy content); run; [|lia].
  destruct (execFile env (tick w) endpoint content) as [|out]; run.
  - rewrite attempts_app, deliveries_app. unfold attempts at 2, deliveries at 2.
    simpl. lia.
  - destruct (rejection out) as [message|].
    + destruct (Hinv message
                  (emit (EExecFile source endpoint content (ExecError out)) w))
        as [-> ->]. simpl.
      rewrite attempts_app, deliveries_app. unfold attempts at 2, deliveries at 2.
      simpl. lia.
    + run. destruct (execFile env _ endpoint content) as [|retryOut]; run.
      * rewrite !attempts_app, !deliveries_app.
        unfold attempts at 2 3 4, deliveries at 2 3 4. simpl. lia.
      * destruct (rejection retryOut) as [message|].
        -- match goal with
           | |- context [invoke onReject message ?w0] =>
               destruct (Hinv message w0) as [-> ->]
           end. simpl.
           rewrite !attempts_app, !deliveries_app.
           unfold attempts at 2 3 4, deliveries at 2 3 4. simpl. lia.
        -- run. rewrite !attempts_app, !deliveries_app.
           unfold attempts at 2 3 4, deliveries at 2 3 4. simpl. lia.
Qed.

(** The callback the handler passes, [rejectReply], qualifies: it takes
    the indicator away and answers in the chat, and never dispatches. *)
Lemma rejectReply_never_dispatches chatId messageId threadId rootId parentId errMsg w0 :
  attempts (trace (final (rejectReply env chatId messageId threadId rootId parentId
                            errMsg w0))) = attempts (trace w0)
  ∧ deliveries (trace (final (rejectReply env chatId messageId threadId rootId parentId
                                errMsg w0))) = deliveries (trace w0).
Proof.
  unfold rejectReply, removeTypingIndicator, sendThreadAwareMessage, replyToMessage,
    sendMessage, callRemoveReaction, clearTimeout, setTimeout.
  run.
  destruct (activeTypingIndicators w0 !! messageId) as [st|]; run.
  - destruct (removeReaction env _ messageId (reactionId st)) as [[|]|]; run;
      [| destruct (removeReaction env _ messageId (reactionId st)) as [[|]|]; run |];
      destruct (_ && _); run;
        try destruct (replyToMessage_ok env _ _); run;
          rewrite ?attempts_app, ?deliveries_app; unfold attempts, deliveries; simpl; lia.
  - destruct (_ && _); run;
      try destruct (replyToMessage_ok env _ _); run;
        rewrite ?attempts_app, ?deliveries_app; unfold attempts, deliveries; simpl; lia.
Qed.

End DispatchBounds.

Section Formatting.

Variable env : Env.

(** *** Escaping *)

Lemma list_ascii_of_string_append (s1 s2 : string) :
  String.list_ascii_of_string (s1 +:+ s2)
  = String.list_ascii_of_string s1 ++ String.list_ascii_of_string s2.
Proof. induction s1 as [|c s1 IH]; simpl; [done|]. by rewrite IH. Qed.

(** Escaped text contains no character that could open or close a tag
    or a quoted attribute: whatever a user writes stays inside the block
    it is put in. *)
Theorem escapeXml_no_markup (value : string) (c : ascii) :
  c ∈ String.list_ascii_of_string (escapeXml value) →
  c ≠ "<"%char ∧ c ≠ ">"%char ∧ c ≠ "'"%char ∧ c ≠ "034"%char.
Proof.
  induction value as [|a rest IH]; simpl; [by intros ?%elem_of_nil|].
  rewrite list_ascii_of_string_append, elem_of_app. intros [Hc|Hc]; [|by apply IH].
  unfold escapeChar in Hc.
  repeat (match type of Hc with
          | context [Ascii.eqb a ?x] =>
              let E := fresh "E" in destruct (Ascii.eqb a x) eqn:E
          end);
    simpl in Hc; rewrite ?elem_of_cons, ?elem_of_nil in Hc;
    try (repeat destruct Hc as [->|Hc]; try done; repeat split; done).
  destruct Hc as [->|[]].
  apply Ascii.eqb_neq in E0, E1, E2, E3. done.
Qed.

(** Text without the five special characters is passed through
    unchanged. *)
Theorem escapeXml_plain (value : string) :
  (∀ c, c ∈ String.list_ascii_of_string value →
        c ≠ "&"%char ∧ c ≠ "<"%char ∧ c ≠ ">"%char ∧ c ≠ "'"%char ∧ c ≠ "034"%char) →
  escapeXml value = value.
Proof.
  induction value as [|a rest IH]; simpl; [done|]. intros Hplain.
  rewrite IH by (intros c Hc; apply Hplain; by right).
  destruct (Hplain a) as (H1 & H2 & H3 & H4 & H5); [by left|].
  unfold escapeChar.
  apply Ascii.eqb_neq in H1, H2, H3, H4, H5. by rewrite H1, H2, H3, H4, H5.
Qed.

(** *** The message for the agent *)

Lemma string_append_nonempty (s1 s2 : string) : s1 ≠ "" → s1 +:+ s2 ≠ "".
Proof. by destruct s1. Qed.

(** A formatted message is never empty, so the dispatcher never refuses
    it locally: at least one delivery attempt is made for it. *)
Theorem formatMessage_is_dispatched chatType userName txt contextMessages mediaPath opts
    w source endpoint :
  formatMessage chatType userName txt contextMessages mediaPath opts ≠ ""
  ∧ (attempts (trace w)
     < attempts (trace (final
         (sendToC4 env source endpoint
            (formatMessage chatType userName txt contextMessages mediaPath opts)
            None w))))%nat.
Proof.
  assert (formatMessage chatType userName txt contextMessages mediaPath opts ≠ "")
    as Hne.
  { unfold formatMessage. destruct (truthy mediaPath);
      repeat apply string_append_nonempty; by case_bool_decide. }
  split; [done|].
  unfold sendToC4, callExecFile, truthy. rewrite bool_decide_true by done. run.
  destruct (execFile env (tick w) endpoint _) as [|out]; run.
  - rewrite attempts_app. unfold attempts at 3. simpl. lia.
  - unfold invoke. destruct (rejection out); run.
    + rewrite attempts_app. unfold attempts at 3. simpl. lia.
    + destruct (execFile env _ endpoint _) as [|retryOut]; run;
        [|destruct (rejection retryOut); run];
        rewrite !attempts_app; unfold attempts at 3 4 5; simpl; lia.
Qed.

(** *** Rich text *)

Lemma renderElement_keys messageId el :
  (renderElement messageId el).2
  = if decide (tag el = "img" ∧ image_key el ≠ "") then [image_key el] else [].
Proof.
  unfold renderElement. case_decide as Himg.
  - destruct Himg as [Htag Hkey]. rewrite Htag. simpl.
    unfold truthy. by rewrite bool_decide_true.
  - repeat (case_bool_decide; simpl; try done).
    unfold truthy. case_bool_decide; simpl; [|done]. by destruct Himg.
Qed.

(** The image keys of a rich-text message are those of its [img]
    elements that carry one, in reading order. *)
Theorem extractPostText_image_keys paragraphs messageId :
  (extractPostText paragraphs messageId).2
  = image_key <$> filter (λ el, tag el = "img" ∧ image_key el ≠ "") (mjoin paragraphs).
Proof.
  unfold extractPostText. simpl.
  induction paragraphs as [|paragraph rest IH]; [done|].
  rewrite !fmap_cons. simpl. rewrite IH, filter_app, fmap_app. f_equal.
  clear. induction paragraph as [|el paragraph IH]; [done|].
  rewrite !fmap_cons. simpl. rewrite IH, renderElement_keys, filter_cons.
  by case_decide.
Qed.

(** The text of a rich-text message has one line for each paragraph. *)
Theorem extractPostText_lines paragraphs messageId :
  ∃ lines,
    (extractPostText paragraphs messageId).1 = String.concat nl lines
    ∧ List.length lines = List.length paragraphs.
Proof.
  unfold extractPostText. simpl. eexists. split; [reflexivity|].
  by rewrite !length_fmap.
Qed.

End Formatting.

Section PermissionAlerts.

Implicit Types (cfg : Config) (errors : list (Z * PermissionError)).

Lemma handlePermissionError_last cfg now permErr last :
  (handlePermissionError cfg now permErr last).1 = last
  ∧ (handlePermissionError cfg now permErr last).2 = None
  ∨ (handlePermissionError cfg now permErr last).1 = now
    ∧ PERMISSION_ERROR_COOLDOWN ≤ now - last.
Proof.
  unfold handlePermissionError. case_bool_decide; simpl; [by left|right]. split; [done|lia].
Qed.

Lemma alertTimes_after cfg errors last t :
  Sorted Z.le (errors.*1) →
  Forall (λ now, last ≤ now) (errors.*1) →
  t ∈ alertTimes cfg errors last →
  last + PERMISSION_ERROR_COOLDOWN ≤ t.
Proof.
  revert last. induction errors as [|[now permErr] rest IH]; intros last Hsorted Hlast;
    simpl; [by intros ?%elem_of_nil|].
  simpl in Hsorted, Hlast.
  apply Sorted_StronglySorted in Hsorted; [|intros ???; lia].
  apply StronglySorted_inv in Hsorted as [Hrest Hnow].
  apply Forall_cons in Hlast as [Hle Hlast].
  destruct (handlePermissionError cfg now permErr last) as [last' sent] eqn:Hstep.
  pose proof (handlePermissionError_last cfg now permErr last) as Hcase.
  rewrite Hstep in Hcase. simpl in Hcase.
  assert (t ∈ alertTimes cfg rest last' → last + PERMISSION_ERROR_COOLDOWN ≤ t) as Hrec.
  { intros Hin. destruct Hcase as [[-> _]|[-> Hcool]].
    - apply IH; [by apply StronglySorted_Sorted|done|done].
    - assert (now + PERMISSION_ERROR_COOLDOWN ≤ t); [|lia].
      apply IH; [by apply StronglySorted_Sorted|done|done]. }
  destruct sent as [a|]; [|done]. simpl.
  rewrite elem_of_cons. intros [->|Hin]; [|by apply Hrec].
  destruct Hcase as [[_ ?]|[_ ?]]; [done|lia].
Qed.

(** However many permission errors are detected, two alerts to the owner
    are never less than five minutes apart. *)
Theorem permission_alerts_spaced cfg errors last :
  Sorted Z.le (errors.*1) →
  Forall (λ now, last ≤ now) (errors.*1) →
  StronglySorted (λ t1 t2, t1 + PERMISSION_ERROR_COOLDOWN ≤ t2)
    (alertTimes cfg errors last).
Proof.
  revert last. induction errors as [|[now permErr] rest IH]; intros last Hsorted Hlast;
    simpl; [constructor|].
  simpl in Hsorted, Hlast.
  apply Sorted_StronglySorted in Hsorted; [|intros ???; lia].
  apply StronglySorted_inv in Hsorted as [Hrest Hnow].
  apply Forall_cons in Hlast as [Hle Hlast].
  destruct (handlePermissionError cfg now permErr last) as [last' sent] eqn:Hstep.
  pose proof (handlePermissionError_last cfg now permErr last) as Hcase.
  rewrite Hstep in Hcase. simpl in Hcase.
  assert (Forall (λ t, last' ≤ t) (rest.*1)) as Hlast'.
  { destruct Hcase as [[-> _]|[-> _]]; [done|].
    eapply Forall_impl; [exact Hnow|]. done. }
  destruct sent as [a|]; simpl; [|by apply IH; [apply StronglySorted_Sorted|]].
  constructor; [by apply IH; [apply StronglySorted_Sorted|]|].
  destruct Hcase as [[_ ?]|[-> _]]; [done|].
  apply Forall_forall. intros t Ht.
  by apply (alertTimes_after cfg rest now t); [apply StronglySorted_Sorted|..].
Qed.

(** A permission error that is let through starts the cooldown even when
    there is no bound owner to alert: errors in the next five minutes
    alert nobody, whoever is bound by then. *)
Theorem permission_cooldown_without_owner cfg cfg' now now' permErr permErr' last :
  PERMISSION_ERROR_COOLDOWN ≤ now - last →
  from_option bound false (owner cfg) = false →
  now ≤ now' < now + PERMISSION_ERROR_COOLDOWN →
  handlePermissionError cfg now permErr last = (now, None)
  ∧ handlePermissionError cfg' now' permErr'
      (handlePermissionError cfg now permErr last).1 = (now, None).
Proof.
  intros Hcool Hunbound Hsoon. unfold handlePermissionError.
  rewrite bool_decide_false by lia. simpl.
  rewrite bool_decide_true by lia.
  destruct (owner cfg) as [o|]; simpl in *; [|done]. by rewrite Hunbound.
Qed.

End PermissionAlerts.

Section IdentityCache.

Implicit Types (cfg : Config) (st : IdentityState) (uid : string).

(** A name learnt from the contact API is served from the cache, without
    another call and without touching the state, until its ten minutes
    are over. *)
Theorem resolveUserName_cached_after_lookup cfg botOpenId botAppId botAppName
    now now' uid userName code message answer' st :
  uid ≠ "" →
  ¬ (botOpenId ≠ "" ∧ uid = botOpenId) →
  ¬ (botAppId ≠ "" ∧ uid = botAppId) →
  (∀ entry, userCacheMemory st !! uid = Some entry → expireAt entry ≤ now) →
  userName ≠ "" →
  now' < now + SENDER_NAME_TTL →
  looked_up (Identity.resolveUserName cfg botOpenId botAppId botAppName now
               (UserInfo true userName code message) (Some uid) st) = true
  ∧ Identity.resolveUserName cfg botOpenId botAppId botAppName now'
      answer' (Some uid)
      (resolved_state (Identity.resolveUserName cfg botOpenId botAppId botAppName now
                         (UserInfo true userName code message) (Some uid) st))
    = mkResolved userName
        (resolved_state (Identity.resolveUserName cfg botOpenId botAppId botAppName now
                           (UserInfo true userName code message) (Some uid) st))
        false None.
Proof.
  intros Huid Hbot Happ Hstale Hname Hsoon.
  assert (truthy botOpenId && bool_decide (uid = botOpenId) = false) as Hb1.
  { apply andb_false_iff. unfold truthy.
    destruct (decide (botOpenId = "")) as [->|?]; [by left|right].
    apply bool_decide_eq_false. naive_solver. }
  assert (truthy botAppId && bool_decide (uid = botAppId) = false) as Hb2.
  { apply andb_false_iff. unfold truthy.
    destruct (decide (botAppId = "")) as [->|?]; [by left|right].
    apply bool_decide_eq_false. naive_solver. }
  assert (Identity.resolveUserName cfg botOpenId botAppId botAppName now
            (UserInfo true userName code message) (Some uid) st
          = mkResolved userName
              (mkIdentity (<[uid := mkCacheEntry userName (now + SENDER_NAME_TTL)]>
                             (userCacheMemory st))
                          true (lastPermissionErrorNotified st)) true None) as ->.
  { unfold Identity.resolveUserName. simpl. unfold truthy at 1.
    rewrite bool_decide_true by done. simpl. rewrite Hb1, Hb2.
    unfold truthy. rewrite (bool_decide_true (userName ≠ "")) by done. simpl.
    destruct (userCacheMemory st !! uid) as [entry|] eqn:Hc; [|done].
    rewrite bool_decide_false; [done|]. specialize (Hstale entry eq_refl). lia. }
  split; [done|].
  unfold Identity.resolveUserName. simpl. unfold truthy at 1.
  rewrite bool_decide_true by done. simpl. rewrite Hb1, Hb2.
  rewrite lookup_insert_eq. simpl. by rewrite bool_decide_true by lia.
Qed.

(** The expired name of a sender is used only when the contact API
    throws; when the API answers without success the raw id is
    returned, expired name or not. *)
Theorem resolveUserName_stale_name cfg botOpenId botAppId botAppName now uid entry
    permErr code message st :
  uid ≠ "" →
  ¬ (botOpenId ≠ "" ∧ uid = botOpenId) →
  ¬ (botAppId ≠ "" ∧ uid = botAppId) →
  userCacheMemory st !! uid = Some entry →
  expireAt entry ≤ now →
  resolved_name (Identity.resolveUserName cfg botOpenId botAppId botAppName now
                   (UserInfoThrows permErr) (Some uid) st) = cached_name entry
  ∧ resolved_name (Identity.resolveUserName cfg botOpenId botAppId botAppName now
                     (UserInfo false "" code message) (Some uid) st) = uid.
Proof.
  intros Huid Hbot Happ Hentry Hstale.
  assert (truthy botOpenId && bool_decide (uid = botOpenId) = false) as Hb1.
  { apply andb_false_iff. unfold truthy.
    destruct (decide (botOpenId = "")) as [->|?]; [by left|right].
    apply bool_decide_eq_false. naive_solver. }
  assert (truthy botAppId && bool_decide (uid = botAppId) = false) as Hb2.
  { apply andb_false_iff. unfold truthy.
    destruct (decide (botAppId = "")) as [->|?]; [by left|right].
    apply bool_decide_eq_false. naive_solver. }
  unfold Identity.resolveUserName. simpl. unfold truthy at 1 4.
  rewrite !(bool_decide_true (uid ≠ "")) by done. simpl. rewrite Hb1, Hb2, Hentry.
  rewrite bool_decide_false by lia. split.
  - by destruct permErr as [e|]; [destruct (handlePermissionError _ _ _ _)|].
  - destruct (bool_decide (code = 99991672)); [|reflexivity].
    by destruct (handlePermissionError cfg now _ (lastPermissionErrorNotified st)).
Qed.

(** A resolution always yields a usable name, provided the cache holds
    no empty name: never the empty string. *)
Theorem resolveUserName_never_empty cfg botOpenId botAppId botAppName now answer
    userId st :
  (∀ id entry, userCacheMemory st !! id = Some entry → cached_name entry ≠ "") →
  resolved_name (Identity.resolveUserName cfg botOpenId botAppId botAppName now
                   answer userId st) ≠ ""
  ∧ ∀ id entry,
      userCacheMemory (resolved_state
        (Identity.resolveUserName cfg botOpenId botAppId botAppName now
           answer userId st)) !! id = Some entry →
      cached_name entry ≠ "".
Proof.
  intros Hcache.
  remember (Identity.resolveUserName cfg botOpenId botAppId botAppName now
              answer userId st) as r eqn:Hr.
  unfold Identity.resolveUserName in Hr.
  assert (orS botAppName "bot" ≠ "") as Hbot.
  { unfold orS, truthy.
    destruct (bool_decide (botAppName ≠ "")) eqn:E; [by apply bool_decide_eq_true in E|done]. }
  destruct userId as [uid|]; simpl in Hr; [|subst r; simpl; split; [done|apply Hcache]].
  unfold truthy at 1 in Hr.
  destruct (decide (uid = "")) as [->|Huid]; [subst r; simpl; split; [done|apply Hcache]|].
  rewrite bool_decide_true in Hr by done. simpl in Hr.
  destruct (truthy botOpenId && _); [subst r; simpl; split; [done|apply Hcache]|].
  destruct (truthy botAppId && _); [subst r; simpl; split; [done|apply Hcache]|].
  destruct (userCacheMemory st !! uid) as [entry|] eqn:Hc.
  - destruct (bool_decide (now < expireAt entry)).
    { subst r. simpl. split; [by apply (Hcache uid)|done]. }
    destruct answer as [success userName code message|permErr].
    + destruct success; simpl in Hr.
      * unfold truthy in Hr. destruct (decide (userName = "")) as [->|Hn];
          [subst r; simpl; split; [done|apply Hcache]|].
        rewrite bool_decide_true in Hr by done. subst r. simpl.
        split; [done|]. intros id e.
        destruct (decide (uid = id)) as [->|Hne].
        -- rewrite lookup_insert_eq. by intros [= <-].
        -- rewrite lookup_insert_ne by done. apply Hcache.
      * destruct (bool_decide (code = 99991672)); [|subst r; simpl; split; [done|apply Hcache]].
        destruct (handlePermissionError cfg now _ _). subst r; simpl; split; [done|apply Hcache].
    + destruct (match permErr with Some _ => _ | None => _ end) as [last sent].
      subst r. simpl. split; [by apply (Hcache uid)|done].
  - destruct answer as [success userName code message|permErr].
    + destruct success; simpl in Hr.
      * unfold truthy in Hr. destruct (decide (userName = "")) as [->|Hn];
          [subst r; simpl; split; [done|apply Hcache]|].
        rewrite bool_decide_true in Hr by done. subst r. simpl.
        split; [done|]. intros id e.
        destruct (decide (uid = id)) as [->|Hne].
        -- rewrite lookup_insert_eq. by intros [= <-].
        -- rewrite lookup_insert_ne by done. apply Hcache.
      * destruct (bool_decide (code = 99991672)); [|subst r; simpl; split; [done|apply Hcache]].
        destruct (handlePermissionError cfg now _ _). subst r; simpl; split; [done|apply Hcache].
    + destruct (match permErr with Some _ => _ | None => _ end) as [last sent].
      subst r; simpl; split; [done|apply Hcache].
Qed.

(** The snapshot round trip: what a successful flush writes, a cold
    start reads back as the same names, each with a fresh TTL; the flush
    clears the dirty flag, a failed flush keeps it and leaves the file. *)
Theorem user_cache_snapshot_round_trip st file now :
  _userCacheDirty st = true →
  loadUserCacheFromFile now (persistUserCache true st file).2 ∅
  = (λ entry, mkCacheEntry (cached_name entry) (now + SENDER_NAME_TTL))
      <$> userCacheMemory st
  ∧ _userCacheDirty (persistUserCache true st file).1 = false
  ∧ _userCacheDirty (persistUserCache false st file).1 = true
  ∧ (persistUserCache false st file).2 = file.
Proof.
  intros Hdirty. unfold persistUserCache, loadUserCacheFromFile. rewrite Hdirty. simpl.
  split; [|done]. rewrite right_id_L by apply _. by rewrite <- map_fmap_compose.
Qed.

End IdentityCache.

Section Webhook.

Implicit Types (body event : WebhookEvent).

(** An event reaches [handleMessage] through the webhook only when a
    verification token is configured and the judged payload, the body or
    its decryption, carries exactly that token, a message and a sender. *)
Theorem webhookRequest_handles_verified_only encrypt_key verification_token decrypt
    body data :
  webhookRequest encrypt_key verification_token decrypt body = Acknowledged (Some data) →
  verification_token ≠ ""
  ∧ ∃ event,
      (event = body ∨ decrypt encrypt_key (wh_encrypt body) = Some event)
      ∧ orS (wh_token event) (wh_header_token event) = verification_token
      ∧ wh_event_type event = "im.message.receive_v1"
      ∧ wh_message event = Some (message data)
      ∧ wh_sender event = Some (sender data).
Proof.
  unfold webhookRequest.
  destruct (if truthy (wh_encrypt body) && truthy encrypt_key
            then decrypt encrypt_key (wh_encrypt body) else Some body)
    as [event|] eqn:Hev; [|done].
  unfold truthy at 1. case_bool_decide as Htok; simpl; [|done].
  case_bool_decide as Heq; simpl; [|done].
  case_bool_decide; [done|].
  case_bool_decide; [|done].
  destruct (wh_message event) as [m|] eqn:Hm; [|done].
  destruct (wh_sender event) as [s0|] eqn:Hs; [|done].
  intros [= <-]. split; [done|]. exists event. simpl.
  split; [|done].
  destruct (truthy (wh_encrypt body) && truthy encrypt_key); [by right|left; congruence].
Qed.

(** Without a configured verification token the endpoint serves nothing:
    no challenge is answered and no event acknowledged. *)
Theorem webhookRequest_without_token encrypt_key decrypt body :
  webhookRequest encrypt_key "" decrypt body = Status400
  ∨ webhookRequest encrypt_key "" decrypt body = Status500.
Proof.
  unfold webhookRequest.
  destruct (if truthy (wh_encrypt body) && truthy encrypt_key
            then decrypt encrypt_key (wh_encrypt body) else Some body); [by right|by left].
Qed.

(** A request with a wrong token is refused whatever else it says. *)
Theorem webhookRequest_wrong_token encrypt_key verification_token decrypt body :
  wh_encrypt body = "" →
  verification_token ≠ "" →
  orS (wh_token body) (wh_header_token body) ≠ verification_token →
  webhookRequest encrypt_key verification_token decrypt body = Status403.
Proof.
  intros Hplain Htok Hwrong. unfold webhookRequest. rewrite Hplain. simpl.
  unfold truthy. rewrite bool_decide_true by done. simpl.
  by rewrite bool_decide_false.
Qed.

End Webhook.

Section Preload.

Variable env : Env.

(** The member list of a chat is requested at most once per process: the
    chat is marked before the call, so two calls in a row make one request
    for an unmarked chat and none for a marked one, whatever the listing
    answers. *)
Theorem preloadGroupMembers_once w chatId :
  memberLists chatId (trace (final (preloadTwice env chatId w)))
  = (memberLists chatId (trace w)
     + (if decide (chatId ∈ preloadedGroups w) then 0 else 1))%nat
  ∧ chatId ∈ preloadedGroups (final (preloadTwice env chatId w)).
Proof.
  unfold preloadTwice, preloadGroupMembers. run.
  case_bool_decide as Hin; run.
  - rewrite bool_decide_true by done. run. rewrite decide_True by done.
    split; [lia|done].
  - rewrite decide_False by done.
    destruct (listChatMembers env _ chatId) as [[|] members|]; run;
      (rewrite bool_decide_true by (apply elem_of_union_l, elem_of_singleton; done));
      run; unfold memberLists; rewrite List.filter_app, length_app; simpl;
      rewrite bool_decide_true by done; simpl;
      (split; [lia|apply elem_of_union_l, elem_of_singleton; done]).
Qed.

End Preload.

(* ================================================================== *)
(** * Part III: the properties at concrete inputs                      *)
(* ================================================================== *)

Lemma dedup_false_true_then_false_after_sweep_witness :
  "om_1" ≠ ""
  ∧ processedMessages world0 !! "om_1" = None
  ∧ ∃ w1,
      isDuplicate "om_1" world0 = Ret false w1
      ∧ processedMessages w1 !! "om_1" = Some (clock world0)
      ∧ (∀ w2, rtc (dedup_step "om_1") w1 w2 →
               clock w2 - clock world0 ≤ DEDUP_TTL →
               isDuplicate "om_1" w2 = Ret true w2)
      ∧ (∀ w2, rtc (dedup_step "om_1") w1 w2 →
               clock w2 - clock world0 > DEDUP_TTL →
               ∃ w3, isDuplicate "om_1" (final (dedupCleanup w2)) = Ret false w3).
Proof.
  split; [done|]. split; [reflexivity|].
  apply (dedup_false_true_then_false_after_sweep world0 "om_1"); [done|reflexivity].
Defined.

Lemma typing_completion_idempotent_witness :
  addReaction env_up (tick world0) "om_1" = AddResult true "r1"
  ∧ "r1" ≠ ""
  ∧ clock world0 ≤ 1000 ≤ clock world0 + TYPING_TIMEOUT
  ∧ ∃ w1 st,
      addTypingIndicator env_up "om_1" world0 = Ret true w1
      ∧ activeTypingIndicators w1 !! "om_1" = Some st
      ∧ (removal_succeeds env_up w1 "om_1" "r1" →
         ∃ w2, removeTypingIndicator env_up "om_1" (set_clock 1000 w1) = Ret tt w2
               ∧ removals "om_1" (trace w2) = S (removals "om_1" (trace world0))
               ∧ removeTypingIndicator env_up "om_1" w2 = Ret tt w2).
Proof.
  split; [reflexivity|]. split; [done|]. split; [unfold TYPING_TIMEOUT; simpl; lia|].
  destruct (typing_completion_idempotent env_up world0 "om_1" "r1" 1000)
    as (w1 & st & Hadd & Hact & _ & _ & Hcomplete & _);
    [reflexivity|done|unfold TYPING_TIMEOUT; simpl; lia|].
  exists w1, st. split; [exact Hadd|]. split; [exact Hact|].
  intros Hok. destruct (Hcomplete Hok) as (w2 & Hrun & _ & Hcount & Hagain & _).
  exists w2. split; [exact Hrun|]. split; [exact Hcount|exact Hagain].
Defined.

Lemma thread_context_isolation_witness :
  "omt_1" ≠ ""
  ∧ getInMemoryContext config0
      (foldl (λ hs e, recordHistoryEntry config0 (getHistoryKey "oc_team" "omt_1") e hs)
             ∅ [entry_of "om_1" "in the thread"])
      "oc_team" "om_2"
    = getInMemoryContext config0 ∅ "oc_team" "om_2".
Proof.
  split; [done|].
  apply (thread_context_isolation env_up config0 ∅ "oc_team" "omt_1"
           [entry_of "om_1" "in the thread"] "om_2").
  done.
Defined.

Lemma pinRootMessage_pins_witness :
  "om_root" ≠ ""
  ∧ ∃ i, [entry_of "om_2" "reply"; entry_of "om_root" "topic"] !! i
         = Some (entry_of "om_root" "topic")
         ∧ pinRootMessage ∅ [entry_of "om_2" "reply"; entry_of "om_root" "topic"]
             "om_root" "oc_team:omt_1"
           = entry_of "om_root" "topic"
             :: delete i [entry_of "om_2" "reply"; entry_of "om_root" "topic"].
Proof.
  split; [done|].
  apply (pinRootMessage_pins ∅ [entry_of "om_2" "reply"; entry_of "om_root" "topic"]
           "om_root" "oc_team:omt_1"); [done|reflexivity].
Defined.

Lemma lazy_backfill_once_after_successful_fetch_witness :
  ("oc_team" ∉ lazyLoadedContainers world0)
  ∧ listMessages env_up (tick world0) "oc_team"
      (fallbackLimit (config world0) "oc_team" "chat" 0) "chat" = ListResult true []
  ∧ ∃ ctx1 w1,
      getContextWithFallback env_up "oc_team" "om_1" "chat" "oc_team" 0 world0 = Ret ctx1 w1
      ∧ fetches (trace w1) = S (fetches (trace world0))
      ∧ "oc_team" ∈ lazyLoadedContainers w1.
Proof.
  split; [set_solver|]. split; [reflexivity|].
  destruct (lazy_backfill_once_after_successful_fetch env_up world0 "oc_team" "om_1"
              "chat" "oc_team" 0 [])
    as (ctx1 & w1 & Hrun & Hcount & Hin & _); [set_solver|reflexivity|].
  exists ctx1, w1. split; [exact Hrun|]. split; [exact Hcount|exact Hin].
Defined.

Lemma sendToC4_retry_and_rejection_witness :
  "hello" ≠ ""
  ∧ (∃ w', (∀ onReject,
              sendToC4 env_flaky "feishu" "oc_dm" "hello" onReject world0 = Ret tt w')
           ∧ deliveries (trace w') = S (deliveries (trace world0))
           ∧ attempts (trace w') = S (S (attempts (trace world0))))
  ∧ (∀ callback,
       sendToC4 env_busy "feishu" "oc_dm" "hello" (Some callback) world0
       = callback "agent busy"
           (emit (EExecFile "feishu" "oc_dm" "hello" (ExecError (Some agent_busy)))
              world0)
       ∧ attempts (trace (emit (EExecFile "feishu" "oc_dm" "hello"
                                  (ExecError (Some agent_busy))) world0))
         = 1%nat).
Proof.
  split; [done|]. split.
  - destruct (sendToC4_retry_and_rejection env_flaky world0 "feishu" "oc_dm" "hello" None)
      as [Hretry _]; [done|].
    destruct (Hretry None) as (w' & Hrun & _ & Hdel & Hatt);
      [reflexivity|by intros response [=]|reflexivity|].
    exists w'. split; [exact Hrun|]. split; [exact Hdel|exact Hatt].
  - destruct (sendToC4_retry_and_rejection env_busy world0 "feishu" "oc_dm" "hello" None)
      as [_ Hreject]; [done|].
    apply (Hreject agent_busy); [reflexivity|reflexivity|done].
Defined.

Lemma owner_bypass_witness :
  isOwner config_disabled (Some "alice") (Some "ou_alice") = true
  ∧ isDmAllowed config_disabled (Some "alice") (Some "ou_alice") = true.
Proof.
  split; [reflexivity|].
  apply (owner_bypass config_disabled (Some "alice") (Some "ou_alice")). reflexivity.
Defined.

Lemma self_message_suppressed_witness :
  senderIdOf (sender bot_echo) ≠ ""
  ∧ senderIdOf (sender bot_echo)
      ∈ [botAppId world0; botOpenId world0; app_id (config world0);
         bot_open_id (config world0)]
  ∧ handleMessage env_up bot_echo world0 = Ret SelfMessage world0.
Proof.
  split; [done|]. split; [set_solver|].
  apply (self_message_suppressed env_up bot_echo world0); [done|set_solver].
Defined.

Lemma isDuplicate_soft_cap_witness :
  "om_1" ≠ ""
  ∧ processedMessages world0 !! "om_1" = None
  ∧ ((size (processedMessages (final (isDuplicate "om_1" world0))) ≤ 200)%nat
     ∨ ∀ e t, processedMessages (final (isDuplicate "om_1" world0)) !! e = Some t →
              clock world0 - t ≤ DEDUP_TTL).
Proof.
  split; [done|]. split; [reflexivity|].
  apply (isDuplicate_soft_cap world0 "om_1"); [done|reflexivity].
Defined.

Lemma isDuplicate_keeps_live_entries_witness :
  processedMessages world_seen !! "om_1" = Some 0
  ∧ clock world_seen - 0 ≤ DEDUP_TTL
  ∧ processedMessages (final (isDuplicate "om_2" world_seen)) !! "om_1" = Some 0.
Proof.
  split; [reflexivity|]. split; [by vm_compute|].
  apply (isDuplicate_keeps_live_entries world_seen "om_2" "om_1" 0);
    [reflexivity|by vm_compute].
Defined.

Lemma recordHistoryEntry_idempotent_witness :
  0 < getGroupHistoryLimit config0 (baseChatId "oc_team")
  ∧ message_id (entry_of "om_1" "hi") ≠ ""
  ∧ recordHistoryEntry config0 "oc_team" (entry_of "om_1" "hi")
      (recordHistoryEntry config0 "oc_team" (entry_of "om_1" "hi") ∅)
    = recordHistoryEntry config0 "oc_team" (entry_of "om_1" "hi") ∅.
Proof.
  split; [reflexivity|]. split; [done|].
  apply (recordHistoryEntry_idempotent config0 "oc_team" (entry_of "om_1" "hi") ∅);
    [reflexivity|done].
Defined.

Lemma recordHistoryEntry_bounded_witness :
  0 < getGroupHistoryLimit config0 (baseChatId "oc_team")
  ∧ Z.of_nat (List.length (default [] ((∅ : gmap string (list Entry)) !! "oc_team")))
    ≤ 2 * getGroupHistoryLimit config0 (baseChatId "oc_team")
  ∧ Z.of_nat (List.length (default []
       (recordHistoryEntry config0 "oc_team" (entry_of "om_1" "hi") ∅ !! "oc_team")))
    ≤ 2 * getGroupHistoryLimit config0 (baseChatId "oc_team").
Proof.
  split; [reflexivity|]. split; [by vm_compute|].
  apply (recordHistoryEntry_bounded config0 "oc_team" (entry_of "om_1" "hi") ∅);
    [reflexivity|by vm_compute].
Defined.

Lemma getInMemoryContext_window_witness :
  0 < getGroupHistoryLimit config0 (baseChatId "oc_team")
  ∧ Z.of_nat (List.length (getInMemoryContext config0
       (recordHistoryEntry config0 "oc_team" (entry_of "om_1" "hi") ∅) "oc_team" "om_1"))
    ≤ getGroupHistoryLimit config0 (baseChatId "oc_team").
Proof.
  split; [reflexivity|].
  apply (getInMemoryContext_window config0
           (recordHistoryEntry config0 "oc_team" (entry_of "om_1" "hi") ∅)
           "oc_team" "om_1").
  reflexivity.
Defined.

Lemma getInMemoryContext_after_record_witness :
  0 < getGroupHistoryLimit config0 (baseChatId "oc_team")
  ∧ message_id (entry_of "om_1" "hi") ≠ "om_2"
  ∧ last (getInMemoryContext config0
            (recordHistoryEntry config0 "oc_team" (entry_of "om_1" "hi") ∅)
            "oc_team" "om_2")
    = Some (entry_of "om_1" "hi").
Proof.
  split; [reflexivity|]. split; [done|].
  apply (getInMemoryContext_after_record config0 ∅ "oc_team" (entry_of "om_1" "hi") "om_2");
    [reflexivity|done|reflexivity].
Defined.

Lemma recordHistoryEntry_unique_ids_witness :
  NoDup (filter (λ id, id ≠ "")
           (message_id <$> default [] ((∅ : gmap string (list Entry)) !! "oc_team")))
  ∧ NoDup (filter (λ id, id ≠ "")
             (message_id <$> default []
                (recordHistoryEntry config0 "oc_team" (entry_of "om_1" "hi") ∅
                 !! "oc_team"))).
Proof.
  split; [apply NoDup_nil_2|].
  apply (recordHistoryEntry_unique_ids config0 "oc_team" (entry_of "om_1" "hi") ∅).
  apply NoDup_nil_2.
Defined.

Lemma getContextWithFallback_safe_witness :
  0 < getGroupHistoryLimit (config world0) (baseChatId "oc_team")
  ∧ ∃ ctx w',
      getContextWithFallback env_no_history "oc_team" "om_1" "chat" "oc_team" 0 world0
      = Ret ctx w'
      ∧ Z.of_nat (List.length ctx)
        ≤ getGroupHistoryLimit (config world0) (baseChatId "oc_team")
      ∧ ∀ m, m ∈ ctx → message_id m ≠ "om_1".
Proof.
  split; [reflexivity|].
  apply (getContextWithFallback_safe env_no_history world0 "oc_team" "om_1" "chat"
           "oc_team" 0).
  reflexivity.
Defined.

Lemma isSmartGroup_allowed_witness :
  isSmartGroup config_smart "oc_lab" = true
  ∧ isGroupAllowed config_smart "oc_lab" = true.
Proof.
  split; [reflexivity|]. apply (isSmartGroup_allowed config_smart "oc_lab"). reflexivity.
Defined.

Lemma handleMessage_duplicate_dropped_witness :
  isSelf world_seen (senderIdOf (sender first_dm)) = false
  ∧ msg_message_id (message first_dm) ≠ ""
  ∧ processedMessages world_seen !! msg_message_id (message first_dm) = Some 0
  ∧ handleMessage env_up first_dm world_seen = Ret Duplicate world_seen.
Proof.
  split; [reflexivity|]. split; [done|]. split; [reflexivity|].
  apply (handleMessage_duplicate_dropped env_up world_seen first_dm 0);
    [reflexivity|done|reflexivity].
Defined.

Lemma handleMessage_denied_group_event_witness :
  denied (groupGate (config world_team) (botOpenId world_team) "oc_other"
            (Some "bob") (Some "ou_bob") []) = true
  ∧ ∃ out w',
      handleMessage env_up
        (mkData (mkMessage [] "oc_other" "om_5" "group" "" "" "" "text"
                   (text_content "hello"))
                (mkSender (Some "ou_bob") None (Some "bob")) 0)
        world_team = Ret out w'
      ∧ chatHistories w' = chatHistories world_team
      ∧ attempts (trace w') = attempts (trace world_team).
Proof.
  split; [reflexivity|].
  destruct (handleMessage_denied_group_event env_up world_team
              (mkData (mkMessage [] "oc_other" "om_5" "group" "" "" "" "text"
                         (text_content "hello"))
                      (mkSender (Some "ou_bob") None (Some "bob")) 0))
    as (out & w' & Hrun & _ & Hhist & _ & Hatt & _);
    [reflexivity|reflexivity|reflexivity|reflexivity|].
  exists out, w'. split; [exact Hrun|]. split; [exact Hhist|exact Hatt].
Defined.

Lemma handleMessage_direct_rejected_witness :
  from_option bound false (owner (config world_team)) = true
  ∧ isDmAllowed (config world_team) (s_user_id (sender bob_dm))
      (s_open_id (sender bob_dm)) = false
  ∧ ∃ w', handleMessage env_up bob_dm world_team = Ret DmRejected w'
          ∧ chatHistories w' = chatHistories world_team
          ∧ config w' = config world_team.
Proof.
  split; [reflexivity|]. split; [reflexivity|].
  destruct (handleMessage_direct_rejected env_up world_team bob_dm)
    as (w' & Hrun & _ & Hcfg & _ & Hhist & _);
    [reflexivity|reflexivity|reflexivity|reflexivity|reflexivity|].
  exists w'. split; [exact Hrun|]. split; [exact Hhist|exact Hcfg].
Defined.

Lemma handleMessage_logged_only_witness :
  isGroupAllowed (config world_team) "oc_team" = true
  ∧ isSmartGroup (config world_team) "oc_team" = false
  ∧ isBotMentioned (msg_mentions (message bob_group_message)) (botOpenId world_team)
    = false
  ∧ ∃ w' entry,
      handleMessage env_no_contacts bob_group_message world_team_later
      = Ret LoggedOnly w'
      ∧ message_id entry = "om_4"
      ∧ user_name entry = "bob"
      ∧ trace w'
        = [EGetUserInfo "bob" (UserInfo false "" 99991672 "no access");
           ESendMessage "ou_alice" "[Feishu SYSTEM] Permission error detected: no access";
           EAppendLog "oc_team" "" entry]
      ∧ attempts (trace w') = 0%nat.
Proof.
  split; [reflexivity|]. split; [reflexivity|]. split; [reflexivity|].
  destruct (handleMessage_logged_only env_no_contacts world_team_later bob_group_message)
    as (w' & entry & Hrun & Hid & Hname & Htrace & _ & _ & Hattempts);
    [reflexivity|reflexivity|reflexivity|by vm_compute|reflexivity|reflexivity
    |reflexivity|reflexivity|].
  exists w', entry. split; [exact Hrun|]. split; [exact Hid|].
  split; [exact Hname|]. split; [exact Htrace|exact Hattempts].
Defined.

Lemma addTypingIndicator_failure_witness :
  (∀ rid, addReaction env_no_reactions (tick world0) "om_1" = AddResult true rid →
          rid = "")
  ∧ addTypingIndicator env_no_reactions "om_1" world0
    = Ret false (emit (EAddReaction "om_1" AddThrows) world0).
Proof.
  split; [by intros rid [=]|].
  apply (addTypingIndicator_failure env_no_reactions world0 "om_1"). by intros rid [=].
Defined.

Lemma typing_expiry_removes_witness :
  activeTypingIndicators world_typing !! "om_1" = Some (mkTyping "r1" 0)
  ∧ removal_succeeds env_up world_typing "om_1" "r1"
  ∧ ∃ w', fireTimer env_up 0 world_typing = Ret tt w'
          ∧ activeTypingIndicators w' !! "om_1" = None
          ∧ removals "om_1" (trace w') = S (removals "om_1" (trace world_typing)).
Proof.
  split; [reflexivity|]. split; [by left|].
  destruct (typing_expiry_removes env_up world_typing "om_1" (mkTyping "r1" 0)
              (clock world0 + TYPING_TIMEOUT))
    as (w' & Hrun & Hgone & _ & Hcount); [reflexivity|reflexivity|by left|].
  exists w'. split; [exact Hrun|]. split; [exact Hgone|exact Hcount].
Defined.

Lemma typing_deferred_retry_forgets_witness :
  activeTypingIndicators world_typing !! "om_1" = Some (mkTyping "r1" 0)
  ∧ ¬ removal_succeeds env_no_reactions world_typing "om_1" "r1"
  ∧ ∃ w1 w2,
      removeTypingIndicator env_no_reactions "om_1" world_typing = Ret tt w1
      ∧ activeTypingIndicators w1 !! "om_1"
        = Some (mkTyping "r1" (next_timer world_typing))
      ∧ fireTimer env_no_reactions (next_timer world_typing) w1 = Ret tt w2
      ∧ activeTypingIndicators w2 !! "om_1" = None.
Proof.
  split; [reflexivity|]. split; [by intros [?|[? ?]]|].
  destruct (typing_deferred_retry_forgets env_no_reactions world_typing "om_1"
              (mkTyping "r1" 0))
    as (w1 & Hrun & Hkept & _ & _ & w2 & Hfire & Hgone & _);
    [reflexivity|by intros [?|[? ?]]|].
  exists w1, w2. split; [exact Hrun|]. split; [exact Hkept|]. split; [exact Hfire|exact Hgone].
Defined.

Lemma sendToC4_retry_is_final_witness :
  "hello" ≠ ""
  ∧ execFile env_bridge_down (tick world0) "oc_dm" "hello" = ExecError None
  ∧ (∀ onReject,
       sendToC4 env_bridge_down "feishu" "oc_dm" "hello" onReject world0
       = Ret tt (emit (EExecFile "feishu" "oc_dm" "hello" (ExecError None))
                   (emit (ESleep 2000)
                      (emit (EExecFile "feishu" "oc_dm" "hello" (ExecError None))
                         world0))))
  ∧ (∀ callback,
       sendToC4 env_busy_on_retry "feishu" "oc_dm" "hello" (Some callback) world0
       = callback "agent busy"
           (emit (EExecFile "feishu" "oc_dm" "hello" (ExecError (Some agent_busy)))
              (emit (ESleep 2000)
                 (emit (EExecFile "feishu" "oc_dm" "hello" (ExecError None)) world0)))).
Proof.
  split; [done|]. split; [reflexivity|]. split.
  - apply (sendToC4_retry_is_final env_bridge_down world0 "feishu" "oc_dm" "hello"
             None None);
      [done|reflexivity|by intros response [=]|reflexivity|by intros response [=]].
  - intros callback.
    destruct (sendToC4_retry_is_final env_busy_on_retry world0 "feishu" "oc_dm" "hello"
                None (Some agent_busy)) as [_ Hreject];
      [done|reflexivity|by intros response [=]|reflexivity|].
    apply (Hreject agent_busy callback); [reflexivity|reflexivity|done].
Defined.

Lemma sendToC4_at_most_two_attempts_witness :
  (attempts (trace (final (sendToC4 env_bridge_down "feishu" "oc_dm" "hello" None world0)))
   ≤ attempts (trace world0) + 2)%nat
  ∧ (deliveries (trace (final (sendToC4 env_bridge_down "feishu" "oc_dm" "hello" None
                                 world0)))
     ≤ deliveries (trace world0) + 1)%nat.
Proof.
  apply (sendToC4_at_most_two_attempts env_bridge_down world0 "feishu" "oc_dm" "hello" None).
  by intros callback message w0 [=].
Defined.

Lemma escapeXml_no_markup_witness :
  "b"%char ∈ String.list_ascii_of_string (escapeXml "<b>")
  ∧ "b"%char ≠ "<"%char ∧ "b"%char ≠ ">"%char ∧ "b"%char ≠ "'"%char
  ∧ "b"%char ≠ "034"%char.
Proof.
  split; [vm_compute; set_solver|].
  apply (escapeXml_no_markup "<b>" "b"%char). vm_compute. set_solver.
Defined.

Lemma permission_alerts_spaced_witness :
  Sorted Z.le ([(400000, permission_denied); (500000, permission_denied);
                (800000, permission_denied)].*1)
  ∧ Forall (λ now, 0 ≤ now)
      ([(400000, permission_denied); (500000, permission_denied);
        (800000, permission_denied)].*1)
  ∧ StronglySorted (λ t1 t2, t1 + PERMISSION_ERROR_COOLDOWN ≤ t2)
      (alertTimes config_team
         [(400000, permission_denied); (500000, permission_denied);
          (800000, permission_denied)] 0).
Proof.
  assert (Sorted Z.le ([(400000, permission_denied); (500000, permission_denied);
                        (800000, permission_denied)].*1)) as Hsorted.
  { simpl. repeat constructor; lia. }
  assert (Forall (λ now, 0 ≤ now)
            ([(400000, permission_denied); (500000, permission_denied);
              (800000, permission_denied)].*1)) as Hpast.
  { simpl. repeat constructor; lia. }
  split; [exact Hsorted|]. split; [exact Hpast|].
  exact (permission_alerts_spaced config_team _ 0 Hsorted Hpast).
Defined.

Lemma resolveUserName_cached_after_lookup_witness :
  "carol" ≠ ""
  ∧ 1000 < 500 + SENDER_NAME_TTL
  ∧ Identity.resolveUserName config_team "ou_bot" "cli_bot" "bot" 1000
      (UserInfoThrows None) (Some "carol")
      (resolved_state (Identity.resolveUserName config_team "ou_bot" "cli_bot" "bot" 500
                         (UserInfo true "Carol" 0 "") (Some "carol") identity0))
    = mkResolved "Carol"
        (resolved_state (Identity.resolveUserName config_team "ou_bot" "cli_bot" "bot" 500
                           (UserInfo true "Carol" 0 "") (Some "carol") identity0))
        false None.
Proof.
  split; [done|]. split; [by vm_compute|].
  apply (resolveUserName_cached_after_lookup config_team "ou_bot" "cli_bot" "bot"
           500 1000 "carol" "Carol" 0 "" (UserInfoThrows None) identity0);
    [done|by intros [_ ?]|by intros [_ ?]|by intros entry ?|done|by vm_compute].
Defined.

Lemma resolveUserName_stale_name_witness :
  userCacheMemory identity_stale !! "carol" = Some (mkCacheEntry "Carol" 100)
  ∧ resolved_name (Identity.resolveUserName config_team "ou_bot" "cli_bot" "bot" 500
                     (UserInfoThrows None) (Some "carol") identity_stale) = "Carol"
  ∧ resolved_name (Identity.resolveUserName config_team "ou_bot" "cli_bot" "bot" 500
                     (UserInfo false "" 0 "") (Some "carol") identity_stale) = "carol".
Proof.
  split; [reflexivity|].
  apply (resolveUserName_stale_name config_team "ou_bot" "cli_bot" "bot" 500 "carol"
           (mkCacheEntry "Carol" 100) None 0 "" identity_stale);
    [done|by intros [_ ?]|by intros [_ ?]|reflexivity|by vm_compute].
Defined.

Lemma resolveUserName_never_empty_witness :
  (∀ id entry, userCacheMemory identity_stale !! id = Some entry → cached_name entry ≠ "")
  ∧ resolved_name (Identity.resolveUserName config_team "ou_bot" "cli_bot" "bot" 500
                     (UserInfoThrows None) (Some "dave") identity_stale) ≠ "".
Proof.
  assert (∀ id entry, userCacheMemory identity_stale !! id = Some entry →
                      cached_name entry ≠ "") as Hnames.
  { intros id entry. simpl. intros [_ <-]%lookup_singleton_Some. done. }
  split; [exact Hnames|].
  apply (resolveUserName_never_empty config_team "ou_bot" "cli_bot" "bot" 500
           (UserInfoThrows None) (Some "dave") identity_stale Hnames).
Defined.

Lemma user_cache_snapshot_round_trip_witness :
  _userCacheDirty identity_stale = true
  ∧ loadUserCacheFromFile 900 (persistUserCache true identity_stale None).2 ∅
    = (λ entry, mkCacheEntry (cached_name entry) (900 + SENDER_NAME_TTL))
        <$> userCacheMemory identity_stale.
Proof.
  split; [reflexivity|].
  apply (user_cache_snapshot_round_trip identity_stale None 900). reflexivity.
Defined.

Lemma webhookRequest_handles_verified_only_witness :
  webhookRequest "" "secret" (λ _ _, None) webhook_delivery = Acknowledged (Some bob_dm)
  ∧ "secret" ≠ "".
Proof.
  split; [reflexivity|].
  apply (webhookRequest_handles_verified_only "" "secret" (λ _ _, None)
           webhook_delivery bob_dm).
  reflexivity.
Defined.

Lemma sortByCreateTime_chronological_witness :
  Forall (λ m, - MAX_DATE ≤ r_createTime m ≤ MAX_DATE) [remote_late; remote_early]
  ∧ Sorted (λ a b, r_createTime a ≤ r_createTime b)
      (sortByCreateTime (λ _, []) [remote_late; remote_early])
  ∧ Forall (λ m, ¬ (- MAX_DATE ≤ r_createTime m ≤ MAX_DATE)) [remote_no_date]
  ∧ sortByCreateTime (λ _, []) [remote_no_date] = [remote_no_date].
Proof.
  assert (Forall (λ m, - MAX_DATE ≤ r_createTime m ≤ MAX_DATE)
            [remote_late; remote_early]) as Hdates.
  { repeat constructor; by vm_compute. }
  assert (Forall (λ m, ¬ (- MAX_DATE ≤ r_createTime m ≤ MAX_DATE)) [remote_no_date])
    as Hnone.
  { repeat constructor. vm_compute. intros [_ H]. by apply H. }
  split; [exact Hdates|].
  split; [exact (proj1 (proj2 (sortByCreateTime_chronological (λ _, [])
                                 [remote_late; remote_early])) Hdates)|].
  split; [exact Hnone|].
  exact (proj2 (proj2 (sortByCreateTime_chronological (λ _, []) [remote_no_date])) Hnone).
Defined.
